(** * valaam.py: a shallow embedding and its verified properties

    The script fetches pages of a chant site, extracts menus and a playlist
    with two regular expressions, lets the user choose interactively, and
    downloads and tags audio files.  This development embeds the script
    function by function, with the same names, and proves properties of it.

    Conventions of the embedding:
    - a Python [str] is a list of Unicode code points ([str := list N]);
    - [bytes] is a list of [Byte.byte];
    - a Python dict is an insertion-ordered association list with unique
      keys ([pydict]);
    - the values [json.loads] produces are the inductive type [json];
    - effects (printing, reading a line, HTTP requests, files, tags) are
      threaded through a state-and-exception monad [M] over a [World];
      what the script cannot control (the network, the file system, the
      Unicode tables, the tag library's reading of a file) is an [Env];
    - the libraries the script calls ([re], [json], [requests], [mutagen],
      [os.path] of POSIX, the built-in [int] and [str]) are modelled as far
      as the script uses them; where the model does not follow Python (a
      value that is not a string used in a path or as a tag, a JSON text
      nested deeper than the parser's fuel) a run ends in [Unmodelled],
      which no statement below takes for a result of the script.

    The file has three parts: the embedding; the vocabulary of the
    statements with the sample pages and environments; the lemmas and
    theorems. *)

From Stdlib Require Import Strings.String Strings.Ascii Strings.Byte.
From Stdlib Require Import Numbers.DecimalString Numbers.DecimalN Numbers.DecimalFacts.
From Stdlib Require Import ZArith NArith Bool Arith Lia List.
Import ListNotations.

Set Implicit Arguments.
Set Warnings "-register-all".

(* ================================================================== *)
(** ** Text *)

(** A character is its Unicode code point; a Python [str] is a list of them. *)
Definition char := N.
Definition str := list char.

(** Reading a Rocq string literal as text.  Literals below never contain a
    double quote: [dq] writes the apostrophe for it, so that
    [dq "{'a':1}"] is the seven characters of the JSON text with real
    double quotes. *)
Definition u (s : string) : str :=
  map N_of_ascii (list_ascii_of_string s).

Definition dquote : char := 34%N.

Definition dq (s : string) : str :=
  map (fun c => if N.eqb c 39 then dquote else c) (u s).

Fixpoint str_eqb (a b : str) : bool :=
  match a, b with
  | [], [] => true
  | x :: a', y :: b' => N.eqb x y && str_eqb a' b'
  | _, _ => false
  end.

(** [s.startswith(p)] *)
Fixpoint startswith (p s : str) : bool :=
  match p, s with
  | [], _ => true
  | x :: p', y :: s' => N.eqb x y && startswith p' s'
  | _ :: _, [] => false
  end.

(** [s[start:stop]] for [0 <= start <= stop]. *)
Definition slice (s : str) (start stop : nat) : str :=
  firstn (stop - start) (skipn start s).

(** [str.lower], on the characters whose lower case this script can observe:
    the script only compares a lowered input line with ['q'] and ['y'], and
    the only other strings Python lowers to those are ['Q'] and ['Y'].  The
    ASCII and Latin-1 capitals are lowered; other characters are left. *)
Definition lower_char (c : char) : char :=
  if ((65 <=? c) && (c <=? 90))%N then (c + 32)%N
  else if ((192 <=? c) && (c <=? 222) && negb (c =? 215))%N then (c + 32)%N
  else c.

Definition lower (s : str) : str := map lower_char s.

(** [Py_UNICODE_ISSPACE]: the characters [str.isspace] accepts, which are
    also what [\s] matches in a [str] pattern. *)
Definition unicode_isspace (c : char) : bool :=
  (((9 <=? c) && (c <=? 13)) || ((28 <=? c) && (c <=? 32))
   || (c =? 133) || (c =? 160) || (c =? 5760)
   || ((8192 <=? c) && (c <=? 8202))
   || (c =? 8232) || (c =? 8233) || (c =? 8239) || (c =? 8287)
   || (c =? 12288))%N.

(** [Py_ISSPACE]: the ASCII white space the integer parser skips. *)
Definition ascii_isspace (c : char) : bool :=
  (((9 <=? c) && (c <=? 13)) || (c =? 32))%N.

(* ================================================================== *)
(** ** Python dicts with [str] keys

    Insertion-ordered: assigning to a key that is present replaces the value
    in place; a new key goes to the end. *)

Definition pydict (V : Type) := list (str * V).

Fixpoint dict_get {V} (d : pydict V) (k : str) : option V :=
  match d with
  | [] => None
  | (k', v) :: d' => if str_eqb k' k then Some v else dict_get d' k
  end.

Fixpoint dict_set {V} (d : pydict V) (k : str) (v : V) : pydict V :=
  match d with
  | [] => [(k, v)]
  | (k', v') :: d' =>
      if str_eqb k' k then (k', v) :: d' else (k', v') :: dict_set d' k v
  end.

(** [list(d.keys())] *)
Definition dict_keys {V} (d : pydict V) : list str := map fst d.

(** [{k: v for ... }]: the pairs are assigned in order, into an empty dict. *)
Definition dict_of_pairs {V} (l : list (str * V)) : pydict V :=
  fold_left (fun d kv => dict_set d (fst kv) (snd kv)) l [].

(* ================================================================== *)
(** ** Regular expressions

    The fragment of Python's [re] the two patterns of the script are written
    in: literal characters, [\s], negated sets, the dot, the greedy and lazy
    repetitions of a single-character class, and numbered groups.  Matching
    is by backtracking, leftmost alternative first, as [re] does it. *)

Inductive cls :=
| CChar (c : char)            (* a literal character *)
| CSpace                      (* \s *)
| CNot (cs : list char)       (* [^...] *)
| CDot.                       (* . *)

Inductive item :=
| One (k : cls)                            (* k *)
| Rep (k : cls) (min : nat) (greedy : bool) (* k* k+ (greedy), k*? k+? *)
| Open (g : nat)                           (* ( of group g *)
| Close (g : nat).                         (* ) of group g *)

Definition regex := list item.

(** A literal run of characters. *)
Definition lit (s : string) : regex := map (fun c => One (CChar c)) (u s).

(** Spans of the groups closed so far, and the starts of the open ones. *)
Record mstate := MState {
  m_pos : nat;
  m_open : list (nat * nat);
  m_caps : list (nat * (nat * nat)) }.

(** A successful match: the span of the whole match and of its groups. *)
Record rmatch := RMatch {
  r_start : nat;
  r_end : nat;
  r_caps : list (nat * (nat * nat)) }.

Fixpoint assoc_nat {V} (l : list (nat * V)) (g : nat) : option V :=
  match l with
  | [] => None
  | (g', v) :: l' => if Nat.eqb g' g then Some v else assoc_nat l' g
  end.

Section Matcher.
(** [re.DOTALL] *)
Variable dotall : bool.

Definition cls_match (k : cls) (c : char) : bool :=
  match k with
  | CChar c' => N.eqb c' c
  | CSpace => unicode_isspace c
  | CNot cs => negb (existsb (N.eqb c) cs)
  | CDot => dotall || negb (N.eqb c 10)
  end.

(** Greedy repetition: take as many characters as match, then give them
    back one at a time until the rest of the pattern matches. *)
Fixpoint rep_greedy {R} (k : cls) (min : nat) (s : str) (pos : nat)
    (cont : str -> nat -> option R) : option R :=
  let stop := match min with O => cont s pos | S _ => None end in
  match s with
  | c :: s' =>
      if cls_match k c then
        match rep_greedy k (Nat.pred min) s' (S pos) cont with
        | Some r => Some r
        | None => stop
        end
      else stop
  | [] => stop
  end.

(** Lazy repetition: try the rest of the pattern first, take one more
    character only when that fails. *)
Fixpoint rep_lazy {R} (k : cls) (min : nat) (s : str) (pos : nat)
    (cont : str -> nat -> option R) : option R :=
  let more :=
    match s with
    | c :: s' =>
        if cls_match k c then rep_lazy k (Nat.pred min) s' (S pos) cont
        else None
    | [] => None
    end in
  match min with
  | O => match cont s pos with Some r => Some r | None => more end
  | S _ => more
  end.

(** The scan's [must_advance]: an empty match at [start] is refused. *)
Variable must_advance : bool.
Variable start : nat.

Fixpoint match_here (p : regex) (s : str) (st : mstate) : option mstate :=
  match p with
  | [] =>
      if must_advance && Nat.eqb (m_pos st) start then None else Some st
  | One k :: p' =>
      match s with
      | c :: s' =>
          if cls_match k c
          then match_here p' s' (MState (S (m_pos st)) (m_open st) (m_caps st))
          else None
      | [] => None
      end
  | Rep k min greedy :: p' =>
      (if greedy then @rep_greedy _ else @rep_lazy _) k min s (m_pos st)
        (fun s' pos' => match_here p' s' (MState pos' (m_open st) (m_caps st)))
  | Open g :: p' =>
      match_here p' s (MState (m_pos st) ((g, m_pos st) :: m_open st) (m_caps st))
  | Close g :: p' =>
      match assoc_nat (m_open st) g with
      | Some a =>
          match_here p' s (MState (m_pos st) (m_open st) ((g, (a, m_pos st)) :: m_caps st))
      | None => None
      end
  end.
End Matcher.

(** One attempt of pattern [p] at position [pos], [s] being the text from
    there on. *)
Definition attempt (dotall must_advance : bool) (p : regex) (s : str) (pos : nat)
  : option rmatch :=
  match match_here dotall must_advance pos p s (MState pos [] []) with
  | Some st => Some (RMatch pos (m_pos st) (m_caps st))
  | None => None
  end.

(** [re.search]: the leftmost position at which an attempt succeeds. *)
Fixpoint search_from (dotall : bool) (p : regex) (s : str) (pos : nat) : option rmatch :=
  match attempt dotall false p s pos with
  | Some m => Some m
  | None =>
      match s with
      | [] => None
      | _ :: s' => search_from dotall p s' (S pos)
      end
  end.

Definition re_search (dotall : bool) (p : regex) (text : str) : option rmatch :=
  search_from dotall p text 0.

(** [match.group(g)] for [g >= 1]: [None] when the pattern has no such group
    (Python raises IndexError). *)
Definition group (text : str) (m : rmatch) (g : nat) : option str :=
  match assoc_nat (r_caps m) g with
  | Some (a, b) => Some (slice text a b)
  | None => None
  end.

Definition ngroups (p : regex) : nat :=
  length (filter (fun i => match i with Open _ => true | _ => false end) p).

(** What [re.findall] returns for one match: the matched text for a pattern
    without groups, the group's text for one group, a tuple of the groups'
    texts for more. *)
Inductive fitem :=
| FStr (s : str)
| FTuple (l : list str).

Definition group_or_empty (text : str) (m : rmatch) (g : nat) : str :=
  match group text m g with Some s => s | None => [] end.

Definition mk_item (text : str) (ng : nat) (m : rmatch) : fitem :=
  match ng with
  | 0 => FStr (slice text (r_start m) (r_end m))
  | 1 => FStr (group_or_empty text m 1)
  | _ => FTuple (map (group_or_empty text m) (seq 1 ng))
  end.

(** The scan of [re.findall]: non-overlapping matches from left to right.
    [skip] counts the characters still inside the previous match.  After an
    empty match the same position is tried once more with [must_advance]. *)
Fixpoint scan (dotall : bool) (p : regex) (s : str) (pos skip : nat) : list rmatch :=
  let advance n :=
    match s with
    | [] => []
    | _ :: s' => scan dotall p s' (S pos) n
    end in
  match skip with
  | S n => advance n
  | O =>
      match attempt dotall false p s pos with
      | None => advance 0
      | Some m =>
          if Nat.eqb (r_end m) pos then
            m :: match attempt dotall true p s pos with
                 | Some m' => m' :: advance (r_end m' - pos - 1)
                 | None => advance 0
                 end
          else m :: advance (r_end m - pos - 1)
      end
  end.

Definition re_findall (dotall : bool) (p : regex) (text : str) : list fitem :=
  map (mk_item text (ngroups p)) (scan dotall p text 0 0).

(** [chant_pattern]; the double quote is written ' in this comment:
    <a\s+href=\'([^\']+)\'[^>]*\s+class=\'chants-title[^\']*\'\s+title=\'([^\']+)\'>
    In the source every double quote is escaped with a backslash, which the
    raw string keeps and [re] reads as the quote itself. *)
Definition chant_pattern : regex :=
  lit "<a" ++ [Rep CSpace 1 true] ++ lit "href=" ++ [One (CChar dquote)]
  ++ [Open 1; Rep (CNot [dquote]) 1 true; Close 1] ++ [One (CChar dquote)]
  ++ [Rep (CNot (u ">")) 0 true] ++ [Rep CSpace 1 true]
  ++ lit "class=" ++ [One (CChar dquote)] ++ lit "chants-title"
  ++ [Rep (CNot [dquote]) 0 true] ++ [One (CChar dquote)]
  ++ [Rep CSpace 1 true] ++ lit "title=" ++ [One (CChar dquote)]
  ++ [Open 2; Rep (CNot [dquote]) 1 true; Close 2]
  ++ [One (CChar dquote)] ++ lit ">".

(** [playlist_pattern]:  window\.vmAudioPlayer\((\{.*?\})\);  *)
Definition playlist_pattern : regex :=
  lit "window.vmAudioPlayer(" ++ [Open 1] ++ lit "{" ++ [Rep CDot 0 false]
  ++ lit "}" ++ [Close 1] ++ lit ");".

(** [chants_url] and the [base_url] computed from it. *)
Definition chants_url : str := u "https://valaam.ru/chants/".
Definition base_url : str := u "https://valaam.ru".

(* ================================================================== *)
(** ** JSON values and [json.loads]

    [json.loads] is the library's: this is its grammar (the strict decoder's,
    with the [NaN], [Infinity] and [-Infinity] extras it accepts).  A number
    with a fraction or an exponent becomes a Python float; the model keeps
    its text ([JFloat]) instead of rounding it. *)

Inductive json :=
| JNull
| JBool (b : bool)
| JInt (z : Z)
| JFloat (lexeme : str)
| JStr (s : str)
| JArr (l : list json)
| JObj (d : list (str * json)).

(** Result of a parser on a text: a value and the rest, a decoding error,
    or fuel exhausted (see [json_loads]). *)
Inductive pres (A : Type) :=
| POk (a : A) (rest : str)
| PFail
| PFuel.
Arguments PFail {A}.
Arguments PFuel {A}.

Definition is_digit (c : char) : bool := ((48 <=? c) && (c <=? 57))%N.

Definition hex_val (c : char) : option N :=
  if is_digit c then Some (c - 48)%N
  else if ((97 <=? c) && (c <=? 102))%N then Some (c - 87)%N
  else if ((65 <=? c) && (c <=? 70))%N then Some (c - 55)%N
  else None.

Definition hex4 (a b c d : char) : option N :=
  match hex_val a, hex_val b, hex_val c, hex_val d with
  | Some x, Some y, Some z, Some w => Some (((x * 16 + y) * 16 + z) * 16 + w)%N
  | _, _, _, _ => None
  end.

Definition is_high_surrogate (c : N) : bool := ((55296 <=? c) && (c <=? 56319))%N.
Definition is_low_surrogate (c : N) : bool := ((56320 <=? c) && (c <=? 57343))%N.
Definition join_surrogates (hi lo : N) : N :=
  (65536 + (hi - 55296) * 1024 + (lo - 56320))%N.

(** JSON white space: space, tab, line feed, carriage return. *)
Definition json_ws (c : char) : bool :=
  ((c =? 32) || (c =? 9) || (c =? 10) || (c =? 13))%N.

Fixpoint skip_ws (s : str) : str :=
  match s with
  | c :: s' => if json_ws c then skip_ws s' else s
  | [] => []
  end.

(** The body of a string, after its opening quote, up to the closing one.
    [acc] holds the decoded characters, last first. *)
Fixpoint parse_string (s : str) (acc : str) : option (str * str) :=
  match s with
  | [] => None
  | 34%N :: r => Some (rev acc, r)
  | 92%N :: r =>
      match r with
      | 117%N :: a :: b :: c :: d :: r1 =>
          match hex4 a b c d with
          | None => None
          | Some hi =>
              if is_high_surrogate hi then
                match r1 with
                | 92%N :: 117%N :: e :: f :: g :: h :: r2 =>
                    match hex4 e f g h with
                    | Some lo =>
                        if is_low_surrogate lo
                        then parse_string r2 (join_surrogates hi lo :: acc)
                        else parse_string r1 (hi :: acc)
                    | None => None
                    end
                | _ => parse_string r1 (hi :: acc)
                end
              else parse_string r1 (hi :: acc)
          end
      | e :: r1 =>
          let esc (c : char) := parse_string r1 (c :: acc) in
          if (e =? 34)%N then esc 34%N
          else if (e =? 92)%N then esc 92%N
          else if (e =? 47)%N then esc 47%N
          else if (e =? 98)%N then esc 8%N
          else if (e =? 102)%N then esc 12%N
          else if (e =? 110)%N then esc 10%N
          else if (e =? 114)%N then esc 13%N
          else if (e =? 116)%N then esc 9%N
          else None
      | [] => None
      end
  | c :: r => if (c <? 32)%N then None else parse_string r (c :: acc)
  end.

(** The longest run of digits at the head of a text. *)
Fixpoint span_digits (s : str) : str * str :=
  match s with
  | c :: s' =>
      if is_digit c then let (ds, r) := span_digits s' in (c :: ds, r)
      else ([], s)
  | [] => ([], [])
  end.

Definition digits_value (ds : str) : Z :=
  fold_left (fun acc c => (10 * acc + Z.of_N (c - 48))%Z) ds 0%Z.

(** A number: an optional minus; then a single 0, or a digit from 1 to 9
    and any digits; then, optionally, a point and at least one digit; then,
    optionally, e or E, an optional sign and at least one digit.  A fraction
    or exponent that lacks its digits is not part of the number. *)
Definition parse_number (s : str) : option (json * str) :=
  let (neg, s1) := match s with 45%N :: r => (true, r) | _ => (false, s) end in
  let int_part :=
    match s1 with
    | 48%N :: r => Some ([48%N], r)
    | c :: _ => if is_digit c then Some (span_digits s1) else None
    | [] => None
    end in
  match int_part with
  | None => None
  | Some (ds, r) =>
      let (frac, r1) :=
        match r with
        | 46%N :: r' =>
            match span_digits r' with
            | ([], _) => ([], r)
            | (fs, r'') => (46%N :: fs, r'')
            end
        | _ => ([], r)
        end in
      let (ex, r2) :=
        match r1 with
        | e :: r' =>
            if ((e =? 101) || (e =? 69))%N then
              let (sign, r'') :=
                match r' with
                | c :: t => if ((c =? 43) || (c =? 45))%N then ([c], t) else ([], r')
                | [] => ([], r')
                end in
              match span_digits r'' with
              | ([], _) => ([], r1)
              | (es, r3) => (e :: sign ++ es, r3)
              end
            else ([], r1)
        | [] => ([], r1)
        end in
      match frac, ex with
      | [], [] =>
          Some (JInt (if neg then - digits_value ds else digits_value ds)%Z, r2)
      | _, _ =>
          Some (JFloat ((if neg then [45%N] else []) ++ ds ++ frac ++ ex), r2)
      end
  end.

(** A fixed word at the head of a text. *)
Definition keyword (w : string) (v : json) (s : str) : pres json :=
  if startswith (u w) s then POk v (skipn (List.length (u w)) s) else PFail.

Fixpoint parse_value (fuel : nat) (s : str) : pres json :=
  match fuel with
  | O => PFuel
  | S f =>
      match s with
      | 34%N :: r =>
          match parse_string r [] with
          | Some (t, r') => POk (JStr t) r'
          | None => PFail
          end
      | 123%N :: r =>
          match skip_ws r with
          | 125%N :: r' => POk (JObj []) r'
          | r' => parse_members f r' []
          end
      | 91%N :: r =>
          match skip_ws r with
          | 93%N :: r' => POk (JArr []) r'
          | r' => parse_elements f r' []
          end
      | 110%N :: _ => keyword "null" JNull s
      | 116%N :: _ => keyword "true" (JBool true) s
      | 102%N :: _ => keyword "false" (JBool false) s
      | 78%N :: _ => keyword "NaN" (JFloat (u "NaN")) s
      | 73%N :: _ => keyword "Infinity" (JFloat (u "Infinity")) s
      | 45%N :: 73%N :: _ => keyword "-Infinity" (JFloat (u "-Infinity")) s
      | _ =>
          match parse_number s with
          | Some (v, r) => POk v r
          | None => PFail
          end
      end
  end

(** The elements of an array, from the start of an element on. *)
with parse_elements (fuel : nat) (s : str) (acc : list json) : pres json :=
  match fuel with
  | O => PFuel
  | S f =>
      match parse_value f s with
      | POk v r =>
          match skip_ws r with
          | 44%N :: r' => parse_elements f (skip_ws r') (v :: acc)
          | 93%N :: r' => POk (JArr (rev (v :: acc))) r'
          | _ => PFail
          end
      | PFail => PFail
      | PFuel => PFuel
      end
  end

(** The members of an object, from the opening quote of a key on.  A key
    that comes again is assigned again: the last value stays, at the place
    of the first. *)
with parse_members (fuel : nat) (s : str) (acc : pydict json) : pres json :=
  match fuel with
  | O => PFuel
  | S f =>
      match s with
      | 34%N :: r =>
          match parse_string r [] with
          | None => PFail
          | Some (k, r1) =>
              match skip_ws r1 with
              | 58%N :: r2 =>
                  match parse_value f (skip_ws r2) with
                  | POk v r3 =>
                      match skip_ws r3 with
                      | 44%N :: r4 => parse_members f (skip_ws r4) (dict_set acc k v)
                      | 125%N :: r4 => POk (JObj (dict_set acc k v)) r4
                      | _ => PFail
                      end
                  | PFail => PFail
                  | PFuel => PFuel
                  end
              | _ => PFail
              end
          end
      | _ => PFail
      end
  end.

Inductive loads_result :=
| Parsed (v : json)
| JSONDecodeError
| TooDeep.

(** [json.loads(s)]: one value between optional white space, and nothing
    after it.  Every recursive call of the parser has consumed a character,
    so the length of the text is fuel enough; [TooDeep] stands for running
    out of it (in Python: the interpreter's recursion limit). *)
Definition json_loads (s : str) : loads_result :=
  match parse_value (S (List.length s)) (skip_ws s) with
  | POk v r => match skip_ws r with [] => Parsed v | _ => JSONDecodeError end
  | PFail => JSONDecodeError
  | PFuel => TooDeep
  end.

(** Structural equality of JSON values.  (Python's [==] is coarser on
    numbers and on the order of a dict's keys; the script uses it only to
    find again an element taken from the same list, see [main].) *)
Fixpoint json_eqb (a b : json) : bool :=
  match a, b with
  | JNull, JNull => true
  | JBool x, JBool y => Bool.eqb x y
  | JInt x, JInt y => Z.eqb x y
  | JFloat x, JFloat y => str_eqb x y
  | JStr x, JStr y => str_eqb x y
  | JArr x, JArr y =>
      (fix all2 (x y : list json) : bool :=
         match x, y with
         | [], [] => true
         | v :: x', w :: y' => json_eqb v w && all2 x' y'
         | _, _ => false
         end) x y
  | JObj x, JObj y =>
      (fix all2 (x y : list (str * json)) : bool :=
         match x, y with
         | [], [] => true
         | (k, v) :: x', (l, w) :: y' => str_eqb k l && json_eqb v w && all2 x' y'
         | _, _ => false
         end) x y
  | _, _ => false
  end.

(* ================================================================== *)
(** ** Decimal numerals and UTF-8 *)

Definition bytes := list byte.

Fixpoint digits_of_uint (d : Decimal.uint) : str :=
  match d with
  | Decimal.Nil => []
  | Decimal.D0 d' => 48%N :: digits_of_uint d'
  | Decimal.D1 d' => 49%N :: digits_of_uint d'
  | Decimal.D2 d' => 50%N :: digits_of_uint d'
  | Decimal.D3 d' => 51%N :: digits_of_uint d'
  | Decimal.D4 d' => 52%N :: digits_of_uint d'
  | Decimal.D5 d' => 53%N :: digits_of_uint d'
  | Decimal.D6 d' => 54%N :: digits_of_uint d'
  | Decimal.D7 d' => 55%N :: digits_of_uint d'
  | Decimal.D8 d' => 56%N :: digits_of_uint d'
  | Decimal.D9 d' => 57%N :: digits_of_uint d'
  end.

(** [str(z)] for an integer. *)
Definition str_of_Z (z : Z) : str :=
  match z with
  | Zneg p => 45%N :: digits_of_uint (Pos.to_uint p)
  | _ => digits_of_uint (N.to_uint (Z.to_N z))
  end.

Definition cont_byte (b : N) : bool := ((128 <=? b) && (b <=? 191))%N.

(** [bytes.decode("utf-8")], strict: [None] is UnicodeDecodeError.  Over-long
    forms, surrogates and code points above U+10FFFF are refused. *)
Fixpoint utf8_decode (bs : bytes) : option str :=
  match bs with
  | [] => Some []
  | b0 :: r0 =>
      let x0 := Byte.to_N b0 in
      let emit (c : N) (r : option str) :=
        match r with Some t => Some (c :: t) | None => None end in
      if (x0 <? 128)%N then emit x0 (utf8_decode r0)
      else
        match r0 with
        | [] => None
        | b1 :: r1 =>
            let x1 := Byte.to_N b1 in
            if ((194 <=? x0) && (x0 <=? 223))%N then
              if cont_byte x1
              then emit ((x0 - 192) * 64 + (x1 - 128))%N (utf8_decode r1)
              else None
            else
              match r1 with
              | [] => None
              | b2 :: r2 =>
                  let x2 := Byte.to_N b2 in
                  if ((224 <=? x0) && (x0 <=? 239))%N then
                    if cont_byte x1 && cont_byte x2
                       && negb ((x0 =? 224) && (x1 <? 160))%N
                       && negb ((x0 =? 237) && (160 <=? x1))%N
                    then emit (((x0 - 224) * 64 + (x1 - 128)) * 64 + (x2 - 128))%N
                              (utf8_decode r2)
                    else None
                  else
                    match r2 with
                    | [] => None
                    | b3 :: r3 =>
                        let x3 := Byte.to_N b3 in
                        if ((240 <=? x0) && (x0 <=? 244))%N then
                          if cont_byte x1 && cont_byte x2 && cont_byte x3
                             && negb ((x0 =? 240) && (x1 <? 144))%N
                             && negb ((x0 =? 244) && (144 <=? x1))%N
                          then emit ((((x0 - 240) * 64 + (x1 - 128)) * 64
                                      + (x2 - 128)) * 64 + (x3 - 128))%N
                                    (utf8_decode r3)
                          else None
                        else None
                    end
              end
        end
  end.

(** [os.path.join(a, b)] of [posixpath]. *)
Definition path_join (a b : str) : str :=
  if startswith (u "/") b then b
  else match a with
       | [] => b
       | _ => if N.eqb (last a 0%N) 47 then a ++ b else a ++ u "/" ++ b
       end.

(* ================================================================== *)
(** ** The environment and the world *)

(** A call of [requests.get]. *)
Record Request := MkRequest {
  rq_url : str;
  rq_timeout : option Z;     (* timeout=... *)
  rq_stream : bool }.        (* stream=True *)

(** What the network answers.  [Failed e]: no response, [requests] raises a
    RequestException whose text is [e].  [Reply status pieces broken]: a
    response (the last one, when redirections were followed) with that
    status code; [pieces n] are the pieces of the body
    that [iter_content(chunk_size=n)] yields, and [broken = Some e] says
    that reading the body fails with a RequestException after them. *)
Inductive Response :=
| Failed (e : str)
| Reply (status : Z) (pieces : N -> list bytes) (broken : option str).

(** Why a request failed, the [e] of [except RequestException as e]. *)
Inductive req_exc :=
| Transport (e : str)
| HTTPError (status : Z).

(** What mutagen finds in the bytes of a file. *)
Definition tags := pydict str.
Inductive id3_view :=
| Tagged (t : tags)   (* an ID3 header, with these easy tags *)
| Untagged            (* audio without a header: ID3NoHeaderError *)
| Unreadable.         (* neither: mutagen fails *)

Record Env := MkEnv {
  (** the answer to the n-th request of the run, counted from 0 *)
  net : nat -> Request -> Response;
  (** whether [os.makedirs(path, exist_ok=True)] succeeds *)
  can_makedirs : str -> bool;
  (** whether [open(path, 'wb')] succeeds *)
  can_open : str -> bool;
  mutagen_read : bytes -> id3_view;
  (** [Py_UNICODE_TODECIMAL], the decimal digit a character stands for *)
  todecimal : char -> option N;
  (** [sys.get_int_max_str_digits()]; 0 when there is no limit *)
  max_str_digits : nat }.

(** A file: the bytes last written to it by a download, and the tags saved
    into it since. *)
Record file := MkFile {
  f_body : bytes;
  f_saved : option tags }.

(** What the script writes to the terminal. *)
Inductive out :=
| MenuLine (index : nat) (key : str) (* print(f'{index}. {key}') *)
| AskSelection       (* the prompt 'Please enter your selection number ...' *)
| AskDownloadAll     (* the prompt 'Do you want to download the entire playlist? (y/n): ' *)
| SayRange (hi : Z)  (* 'Please select a number between 0 and {hi}.' *)
| SayInvalid         (* 'Invalid input. Please enter a valid number or 'q' to quit.' *)
| SayJsonError       (* 'Failed to parse JSON:' and the decoder's error *)
| SayBlockNotFound   (* 'Block not found' *)
| SayDownloadError (path : str) (e : req_exc) (* f'Error downloading {path}: {e}' *)
| SayDone (path : str)  (* f'Downloaded and added metadata to {path}' *)
| ClearScreen.       (* clear_term() *)

Record World := MkWorld {
  stdin : list str;      (* the lines the user is still to type *)
  stdout : list out;     (* written so far, oldest first *)
  sent : list Request;   (* requests issued so far, oldest first *)
  files : pydict file;   (* files by path *)
  dirs : list str;       (* directories made *)
  tagged : list (str * tags) }. (* every audio.save(): path and tags, oldest first *)

Inductive rt_message :=
| NoResults                          (* 'No results.' *)
| FailedToRetrieve (e : req_exc).    (* f'Failed to retrieve the page: {e}' *)

Inductive type_error :=
| MissingArgument (function parameter : string)
| UnexpectedArgument (function parameter : string)
| MultipleValues (function parameter : string)
| TooManyArguments (function : string)
| NotSubscriptable
| NotIterable.

Inductive exn :=
| RuntimeError (m : rt_message)
| SystemExit
| KeyError (k : str)
| TypeError (t : type_error)
| AttributeError
| ValueError
| IndexError
| StopIteration
| UnicodeDecodeError
| OSError
| MutagenError.

(** How a computation ends: with a value, with an exception, blocked in
    [input()] because the user has typed nothing more ([Await]: the lines of
    a world are what the user has typed so far; a closed input stream, on
    which Python raises EOFError, is not modelled), or outside what the
    model describes ([Unmodelled]). *)
Inductive result (A : Type) :=
| Ret (a : A)
| Raise (e : exn)
| Await
| Unmodelled.
Arguments Raise {A}.
Arguments Await {A}.
Arguments Unmodelled {A}.

Definition M (A : Type) := World -> result A * World.

Definition ret {A} (a : A) : M A := fun w => (Ret a, w).
Definition raise {A} (e : exn) : M A := fun w => (Raise e, w).
Definition unmodelled {A} : M A := fun w => (Unmodelled, w).

Definition bind {A B} (c : M A) (k : A -> M B) : M B :=
  fun w =>
    match c w with
    | (Ret a, w') => k a w'
    | (Raise e, w') => (Raise e, w')
    | (Await, w') => (Await, w')
    | (Unmodelled, w') => (Unmodelled, w')
    end.

Declare Scope py_scope.
Delimit Scope py_scope with py.
Notation "x <- c ;; k" := (bind c (fun x => k))
  (at level 61, c at next level, right associativity) : py_scope.
Notation "' p <- c ;; k" := (bind c (fun x => let 'p := x in k))
  (at level 61, p pattern, c at next level, right associativity) : py_scope.
Notation "c ;;; k" := (bind c (fun _ => k))
  (at level 61, right associativity) : py_scope.
Open Scope py_scope.

(** [print(...)] *)
Definition print (o : out) : M unit :=
  fun w => (Ret tt, MkWorld (stdin w) (stdout w ++ [o]) (sent w) (files w) (dirs w) (tagged w)).

(** [input(prompt)] *)
Definition input (prompt : out) : M str :=
  fun w =>
    let w' := MkWorld (stdin w) (stdout w ++ [prompt]) (sent w) (files w) (dirs w) (tagged w) in
    match stdin w with
    | [] => (Await, w')
    | line :: rest =>
        (Ret line, MkWorld rest (stdout w') (sent w') (files w') (dirs w') (tagged w'))
    end.

(** [clear_term()] *)
Definition clear_term : M unit := print ClearScreen.

Definition set_files (fs : pydict file) : M unit :=
  fun w => (Ret tt, MkWorld (stdin w) (stdout w) (sent w) fs (dirs w) (tagged w)).

Definition get_files : M (pydict file) := fun w => (Ret (files w), w).

(** [d[k]] on a JSON value *)
Definition getitem (d : json) (k : str) : M json :=
  match d with
  | JObj o =>
      match dict_get o k with
      | Some v => ret v
      | None => raise (KeyError k)
      end
  | _ => raise (TypeError NotSubscriptable)
  end.

(** A value used where the script needs a string (in a path, as a tag): the
    model follows strings only. *)
Definition as_str (v : json) : M str :=
  match v with
  | JStr s => ret s
  | _ => unmodelled
  end.

(** Iterating over a JSON value. *)
Definition py_iter (v : json) : M (list json) :=
  match v with
  | JArr l => ret l
  | JStr s => ret (map (fun c => JStr [c]) s)
  | JObj d => ret (map JStr (dict_keys d))
  | _ => raise (TypeError NotIterable)
  end.

(** [for x in l: body(x)] *)
Fixpoint for_each {A} (l : list A) (body : A -> M unit) : M unit :=
  match l with
  | [] => ret tt
  | x :: l' => body x ;;; for_each l' body
  end.

(* ================================================================== *)
(** ** The script *)

Section Script.
Variable E : Env.

(** *** [int(s)] for a string *)

(** Characters outside ASCII are first brought to ASCII: white space to a
    space, a decimal digit to its ASCII digit; the first character that is
    neither becomes a question mark and ends the text. *)
Fixpoint transform_decimal (s : str) : str :=
  match s with
  | [] => []
  | c :: s' =>
      if (c <? 127)%N then c :: transform_decimal s'
      else if unicode_isspace c then 32%N :: transform_decimal s'
      else match todecimal E c with
           | Some d =>
               if (d <=? 9)%N then (48 + d)%N :: transform_decimal s'
               else [63%N]
           | None => [63%N]
           end
  end.

Fixpoint lstrip_space (s : str) : str :=
  match s with
  | c :: s' => if ascii_isspace c then lstrip_space s' else s
  | [] => []
  end.

(** Digits, with single underscores allowed between two of them.
    [after_us]: the previous character was an underscore. *)
Fixpoint scan_digits (s : str) (after_us : bool) (acc : str) : option (str * str) :=
  let finish := if after_us then None else Some (rev acc, s) in
  match s with
  | c :: s' =>
      if is_digit c then scan_digits s' false (c :: acc)
      else if (c =? 95)%N then
             if after_us then None else scan_digits s' true acc
      else finish
  | [] => finish
  end.

(** The interpreter refuses a numeral of more digits than its limit; it
    checks this only for numerals of more than 640 digits. *)
Definition within_digit_limit (ds : str) : bool :=
  Nat.leb (List.length ds) 640
  || Nat.eqb (max_str_digits E) 0
  || Nat.leb (List.length ds) (max_str_digits E).

(** [None] is ValueError. *)
Definition py_int (s : str) : option Z :=
  let t := if forallb (fun c => c <? 128)%N s then s else transform_decimal s in
  let t1 := lstrip_space t in
  let (neg, t2) :=
    match t1 with
    | 43%N :: r => (false, r)
    | 45%N :: r => (true, r)
    | _ => (false, t1)
    end in
  match t2 with
  | 95%N :: _ => None
  | _ =>
      match scan_digits t2 false [] with
      | Some (c :: ds, rest) =>
          match lstrip_space rest with
          | [] =>
              if within_digit_limit (c :: ds)
              then Some (if neg then - digits_value (c :: ds) else digits_value (c :: ds))%Z
              else None
          | _ => None
          end
      | _ => None
      end
  end.

(** *** [list_and_select] *)

(** [for index, key in enumerate(keys): print(f'{index}. {key}')] *)
Definition menu (keys : list str) : list out :=
  map (fun ik => MenuLine (fst ik) (snd ik)) (combine (seq 0 (List.length keys)) keys).

(** The [while True] loop, on the lines the user types.  It returns what
    was written, how the loop ended, and the lines left unread. *)
Fixpoint select_loop {V} (options : pydict V) (keys : list str) (lines : list str)
  : list out * result (V * str) * list str :=
  let shown := menu keys ++ [AskSelection] in
  match lines with
  | [] => (shown, Await, [])
  | str_option :: rest =>
      if str_eqb (lower str_option) (u "q") then (shown, Raise SystemExit, rest)
      else
        let again (said : out) :=
          let '(o, r, unread) := select_loop options keys rest in
          (shown ++ said :: o, r, unread) in
        match py_int str_option with
        | Some int_option =>
            if ((0 <=? int_option) && (int_option <? Z.of_nat (List.length keys)))%Z then
              match nth_error keys (Z.to_nat int_option) with
              | Some key =>
                  match dict_get options key with
                  | Some value => (shown, Ret (value, key), rest)
                  | None => (shown, Raise (KeyError key), rest)
                  end
              | None => (shown, Raise IndexError, rest)
              end
            else again (SayRange (Z.of_nat (List.length keys) - 1))
        | None => again SayInvalid
        end
  end.

Definition list_and_select {V} (options : pydict V) : M (V * str) :=
  fun w =>
    let keys := dict_keys options in
    let '(o, r, unread) := select_loop options keys (stdin w) in
    (r, MkWorld unread (stdout w ++ o) (sent w) (files w) (dirs w) (tagged w)).

(** *** HTTP *)

(** [requests.get(...)]: the request is recorded and the environment
    answers it. *)
Definition requests_get (rq : Request) : M Response :=
  fun w =>
    (Ret (net E (List.length (sent w)) rq),
     MkWorld (stdin w) (stdout w) (sent w ++ [rq]) (files w) (dirs w) (tagged w)).

(** [response.raise_for_status()]: an HTTPError for the statuses 400 to
    599, nothing for the others. *)
Definition raises_for_status (status : Z) : bool :=
  ((400 <=? status) && (status <? 600))%Z.

(** [requests]' CONTENT_CHUNK_SIZE: [response.content] joins the pieces of
    this size. *)
Definition CONTENT_CHUNK_SIZE : N := 10240.

(** *** [get_page] *)
Definition get_page (url : str) : M str :=
  response <- requests_get (MkRequest url (Some 10%Z) false) ;;
  match response with
  | Failed e => raise (RuntimeError (FailedToRetrieve (Transport e)))
  | Reply _ _ (Some e) => raise (RuntimeError (FailedToRetrieve (Transport e)))
  | Reply status pieces None =>
      if raises_for_status status
      then raise (RuntimeError (FailedToRetrieve (HTTPError status)))
      else
        match utf8_decode (concat (pieces CONTENT_CHUNK_SIZE)) with
        | Some html_content => ret html_content
        | None => raise UnicodeDecodeError
        end
  end.

(** *** [get_options] *)

(** [for href, title in matches]: one step of the unpacking. *)
Definition unpack2 (i : fitem) : M (str * str) :=
  match i with
  | FTuple [href; title] => ret (href, title)
  | FStr [a; b] => ret ([a], [b])
  | _ => raise ValueError
  end.

Fixpoint unpack_all (l : list fitem) : M (list (str * str)) :=
  match l with
  | [] => ret []
  | i :: l' =>
      p <- unpack2 i ;;
      ps <- unpack_all l' ;;
      ret (p :: ps)
  end.

Definition get_options (url : str) (pattern : regex) : M (pydict str) :=
  html_content <- get_page url ;;
  let matches := re_findall false pattern html_content in
  match matches with
  | _ :: _ =>
      pairs <- unpack_all matches ;;
      ret (dict_of_pairs (map (fun ht => (snd ht, fst ht)) pairs))
  | [] => raise (RuntimeError NoResults)
  end.

(** *** [get_playlist] *)
Definition get_playlist (url : str) (pattern : regex) : M json :=
  html_content <- get_page url ;;
  match re_search true pattern html_content with
  | Some m =>
      match group html_content m 1 with
      | None => raise IndexError
      | Some block_of_text =>
          match json_loads block_of_text with
          | Parsed data =>
              songs <- getitem data (u "songs") ;;
              ret songs
          | JSONDecodeError =>
              print SayJsonError ;;;
              ret (JArr [])
          | TooDeep => unmodelled
          end
      end
  | None =>
      print SayBlockNotFound ;;;
      ret (JArr [])
  end.

(** *** [download_mp3] *)

(** [with open(file_path, 'wb') as file]: the file is made empty. *)
Definition open_wb (file_path : str) : M unit :=
  if can_open E file_path then
    fs <- get_files ;;
    set_files (dict_set fs file_path (MkFile [] None))
  else raise OSError.

(** [file.write(chunk)] *)
Definition file_write (file_path : str) (chunk : bytes) : M unit :=
  fs <- get_files ;;
  match dict_get fs file_path with
  | Some f => set_files (dict_set fs file_path (MkFile (f_body f ++ chunk) None))
  | None => raise OSError
  end.

Definition download_mp3 (url : json) (file_path : str) : M bool :=
  match url with
  | JStr url =>
      let url := if negb (startswith (u "http") url) then base_url ++ url else url in
      response <- requests_get (MkRequest url None true) ;;
      let failed (e : req_exc) :=
        print (SayDownloadError file_path e) ;;;
        ret false in
      match response with
      | Failed e => failed (Transport e)
      | Reply status pieces broken =>
          if raises_for_status status then failed (HTTPError status)
          else
            open_wb file_path ;;;
            for_each (pieces 1024%N)
              (fun chunk =>
                 match chunk with
                 | [] => ret tt
                 | _ :: _ => file_write file_path chunk
                 end) ;;;
            match broken with
            | Some e => failed (Transport e)
            | None => ret true
            end
      end
  | _ => raise AttributeError
  end.

(** *** [add_metadata] *)

(** [EasyID3(file_path)], and when the file has no header
    [mutagen.File(file_path, easy=True)] with [add_tags()]. *)
Definition open_tags (file_path : str) : M tags :=
  fs <- get_files ;;
  match dict_get fs file_path with
  | None => raise MutagenError
  | Some f =>
      match f_saved f with
      | Some t => ret t
      | None =>
          match mutagen_read E (f_body f) with
          | Tagged t => ret t
          | Untagged => ret []
          | Unreadable => raise MutagenError
          end
      end
  end.

(** [audio.save()] *)
Definition save_tags (file_path : str) (audio : tags) : M unit :=
  fun w =>
    match dict_get (files w) file_path with
    | Some f =>
        (Ret tt,
         MkWorld (stdin w) (stdout w) (sent w)
           (dict_set (files w) file_path (MkFile (f_body f) (Some audio)))
           (dirs w) (tagged w ++ [(file_path, audio)]))
    | None => (Raise MutagenError, w)
    end.

Definition add_metadata (file_path : str) (album_data song_data : json)
    (track_number : Z) : M unit :=
  audio <- open_tags file_path ;;
  name <- getitem song_data (u "name") ;;
  title <- as_str name ;;
  let audio := dict_set audio (u "title") title in
  album <- as_str album_data ;;
  let audio := dict_set audio (u "album") album in
  artist <- getitem song_data (u "artist") ;;
  artist <- as_str artist ;;
  let audio := dict_set audio (u "artist") artist in
  let audio := dict_set audio (u "tracknumber") (str_of_Z track_number) in
  save_tags file_path audio.

(** *** Calling a function

    Python binds the arguments of a call to the parameters before the body
    runs: the positional ones in order, then the keyword ones by name.  A
    parameter of [add_metadata] left without a value is a TypeError. *)
Fixpoint assoc_string {V} (l : list (string * V)) (k : string) : option V :=
  match l with
  | [] => None
  | (k', v) :: l' => if String.eqb k' k then Some v else assoc_string l' k
  end.

Fixpoint bind_params (f : string) (params : list string) (pos : list json)
    (kw : list (string * json)) : exn + list json :=
  match params with
  | [] =>
      match pos with
      | [] => inr []
      | _ :: _ => inl (TypeError (TooManyArguments f))
      end
  | p :: params' =>
      match pos with
      | v :: pos' =>
          match assoc_string kw p with
          | Some _ => inl (TypeError (MultipleValues f p))
          | None =>
              match bind_params f params' pos' kw with
              | inr vs => inr (v :: vs)
              | inl e => inl e
              end
          end
      | [] =>
          match assoc_string kw p with
          | Some v =>
              match bind_params f params' [] kw with
              | inr vs => inr (v :: vs)
              | inl e => inl e
              end
          | None => inl (TypeError (MissingArgument f p))
          end
      end
  end.

Definition bind_args (f : string) (params : list string) (pos : list json)
    (kw : list (string * json)) : exn + list json :=
  match find (fun kv => negb (existsb (String.eqb (fst kv)) params)) kw with
  | Some kv => inl (TypeError (UnexpectedArgument f (fst kv)))
  | None => bind_params f params pos kw
  end.

(** A call of [add_metadata] with positional arguments [pos] and keyword
    arguments [kw]. *)
Definition call_add_metadata (pos : list json) (kw : list (string * json)) : M unit :=
  match bind_args "add_metadata"
          ["file_path"; "album_data"; "song_data"; "track_number"]%string pos kw with
  | inl e => raise e
  | inr [JStr file_path; album_data; song_data; JInt track_number] =>
      add_metadata file_path album_data song_data track_number
  | inr _ => unmodelled
  end.

(** *** [download_playlist] *)

(** [os.makedirs(folder_path, exist_ok=True)] *)
Definition makedirs (folder_path : str) : M unit :=
  if can_makedirs E folder_path then
    fun w => (Ret tt, MkWorld (stdin w) (stdout w) (sent w) (files w)
                        (dirs w ++ [folder_path]) (tagged w))
  else raise OSError.

(** [enumerate(l, start=n)] *)
Fixpoint enumerate {A} (n : Z) (l : list A) : list (Z * A) :=
  match l with
  | [] => []
  | x :: l' => (n, x) :: enumerate (n + 1) l'
  end.

(** The body of the loop of [download_playlist]. *)
Definition download_song (folder_path album : str) (index : Z) (song : json) : M unit :=
  song_name <- getitem song (u "name") ;;
  song_url <- getitem song (u "url") ;;
  song_name <- as_str song_name ;;
  let file_path := path_join folder_path (song_name ++ u ".mp3") in
  ok <- download_mp3 song_url file_path ;;
  if ok : bool then
    call_add_metadata [JStr file_path; JStr album; song]
                      [("track_number", JInt index)]%string
  else ret tt.

Definition download_playlist (songs : json) (album : str) : M unit :=
  let folder_path := path_join (u "downloads") album in
  makedirs folder_path ;;;
  songs <- py_iter songs ;;
  for_each (enumerate 1 songs)
    (fun '(index, song) => download_song folder_path album index song).

(** *** [main] *)

(** [{song['name']: song['url'] for song in playlist}] *)
Fixpoint song_urls_of (playlist : list json) (acc : pydict json) : M (pydict json) :=
  match playlist with
  | [] => ret acc
  | song :: rest =>
      name <- getitem song (u "name") ;;
      url <- getitem song (u "url") ;;
      name <- as_str name ;;
      song_urls_of rest (dict_set acc name url)
  end.

(** [next(song for song in playlist if song['name'] == song_name)] *)
Fixpoint next_named (playlist : list json) (song_name : str) : M json :=
  match playlist with
  | [] => raise StopIteration
  | song :: rest =>
      name <- getitem song (u "name") ;;
      if json_eqb name (JStr song_name) then ret song
      else next_named rest song_name
  end.

(** [playlist.index(song_data)]: [None] is ValueError. *)
Fixpoint list_index (playlist : list json) (song_data : json) : option Z :=
  match playlist with
  | [] => None
  | song :: rest =>
      if json_eqb song song_data then Some 0%Z
      else option_map Z.succ (list_index rest song_data)
  end.

(** The branch of [main] that downloads one song. *)
Definition download_one (playlist : json) (album : str) : M unit :=
  songs <- py_iter playlist ;;
  song_urls <- song_urls_of songs [] ;;
  '(selected_song, song_name) <- list_and_select song_urls ;;
  let folder_path := path_join (u "downloads") album in
  makedirs folder_path ;;;
  let file_path := path_join folder_path (song_name ++ u ".mp3") in
  ok <- download_mp3 selected_song file_path ;;
  (if ok : bool then
     song_data <- next_named songs song_name ;;
     match list_index songs song_data with
     | Some i =>
         let song_index := (i + 1)%Z in
         call_add_metadata [JStr file_path; song_data]
                           [("track_number", JInt song_index)]%string
     | None => raise ValueError
     end
   else ret tt) ;;;
  print (SayDone file_path).

Definition main : M unit :=
  chants <- get_options chants_url chant_pattern ;;
  clear_term ;;;
  '(selected_chant, chant) <- list_and_select chants ;;
  clear_term ;;;
  let chant_page_url := base_url ++ selected_chant in
  albums <- get_options chant_page_url chant_pattern ;;
  '(selected_album, album) <- list_and_select albums ;;
  clear_term ;;;
  let album_url := base_url ++ selected_album in
  playlist <- get_playlist album_url playlist_pattern ;;
  download_all <- input AskDownloadAll ;;
  if str_eqb (lower download_all) (u "y") then download_playlist playlist album
  else download_one playlist album.

End Script.

(* ================================================================== *)
(** ** Vocabulary of the statements *)

(** The matches of the option pattern in a page, in document order, and the
    two texts each captures. *)
Definition anchors (html : str) : list rmatch := scan false chant_pattern html 0 0.
Definition anchor_href (html : str) (m : rmatch) : str := group_or_empty html m 1.
Definition anchor_title (html : str) (m : rmatch) : str := group_or_empty html m 2.
Definition titles (html : str) : list str := map (anchor_title html) (anchors html).

(** A list without its repetitions: every element once, where it first
    occurs. *)
Fixpoint first_occurrences (l : list str) : list str :=
  match l with
  | [] => []
  | x :: l' => x :: filter (fun y => negb (str_eqb y x)) (first_occurrences l')
  end.

(** The bytes of an ASCII text. *)
Definition encode_ascii (s : str) : bytes :=
  map (fun c => match Byte.of_N c with Some b => b | None => x00 end) s.

(** A response with status [status] whose body arrives in one piece. *)
Definition page (status : Z) (body : bytes) : Response :=
  Reply status (fun _ => [body]) None.

(** An environment that answers request number [n] with [answers n], where
    every directory can be made, every file opened, and no file carries
    tags. *)
Definition env_of (answers : nat -> Response) : Env :=
  MkEnv (fun n _ => answers n) (fun _ => true) (fun _ => true)
        (fun _ => Untagged) (fun _ => None) 4300.

(** The world at the start of a run in which the user types [lines]. *)
Definition world_of (lines : list str) : World := MkWorld lines [] [] [] [] [].

(** *** Sample pages *)

(** Two anchors of the option pattern with the same title. *)
Definition page_same_title : str :=
  dq "<a href='/a' class='chants-title' title='T'><a href='/b' class='chants-title' title='T'>".

(** Two anchors with different titles. *)
Definition page_two_chants : str :=
  dq "<p><a href='/c1' class='chants-title' title='Chant1'> <a  href='/c2' id='x' class='chants-title big'  title='Chant2'></p>".

(** A page without any anchor of the pattern. *)
Definition page_no_anchor : str := dq "<p><a href='/c1' title='Chant1'></p>".

(** An environment whose every answer is the page [html], with status 200. *)
Definition serving (html : str) : Env := env_of (fun _ => page 200 (encode_ascii html)).

(** The text that [get_playlist] hands to [json.loads]: group 1 of the first
    match of the playlist pattern, when there is a match. *)
Definition payload (html : str) : option str :=
  match re_search true playlist_pattern html with
  | Some m => Some (group_or_empty html m 1)
  | None => None
  end.

(** [print(o)] seen on the world. *)
Definition said (o : out) (w : World) : World :=
  MkWorld (stdin w) (stdout w ++ [o]) (sent w) (files w) (dirs w) (tagged w).

(** A page that embeds a playlist of two songs. *)
Definition page_playlist : str :=
  dq "<script>window.vmAudioPlayer({'songs':[{'name':'Song1','url':'/s1.mp3','artist':'X'},{'name':'Song2','url':'/s2.mp3','artist':'Y'}]});</script>".

(** A track with these fields. *)
Definition song (name url artist : string) : json :=
  JObj [(u "name", JStr (u name)); (u "url", JStr (u url)); (u "artist", JStr (u artist))].

(** A page whose payload is cut short, and one whose payload is valid JSON
    without a songs key. *)
Definition page_bad_json : str := dq "window.vmAudioPlayer({'songs':[});".
Definition page_no_songs : str := dq "window.vmAudioPlayer({'tracks':[]});".
Definition page_no_block : str := dq "<script>var x = {'songs':[]};</script>".

(** *** Effects seen on the world *)

(** One more request sent. *)
Definition sending (rq : Request) (w : World) : World :=
  MkWorld (stdin w) (stdout w) (sent w ++ [rq]) (files w) (dirs w) (tagged w).

(** The file at [path] replaced by [f] (or created). *)
Definition with_file (path : str) (f : file) (w : World) : World :=
  MkWorld (stdin w) (stdout w) (sent w) (dict_set (files w) path f) (dirs w) (tagged w).

(** The request [get_page] makes for a URL. *)
Definition page_request (url : str) : Request := MkRequest url (Some 10%Z) false.

(** The address [download_mp3] requests for [url], and its request. *)
Definition target_url (url : str) : str :=
  if startswith (u "http") url then url else base_url ++ url.
Definition download_request (url : str) : Request :=
  MkRequest (target_url url) None true.

(** [if chunk:] *)
Definition nonempty (chunk : bytes) : bool :=
  match chunk with [] => false | _ :: _ => true end.

(** Pages answered with statuses outside 2xx, and a body that is not UTF-8. *)
Definition env_not_modified : Env := env_of (fun _ => page 304 (encode_ascii (u "cached"))).
Definition env_not_found : Env := env_of (fun _ => page 404 (encode_ascii (u "missing"))).
Definition env_bad_utf8 : Env := env_of (fun _ => page 200 [xff]).
Definition env_down : Env := env_of (fun _ => Failed (u "connection refused")).

(** *** The selection menu *)

(** The quit token, in either case. *)
Definition is_quit (line : str) : bool :=
  str_eqb line (u "q") || str_eqb line (u "Q").

(** The user has typed up to [rest], and [o] was written meanwhile. *)
Definition reading (rest : list str) (o : list out) (w : World) : World :=
  MkWorld rest (stdout w ++ o) (sent w) (files w) (dirs w) (tagged w).

(** What one pass of the loop writes before it reads: the menu and the
    prompt. *)
Definition shown {V} (options : pydict V) : list out :=
  menu (dict_keys options) ++ [AskSelection].

(** The message a line gets on an empty menu. *)
Definition rejection (E : Env) (line : str) : out :=
  match py_int E line with
  | Some _ => SayRange (-1)
  | None => SayInvalid
  end.

(** *** Downloads *)

(** Whether an answer lets [download_mp3] return True: a status that
    [raise_for_status] accepts and a body read to its end. *)
Definition succeeded (r : Response) : bool :=
  match r with
  | Reply status _ None => negb (raises_for_status status)
  | _ => false
  end.

(** An audio body in three pieces, the second of which is empty. *)
Definition audio_pieces : list bytes :=
  [encode_ascii (u "ID3"); []; encode_ascii (u "audio")].
Definition env_audio : Env := env_of (fun _ => Reply 200 (fun _ => audio_pieces) None).

(** A world in which the destination already holds a longer, tagged file. *)
Definition world_old_file : World :=
  MkWorld [] [] [] [(u "downloads/A/Song1.mp3",
                     MkFile (encode_ascii (u "a much longer earlier recording"))
                            (Some [(u "title", u "Old")]))] [] [].

(** *** Playlists *)

(** The name, url and artist of a track: a JSON object that has the three
    keys, each with a string. *)
Definition track_fields (song : json) : option (str * str * str) :=
  match song with
  | JObj d =>
      match dict_get d (u "name"), dict_get d (u "url"), dict_get d (u "artist") with
      | Some (JStr name), Some (JStr url), Some (JStr artist) => Some (name, url, artist)
      | _, _, _ => None
      end
  | _ => None
  end.

Definition is_track (song : json) : Prop := track_fields song <> None.

(** The songs of a playlist with their positions, counted from [k0]. *)
Definition positions (k0 : nat) (songs : list json) : list (nat * json) :=
  combine (seq k0 (List.length songs)) songs.

(** Whether the download of the track at position [k] succeeds, when the
    request for position [k] is request number [c + k] of the run. *)
Definition download_ok (E : Env) (c : nat) (p : nat * json) : bool :=
  match track_fields (snd p) with
  | Some (_, url, _) => succeeded (net E (c + fst p) (download_request url))
  | None => false
  end.

(** An entry of the log of saved tags is the tagging of the track [song] at
    the 0-based position [k]: it is for the track's file, and holds the
    track's name as title, the album, the track's artist, and [str(k + 1)]
    as track number. *)
Definition tagged_as (folder album : str) (entry : str * tags) (p : nat * json) : Prop :=
  exists name url artist,
    track_fields (snd p) = Some (name, url, artist)
    /\ fst entry = path_join folder (name ++ u ".mp3")
    /\ dict_get (snd entry) (u "title") = Some name
    /\ dict_get (snd entry) (u "album") = Some album
    /\ dict_get (snd entry) (u "artist") = Some artist
    /\ dict_get (snd entry) (u "tracknumber") = Some (str_of_Z (Z.of_nat (fst p) + 1)).

(** A playlist of three tracks, and a network on which the second download
    fails. *)
Definition three_songs : list json :=
  [song "Song1" "/s1.mp3" "X"; song "Song2" "/s2.mp3" "Y"; song "Song3" "/s3.mp3" "Z"].
Definition env_second_fails : Env :=
  env_of (fun n => match n with
                   | 1 => Failed (u "timed out")
                   | _ => Reply 200 (fun _ => audio_pieces) None
                   end).

(** A computation that saves no tags. *)
Definition keeps_tagged {A} (c : M A) : Prop :=
  forall w, tagged (snd (c w)) = tagged w.

(** A site with one chant, one album and the playlist of [page_playlist];
    every later request is answered with audio. *)
Definition env_site : Env :=
  env_of (fun n =>
            match n with
            | 0 => page 200 (encode_ascii (dq "<a href='/c1' class='chants-title' title='Chant1'>"))
            | 1 => page 200 (encode_ascii (dq "<a href='/a1' class='chants-title' title='Album1'>"))
            | 2 => page 200 (encode_ascii page_playlist)
            | _ => Reply 200 (fun _ => audio_pieces) None
            end).

(** A page whose payload holds the three characters that end the pattern
    inside a song's name: the payload itself, and the page around it. *)
Definition payload_with_end_inside : str :=
  dq "{'songs':[{'name':'a});b','url':'/u','artist':'x'}]}".
Definition page_end_inside : str :=
  u "window.vmAudioPlayer(" ++ payload_with_end_inside ++ u ");".

(** A network that refuses an address without a scheme. *)
Definition env_no_scheme : Env := env_of (fun _ => Failed (u "No scheme supplied")).

(** The tags after the four assignments of [add_metadata] to [base]. *)
Definition four_tags (base : tags) (name album artist : str) (index : Z) : tags :=
  dict_set (dict_set (dict_set (dict_set base (u "title") name)
                        (u "album") album) (u "artist") artist)
    (u "tracknumber") (str_of_Z index).

(** *** Menus and pages, for the properties of whole runs *)

(** The mapping [get_options] builds from a page: every anchor assigns its
    link to its title, in document order. *)
Definition options_of (html : str) : pydict str :=
  dict_of_pairs (map (fun m => (anchor_title html m, anchor_href html m)) (anchors html)).

(** The link of the last anchor of the page that has the title [title]. *)
Definition href_of (html : str) (title : str) : option str :=
  option_map (anchor_href html)
    (find (fun m => str_eqb (anchor_title html m) title) (rev (anchors html))).

(** The text [get_page] returns when the request for [url] is request number
    [n] of the run; [None] when it raises. *)
Definition served (E : Env) (n : nat) (url : str) : option str :=
  match net E n (page_request url) with
  | Reply status pieces None =>
      if raises_for_status status then None
      else utf8_decode (concat (pieces CONTENT_CHUNK_SIZE))
  | _ => None
  end.

(** The entry a line selects in a menu of [count] entries: the line is read
    by [int] and the number is within range. *)
Definition picks (E : Env) (count : nat) (line : str) : option nat :=
  match py_int E line with
  | Some i =>
      if ((0 <=? i) && (i <? Z.of_nat count))%Z then Some (Z.to_nat i) else None
  | None => None
  end.

(** The message for a line that selects nothing. *)
Definition complaint (E : Env) (count : nat) (line : str) : out :=
  match py_int E line with
  | Some _ => SayRange (Z.of_nat count - 1)
  | None => SayInvalid
  end.

(** A line that neither quits nor selects an entry. *)
Definition undecided (E : Env) (count : nat) (line : str) : bool :=
  negb (is_quit line)
  && match picks E count line with Some _ => false | None => true end.

(** What the loop of [list_and_select] writes while it reads the undecided
    lines [pre] and then one more line. *)
Definition passes {V} (E : Env) (options : pydict V) (pre : list str) : list out :=
  flat_map (fun l => shown options ++ [complaint E (List.length options) l]) pre
  ++ shown options.

(** The tags [add_metadata] starts from: those saved into the file last, or
    else those the tag library reads in its bytes; [None] when it cannot
    read the file. *)
Definition existing_tags (E : Env) (f : file) : option tags :=
  match f_saved f with
  | Some t => Some t
  | None =>
      match mutagen_read E (f_body f) with
      | Tagged t => Some t
      | Untagged => Some []
      | Unreadable => None
      end
  end.

(** The four keys [add_metadata] assigns. *)
Definition assigned_key (k : str) : bool :=
  str_eqb k (u "title") || str_eqb k (u "album") || str_eqb k (u "artist")
  || str_eqb k (u "tracknumber").

(** A world that differs from [w] only in what was printed. *)
Definition printed (o : list out) (w : World) : World :=
  MkWorld (stdin w) (stdout w ++ o) (sent w) (files w) (dirs w) (tagged w).

(** The world after [os.makedirs(folder)] succeeded. *)
Definition with_dir (folder : str) (w : World) : World :=
  MkWorld (stdin w) (stdout w) (sent w) (files w) (dirs w ++ [folder]) (tagged w).

(** A network on which the body of every answer breaks off after the pieces
    of [audio_pieces]. *)
Definition env_cut : Env :=
  env_of (fun _ => Reply 200 (fun _ => audio_pieces) (Some (u "connection reset"))).

(** An environment in which downloaded audio already carries a genre tag. *)
Definition env_genre : Env :=
  MkEnv (fun _ _ => Reply 200 (fun _ => audio_pieces) None) (fun _ => true) (fun _ => true)
        (fun _ => Tagged [(u "genre", u "Chant"); (u "title", u "untitled")])
        (fun _ => None) 4300.

(** A track without an artist. *)
Definition song_no_artist : json :=
  JObj [(u "name", JStr (u "Song1")); (u "url", JStr (u "/s1.mp3"))].

(** *** A run of [main] through its two menus *)

(** Request number [n] of the run, for [url], brings the page [html], which
    holds at least one anchor of the option pattern. *)
Definition menu_page (E : Env) (n : nat) (url html : str) : Prop :=
  served E n url = Some html /\ anchors html <> [].

(** On the menu of the page [html], the line [line] selects the entry with
    the label [key] and the link [value]. *)
Definition selects (E : Env) (html line key value : str) : Prop :=
  is_quit line = false
  /\ exists i, picks E (List.length (options_of html)) line = Some i
               /\ nth_error (options_of html) i = Some (key, value).

(** What [get_playlist] returns for a page and what it prints: the value
    under the songs key of the payload, or an empty list and a diagnostic
    when the page has no payload or the payload is not JSON.  [None] stands
    for the pages on which it raises. *)
Definition extraction (html : str) : option (json * list out) :=
  match payload html with
  | None => Some (JArr [], [SayBlockNotFound])
  | Some block =>
      match json_loads block with
      | Parsed (JObj d) =>
          match dict_get d (u "songs") with
          | Some songs => Some (songs, [])
          | None => None
          end
      | Parsed _ => None
      | JSONDecodeError => Some (JArr [], [SayJsonError])
      | TooDeep => None
      end
  end.

(** The world when [main] has gone through its two menus, fetched the album
    page and read the answer to its question: three page requests sent, the
    screen cleared three times around the two menus, and three lines read. *)
Definition after_menus (w : World) (html0 html1 href0 href1 : str) (diag : list out)
    (rest : list str) : World :=
  MkWorld rest
    (stdout w ++ [ClearScreen] ++ shown (options_of html0) ++ [ClearScreen]
     ++ shown (options_of html1) ++ [ClearScreen] ++ diag ++ [AskDownloadAll])
    (sent w ++ [page_request chants_url; page_request (base_url ++ href0);
                page_request (base_url ++ href1)])
    (files w) (dirs w) (tagged w).

(** The answer that chooses the whole playlist. *)
Definition is_yes (line : str) : bool :=
  str_eqb line (u "y") || str_eqb line (u "Y").

(** A site whose album page has no playlist block. *)
Definition env_no_block : Env :=
  env_of (fun n =>
            match n with
            | 0 => page 200 (encode_ascii (dq "<a href='/c1' class='chants-title' title='Chant1'>"))
            | 1 => page 200 (encode_ascii (dq "<a href='/a1' class='chants-title' title='Album1'>"))
            | _ => page 200 (encode_ascii page_no_block)
            end).

(** The world [w1] differs from [w] in nothing that lasts: the same files,
    folders and saved tags, and the requests made since were not for audio
    (none of them streams its answer). *)
Definition untouched (w w1 : World) : Prop :=
  files w1 = files w /\ dirs w1 = dirs w /\ tagged w1 = tagged w
  /\ exists new, sent w1 = sent w ++ new
                 /\ Forall (fun rq => rq_stream rq = false) new.

(** The two menu pages of [env_site] and of [env_no_block]. *)
Definition page_chant : str := dq "<a href='/c1' class='chants-title' title='Chant1'>".
Definition page_album : str := dq "<a href='/a1' class='chants-title' title='Album1'>".

(** *** What a match of a pattern establishes *)

(** [accepted dotall p s st st' s']: the pattern [p] can be matched at the
    head of [s] leaving [s'], the state going from [st] to [st']: each item
    takes the characters it stands for, a repetition at least its minimum,
    and the groups record their spans. *)
Fixpoint accepted (dotall : bool) (p : regex) (s : str) (st st' : mstate) (s' : str)
  : Prop :=
  match p with
  | [] => st' = st /\ s' = s
  | One k :: p' =>
      match s with
      | c :: s1 =>
          cls_match dotall k c = true
          /\ accepted dotall p' s1 (MState (S (m_pos st)) (m_open st) (m_caps st)) st' s'
      | [] => False
      end
  | Rep k min _ :: p' =>
      exists n,
        min <= n /\ n <= List.length s
        /\ forallb (cls_match dotall k) (firstn n s) = true
        /\ accepted dotall p' (skipn n s)
             (MState (m_pos st + n) (m_open st) (m_caps st)) st' s'
  | Open g :: p' =>
      accepted dotall p' s
        (MState (m_pos st) ((g, m_pos st) :: m_open st) (m_caps st)) st' s'
  | Close g :: p' =>
      match assoc_nat (m_open st) g with
      | Some a =>
          accepted dotall p' s
            (MState (m_pos st) (m_open st) ((g, (a, m_pos st)) :: m_caps st)) st' s'
      | None => False
      end
  end.

(** A pattern without groups. *)
Definition no_groups (p : regex) : bool :=
  forallb (fun i => match i with Open _ | Close _ => false | _ => true end) p.

(** The pieces of the option pattern around its two groups, and the body of
    each group: one or more characters other than the double quote. *)
Definition chant_head : regex :=
  lit "<a" ++ [Rep CSpace 1 true] ++ lit "href=" ++ [One (CChar dquote)].
Definition chant_middle : regex :=
  [One (CChar dquote)] ++ [Rep (CNot (u ">")) 0 true] ++ [Rep CSpace 1 true]
  ++ lit "class=" ++ [One (CChar dquote)] ++ lit "chants-title"
  ++ [Rep (CNot [dquote]) 0 true] ++ [One (CChar dquote)]
  ++ [Rep CSpace 1 true] ++ lit "title=" ++ [One (CChar dquote)].
Definition chant_tail : regex := [One (CChar dquote)] ++ lit ">".
Definition unquoted : regex := [Rep (CNot [dquote]) 1 true].

(** The pieces of the playlist pattern: the call, and the braces with any
    text between them. *)
Definition playlist_head : regex := lit "window.vmAudioPlayer(".
Definition braces : regex := lit "{" ++ [Rep CDot 0 false] ++ lit "}".
Definition playlist_tail : regex := lit ");".

(** A text that is not empty and holds no double quote. *)
Definition plain (s : str) : Prop := s <> [] /\ ~ In dquote s.

(** *** The menu of the single-track branch *)

(** The name and the URL of a track; empty for what is not a track. *)
Definition track_name (song : json) : str :=
  match track_fields song with Some (name, _, _) => name | None => [] end.
Definition track_url (song : json) : str :=
  match track_fields song with Some (_, url, _) => url | None => [] end.

(** [{song['name']: song['url'] for song in playlist}] on a list of tracks. *)
Definition song_menu (songs : list json) : pydict json :=
  dict_of_pairs (map (fun song => (track_name song, JStr (track_url song))) songs).

(** The last track of the list that has the name [name]. *)
Definition last_named (songs : list json) (name : str) : option json :=
  find (fun song => str_eqb (track_name song) name) (rev songs).

(** Two tracks named Song1, and a network that answers with audio. *)
Definition twins : list json := [song "Song1" "/a.mp3" "X"; song "Song1" "/b.mp3" "Y"].

(** *** Elements of a playlist that are not tracks *)

(** The exception the loop of [download_playlist] raises on an element
    before it requests anything: the element is not an object (a TypeError),
    or lacks the name or the URL. *)
Definition malformed (song : json) : option exn :=
  match song with
  | JObj d =>
      match dict_get d (u "name") with
      | None => Some (KeyError (u "name"))
      | Some _ =>
          match dict_get d (u "url") with
          | None => Some (KeyError (u "url"))
          | Some _ => None
          end
      end
  | _ => Some (TypeError NotSubscriptable)
  end.

(** A playlist whose second element has no URL. *)
Definition songs_second_malformed : list json :=
  [song "Song1" "/s1.mp3" "X"; JObj [(u "name", JStr (u "Song2"))];
   song "Song3" "/s3.mp3" "Z"].

(** *** UTF-8 *)

(** The byte of a number below 256. *)
Definition byte_of (n : N) : byte :=
  match Byte.of_N n with Some b => b | None => x00 end.

(** The UTF-8 encoding of a code point: one byte below U+0080, two below
    U+0800, three below U+10000, four from there on; the first byte carries
    the length and the high bits, each following byte six more bits. *)
Definition utf8_encode_char (c : char) : bytes :=
  let q1 := (c / 64)%N in
  let q2 := (q1 / 64)%N in
  let q3 := (q2 / 64)%N in
  if (c <? 128)%N then [byte_of c]
  else if (c <? 2048)%N then [byte_of (192 + q1); byte_of (128 + c mod 64)]
  else if (c <? 65536)%N then
    [byte_of (224 + q2); byte_of (128 + q1 mod 64); byte_of (128 + c mod 64)]
  else
    [byte_of (240 + q3); byte_of (128 + q2 mod 64); byte_of (128 + q1 mod 64);
     byte_of (128 + c mod 64)].

(** [s.encode("utf-8")] *)
Definition utf8_encode (s : str) : bytes := flat_map utf8_encode_char s.

(** A Unicode scalar value: a code point up to U+10FFFF that is not a
    surrogate.  These are the characters a text can be encoded from. *)
Definition scalar (c : char) : bool :=
  ((c <? 55296) || ((57343 <? c) && (c <=? 1114111)))%N.

(** A page title in Cyrillic, with a character outside the basic plane. *)
Definition cyrillic_sample : str := [1042; 1072; 1083; 1072; 1072; 1084; 32; 119070]%N.

(** *** What the bulk download touches *)

(** A request for audio: streamed, without a timeout. *)
Definition audio_request (rq : Request) : bool :=
  rq_stream rq && match rq_timeout rq with None => true | Some _ => false end.

(** A line that reports a failed download. *)
Definition download_error (o : out) : bool :=
  match o with SayDownloadError _ _ => true | _ => false end.

(** The world [w1] comes from [w] by audio requests, diagnostics of failed
    downloads, and changes of files and of saved tags: no line was read, no
    folder made, and nothing else printed. *)
Definition bulk_step (w w1 : World) : Prop :=
  stdin w1 = stdin w /\ dirs w1 = dirs w
  /\ (exists new, sent w1 = sent w ++ new /\ forallb audio_request new = true)
  /\ (exists said, stdout w1 = stdout w ++ said /\ forallb download_error said = true).

(** A track whose name is an absolute path. *)
Definition song_absolute : json := song "/tmp/x" "/s1.mp3" "X".

(** *** Pages that hold what the patterns look for *)

(** An anchor written the plain way: the link, the class and the title, in
    this order, each between double quotes and one space apart. *)
Definition anchor_text (href title : str) : str :=
  u "<a href=" ++ dquote :: href ++ dquote :: u " class=" ++ dquote :: u "chants-title"
  ++ dquote :: u " title=" ++ dquote :: title ++ dquote :: u ">".

(** The call of the player on a text between braces. *)
Definition player_call (middle : str) : str :=
  u "window.vmAudioPlayer(" ++ 123%N :: middle ++ u "});".


(* ================================================================== *)
(** ** Text and dicts *)

Lemma str_eqb_eq (a b : str) : str_eqb a b = true <-> a = b.
Proof.
  revert b; induction a as [|x a IH]; intros [|y b]; simpl; split; try easy.
  - intros H; apply andb_prop in H as [Hx Hab].
    apply N.eqb_eq in Hx; apply IH in Hab; congruence.
  - intros H; injection H as -> ->.
    rewrite N.eqb_refl; simpl; now apply IH.
Qed.

Lemma str_eqb_refl (a : str) : str_eqb a a = true.
Proof. now apply str_eqb_eq. Qed.

Lemma str_eqb_neq (a b : str) : str_eqb a b = false <-> a <> b.
Proof.
  split.
  - intros H Heq; apply str_eqb_eq in Heq; congruence.
  - intros H; destruct (str_eqb a b) eqn:Hab; [|reflexivity].
    now apply str_eqb_eq in Hab.
Qed.

Lemma dict_set_not_nil {V} (d : pydict V) k v : dict_set d k v <> [].
Proof. destruct d as [|[k' v'] d]; simpl; [|destruct (str_eqb k' k)]; discriminate. Qed.

Lemma dict_of_pairs_not_nil {V} (p : str * V) (l : list (str * V)) :
  dict_of_pairs (p :: l) <> [].
Proof.
  unfold dict_of_pairs; simpl.
  assert (H : forall (l : list (str * V)) d, d <> [] ->
            fold_left (fun d kv => dict_set d (fst kv) (snd kv)) l d <> []).
  { clear; induction l as [|q l IH]; simpl; intros d Hd; [exact Hd|].
    apply IH, dict_set_not_nil. }
  apply H; discriminate.
Qed.

(** Keys of a dict after an assignment. *)
Lemma dict_keys_set {V} (d : pydict V) k v :
  dict_keys (dict_set d k v)
  = if existsb (str_eqb k) (dict_keys d) then dict_keys d else dict_keys d ++ [k].
Proof.
  unfold dict_keys.
  induction d as [|[k' v'] d IH]; simpl; [reflexivity|].
  destruct (str_eqb k' k) eqn:Hk.
  - apply str_eqb_eq in Hk; subst k'. now rewrite str_eqb_refl.
  - simpl. rewrite IH.
    assert (Hk' : str_eqb k k' = false).
    { apply str_eqb_neq; apply str_eqb_neq in Hk; congruence. }
    rewrite Hk'; simpl.
    now destruct (existsb (str_eqb k) (map fst d)).
Qed.

Lemma existsb_str_In (k : str) (l : list str) :
  existsb (str_eqb k) l = true <-> In k l.
Proof.
  rewrite existsb_exists; split.
  - intros (x & Hx & He); apply str_eqb_eq in He; now subst.
  - intros H; exists k; split; [exact H|apply str_eqb_refl].
Qed.

Lemma filter_first_occurrences_acc (acc l : list str) (x : str) :
  filter (fun y => negb (existsb (str_eqb y) (acc ++ [x]))) l
  = filter (fun y => negb (existsb (str_eqb y) acc))
      (filter (fun y => negb (str_eqb y x)) l).
Proof.
  induction l as [|y l IH]; simpl; [reflexivity|].
  rewrite existsb_app; simpl; rewrite orb_false_r.
  destruct (str_eqb y x) eqn:Hyx; simpl.
  - rewrite orb_true_r; simpl; exact IH.
  - rewrite orb_false_r.
    destruct (existsb (str_eqb y) acc); simpl; [exact IH|now rewrite IH].
Qed.

Lemma filter_absorb (acc l : list str) (x : str) :
  In x acc ->
  filter (fun y => negb (existsb (str_eqb y) acc))
    (filter (fun y => negb (str_eqb y x)) l)
  = filter (fun y => negb (existsb (str_eqb y) acc)) l.
Proof.
  intros Hx; induction l as [|y l IH]; simpl; [reflexivity|].
  destruct (str_eqb y x) eqn:Hyx; simpl.
  - apply str_eqb_eq in Hyx; subst y.
    apply existsb_str_In in Hx; rewrite Hx; simpl; exact IH.
  - destruct (existsb (str_eqb y) acc); simpl; [exact IH|now rewrite IH].
Qed.

(** The keys of a dict built by successive assignments: the keys it had,
    then the new ones where they first occur. *)
Lemma dict_keys_fold {V} (l : list (str * V)) (d : pydict V) :
  dict_keys (fold_left (fun d kv => dict_set d (fst kv) (snd kv)) l d)
  = dict_keys d
    ++ filter (fun y => negb (existsb (str_eqb y) (dict_keys d)))
         (first_occurrences (map fst l)).
Proof.
  revert d; induction l as [|[k v] l IH]; intros d; simpl.
  - now rewrite app_nil_r.
  - rewrite IH, dict_keys_set.
    destruct (existsb (str_eqb k) (dict_keys d)) eqn:Hk; simpl.
    + f_equal. apply existsb_str_In in Hk. now rewrite filter_absorb.
    + rewrite <- app_assoc; simpl. f_equal. f_equal.
      apply filter_first_occurrences_acc.
Qed.

Lemma dict_keys_of_pairs {V} (l : list (str * V)) :
  dict_keys (dict_of_pairs l) = first_occurrences (map fst l).
Proof.
  unfold dict_of_pairs; rewrite dict_keys_fold; simpl.
  induction (first_occurrences (map fst l)) as [|x r IH]; simpl; congruence.
Qed.

Lemma filter_neq_notin (x : str) (l : list str) :
  ~ In x l -> filter (fun y => negb (str_eqb y x)) l = l.
Proof.
  induction l as [|y l IH]; simpl; intros Hx; [reflexivity|].
  destruct (str_eqb y x) eqn:Hyx; simpl.
  - apply str_eqb_eq in Hyx; subst; exfalso; apply Hx; now left.
  - f_equal; apply IH; intros H; apply Hx; now right.
Qed.

Lemma first_occurrences_NoDup (l : list str) :
  NoDup l -> first_occurrences l = l.
Proof.
  induction 1 as [|x l Hx Hl IH]; simpl; [reflexivity|].
  now rewrite IH, filter_neq_notin.
Qed.

(* ================================================================== *)
(** ** [get_options] *)

Lemma findall_chant_pattern (html : str) :
  re_findall false chant_pattern html
  = map (fun m => FTuple [anchor_href html m; anchor_title html m]) (anchors html).
Proof. unfold re_findall, anchors; apply map_ext; intros m; reflexivity. Qed.

Lemma unpack_all_tuples (E : Env) {A} (f g : A -> str) (l : list A) (w : World) :
  unpack_all (map (fun m => FTuple [f m; g m]) l) w
  = (Ret (map (fun m => (f m, g m)) l), w).
Proof.
  induction l as [|m l IH]; simpl; [reflexivity|].
  unfold bind, ret in *; simpl. now rewrite IH.
Qed.

Lemma unpack_all_length (l : list fitem) (w w' : World) (ps : list (str * str)) :
  unpack_all l w = (Ret ps, w') -> List.length ps = List.length l.
Proof.
  revert ps w w'; induction l as [|i l IH]; simpl; intros ps w w'.
  - unfold ret; intros H; injection H as <- _; reflexivity.
  - unfold bind. destruct (unpack2 i w) as [[p| | |] w1]; try discriminate.
    destruct (unpack_all l w1) as [[qs| | |] w2] eqn:Hl; try discriminate.
    unfold ret; intros H; injection H as <- _; simpl; f_equal.
    eapply IH; exact Hl.
Qed.

(** C2, amended.  When the page was fetched and holds at least one anchor of
    the option pattern, [get_options] returns a mapping whose keys are the
    captured titles, each once, in the order in which they first occur; its
    size is the number of different titles.  When no title is repeated, its
    size is the number of matches and its keys are exactly the captured
    titles in document order. *)
Theorem get_options_keys (E : Env) (url : str) (w w1 : World) (html : str) :
  get_page E url w = (Ret html, w1) ->
  anchors html <> [] ->
  exists d,
    get_options E url chant_pattern w = (Ret d, w1)
    /\ dict_keys d = first_occurrences (titles html)
    /\ List.length d = List.length (first_occurrences (titles html))
    /\ (NoDup (titles html) ->
        List.length d = List.length (anchors html) /\ dict_keys d = titles html).
Proof.
  intros Hpage Hne.
  exists (dict_of_pairs (map (fun m => (anchor_title html m, anchor_href html m))
                             (anchors html))).
  assert (Hkeys : dict_keys (dict_of_pairs
             (map (fun m => (anchor_title html m, anchor_href html m)) (anchors html)))
           = first_occurrences (titles html)).
  { rewrite dict_keys_of_pairs, map_map; reflexivity. }
  split; [|split; [exact Hkeys|split]].
  - unfold get_options, bind. rewrite Hpage. cbv beta iota.
    rewrite findall_chant_pattern.
    destruct (anchors html) as [|m l]; [contradiction|].
    set (f := fun m => FTuple [anchor_href html m; anchor_title html m]).
    change (map f (m :: l)) with (f m :: map f l) at 1. cbv iota.
    unfold f. rewrite (unpack_all_tuples E). unfold ret. now rewrite map_map.
  - rewrite <- Hkeys. unfold dict_keys. now rewrite length_map.
  - intros Hnd. rewrite first_occurrences_NoDup in Hkeys by exact Hnd.
    split; [|exact Hkeys].
    rewrite <- (length_map fst), <- (length_map (anchor_title html)).
    exact (f_equal (@List.length _) Hkeys).
Qed.

(** The amended C2 at a page with two different titles. *)
Lemma get_options_keys_witness :
  exists d w1,
    get_options (serving page_two_chants) chants_url chant_pattern (world_of [])
    = (Ret d, w1)
    /\ List.length d = 2
    /\ dict_keys d = [u "Chant1"; u "Chant2"].
Proof.
  destruct (@get_options_keys (serving page_two_chants) chants_url (world_of [])
              (MkWorld [] [] [MkRequest chants_url (Some 10%Z) false] [] [] [])
              page_two_chants)
    as (d & Hd & Hkeys & Hlen & Hnodup).
  - vm_compute; reflexivity.
  - vm_compute; discriminate.
  - exists d; eexists; split; [exact Hd|].
    assert (Ht : titles page_two_chants = [u "Chant1"; u "Chant2"])
      by (vm_compute; reflexivity).
    rewrite Ht in Hnodup.
    destruct Hnodup as [Hl Hk].
    + repeat constructor; simpl; intuition discriminate.
    + split; [rewrite Hl; vm_compute; reflexivity|exact Hk].
Defined.

(** C2 as stated fails: a page with two anchors of the same title has two
    matches, and [get_options] returns a mapping of size one (the second
    link replaces the first). *)
Lemma get_options_same_title_counterexample :
  List.length (anchors page_same_title) = 2
  /\ titles page_same_title = [u "T"; u "T"]
  /\ get_options (serving page_same_title) chants_url chant_pattern (world_of [])
     = (Ret [(u "T", u "/b")],
        MkWorld [] [] [MkRequest chants_url (Some 10%Z) false] [] [] []).
Proof. vm_compute; repeat split. Qed.

(** C4.  A page with no match of the pattern makes [get_options] raise
    RuntimeError('No results.'); and whatever the page, [get_options] never
    returns an empty mapping. *)
Theorem get_options_zero_matches (E : Env) (url : str) (pattern : regex) (w : World) :
  (forall html w1,
      get_page E url w = (Ret html, w1) ->
      re_findall false pattern html = [] ->
      get_options E url pattern w = (Raise (RuntimeError NoResults), w1))
  /\ (forall d w', get_options E url pattern w = (Ret d, w') -> d <> []).
Proof.
  split.
  - intros html w1 Hpage Hnone.
    unfold get_options, bind. now rewrite Hpage, Hnone.
  - intros d w'. unfold get_options, bind.
    destruct (get_page E url w) as [[html| | |] w1]; try discriminate.
    destruct (re_findall false pattern html) as [|i l] eqn:Hm; [discriminate|].
    destruct (unpack_all (i :: l) w1) as [[ps| | |] w2] eqn:Hu; try discriminate.
    unfold ret; intros H; injection H as <- _.
    apply unpack_all_length in Hu.
    destruct ps as [|p ps]; [discriminate|].
    apply dict_of_pairs_not_nil.
Qed.

(** C4 at a page without anchors. *)
Lemma get_options_zero_matches_witness :
  get_options (serving page_no_anchor) chants_url chant_pattern (world_of [])
  = (Raise (RuntimeError NoResults),
     MkWorld [] [] [MkRequest chants_url (Some 10%Z) false] [] [] []).
Proof.
  apply (proj1 (get_options_zero_matches (serving page_no_anchor) chants_url
                  chant_pattern (world_of [])) page_no_anchor).
  - vm_compute; reflexivity.
  - vm_compute; reflexivity.
Defined.

(* ================================================================== *)
(** ** The matcher: groups of a successful match *)

Lemma rep_greedy_cont {R} dotall k min s pos (cont : str -> nat -> option R) r :
  rep_greedy dotall k min s pos cont = Some r ->
  exists s' pos', cont s' pos' = Some r.
Proof.
  revert min pos; induction s as [|c s IH]; intros min pos; simpl.
  - destruct min; [eauto|discriminate].
  - destruct (cls_match dotall k c).
    + destruct (rep_greedy dotall k (Nat.pred min) s (S pos) cont) eqn:Hr.
      * intros H; injection H as <-; eapply IH; exact Hr.
      * destruct min; [eauto|discriminate].
    + destruct min; [eauto|discriminate].
Qed.

Lemma rep_lazy_cont {R} dotall k min s pos (cont : str -> nat -> option R) r :
  rep_lazy dotall k min s pos cont = Some r ->
  exists s' pos', cont s' pos' = Some r.
Proof.
  revert min pos; induction s as [|c s IH]; intros min pos; simpl.
  - destruct min; [|discriminate].
    destruct (cont [] pos) eqn:Hc; [|discriminate].
    intros H; injection H as <-; eauto.
  - destruct min.
    + destruct (cont (c :: s) pos) eqn:Hc.
      * intros H; injection H as <-; eauto.
      * destruct (cls_match dotall k c); [apply IH|discriminate].
    + destruct (cls_match dotall k c); [apply IH|discriminate].
Qed.

(** A group that is closed stays closed to the end of the match. *)
Lemma match_here_keeps dotall ma start p s st st' g :
  match_here dotall ma start p s st = Some st' ->
  assoc_nat (m_caps st) g <> None ->
  assoc_nat (m_caps st') g <> None.
Proof.
  revert s st; induction p as [|i p IH]; intros s st; simpl.
  - destruct (ma && Nat.eqb (m_pos st) start); [discriminate|].
    intros H; injection H as <-; trivial.
  - destruct i as [k|k min greedy|g'|g'].
    + destruct s as [|c s]; [discriminate|].
      destruct (cls_match dotall k c); [|discriminate].
      intros H Hg; eapply IH; [exact H|exact Hg].
    + intros H Hg.
      assert (Hc : exists s' pos',
                 match_here dotall ma start p s' (MState pos' (m_open st) (m_caps st))
                 = Some st').
      { destruct greedy; [eapply rep_greedy_cont|eapply rep_lazy_cont]; exact H. }
      destruct Hc as (s' & pos' & Hc). eapply IH; [exact Hc|exact Hg].
    + intros H Hg; eapply IH; [exact H|exact Hg].
    + destruct (assoc_nat (m_open st) g'); [|discriminate].
      intros H Hg; eapply IH; [exact H|].
      simpl. destruct (Nat.eqb g' g); [discriminate|exact Hg].
Qed.

(** Every group the pattern closes has a span when the match succeeds. *)
Lemma match_here_closes dotall ma start p s st st' g :
  match_here dotall ma start p s st = Some st' ->
  In (Close g) p ->
  assoc_nat (m_caps st') g <> None.
Proof.
  revert s st; induction p as [|i p IH]; intros s st; simpl; [tauto|].
  destruct i as [k|k min greedy|g'|g'].
  - destruct s as [|c s]; [discriminate|].
    destruct (cls_match dotall k c); [|discriminate].
    intros H [Hi|Hi]; [discriminate|]. eapply IH; eauto.
  - intros H [Hi|Hi]; [discriminate|].
    assert (Hc : exists s' pos',
               match_here dotall ma start p s' (MState pos' (m_open st) (m_caps st))
               = Some st').
    { destruct greedy; [eapply rep_greedy_cont|eapply rep_lazy_cont]; exact H. }
    destruct Hc as (s' & pos' & Hc). eapply IH; eauto.
  - intros H [Hi|Hi]; [discriminate|]. eapply IH; eauto.
  - destruct (assoc_nat (m_open st) g') eqn:Ho; [|discriminate].
    intros H [Hi|Hi].
    + injection Hi as ->.
      eapply match_here_keeps; [exact H|]. simpl. now rewrite Nat.eqb_refl.
    + eapply IH; eauto.
Qed.

Lemma search_from_closes dotall p s pos m g :
  search_from dotall p s pos = Some m ->
  In (Close g) p ->
  assoc_nat (r_caps m) g <> None.
Proof.
  revert pos; induction s as [|c s IH]; intros pos; simpl; unfold attempt.
  - destruct (match_here dotall false pos p [] (MState pos [] [])) eqn:Hm; [|discriminate].
    intros H Hin; injection H as <-; simpl. eapply match_here_closes; eauto.
  - destruct (match_here dotall false pos p (c :: s) (MState pos [] [])) eqn:Hm.
    + intros H Hin; injection H as <-; simpl. eapply match_here_closes; eauto.
    + apply IH.
Qed.

(** A match of the playlist pattern always has its group 1. *)
Lemma playlist_group (html : str) (m : rmatch) :
  re_search true playlist_pattern html = Some m ->
  group html m 1 = Some (group_or_empty html m 1).
Proof.
  intros H. apply search_from_closes with (g := 1) in H.
  - unfold group_or_empty, group in *.
    destruct (assoc_nat (r_caps m) 1) as [[a b]|]; [reflexivity|contradiction].
  - vm_compute. repeat (first [left; reflexivity | right]).
Qed.

(* ================================================================== *)
(** ** [get_playlist] *)

Lemma get_playlist_unfold (E : Env) (url : str) (w w1 : World) (html : str) :
  get_page E url w = (Ret html, w1) ->
  get_playlist E url playlist_pattern w
  = match payload html with
    | Some block =>
        match json_loads block with
        | Parsed data => getitem data (u "songs") w1
        | JSONDecodeError => (Ret (JArr []), said SayJsonError w1)
        | TooDeep => (Unmodelled, w1)
        end
    | None => (Ret (JArr []), said SayBlockNotFound w1)
    end.
Proof.
  intros Hpage. unfold get_playlist, payload, bind. rewrite Hpage. cbv beta iota.
  destruct (re_search true playlist_pattern html) as [m|] eqn:Hm; [|reflexivity].
  rewrite (playlist_group _ Hm).
  destruct (json_loads (group_or_empty html m 1)); try reflexivity.
  destruct (getitem v (u "songs") w1) as [[x| | |] w2]; reflexivity.
Qed.




(** C9.  When the matched payload parses to an object without a songs key,
    [get_playlist] raises KeyError('songs'): nothing is printed and no list
    is returned.  (Only the decoder's own error is caught.) *)
Theorem get_playlist_missing_songs (E : Env) (url : str) (w w1 : World)
    (html block : str) (d : pydict json) :
  get_page E url w = (Ret html, w1) ->
  payload html = Some block ->
  json_loads block = Parsed (JObj d) ->
  dict_get d (u "songs") = None ->
  get_playlist E url playlist_pattern w = (Raise (KeyError (u "songs")), w1).
Proof.
  intros Hpage Hb Hj Hs. rewrite (get_playlist_unfold _ _ _ Hpage), Hb, Hj.
  simpl. now rewrite Hs.
Qed.

(** C9 at a page whose payload is an object with a tracks key only. *)
Lemma get_playlist_missing_songs_witness :
  get_playlist (serving page_no_songs) chants_url playlist_pattern (world_of [])
  = (Raise (KeyError (u "songs")),
     MkWorld [] [] [MkRequest chants_url (Some 10%Z) false] [] [] []).
Proof.
  eapply (@get_playlist_missing_songs (serving page_no_songs) chants_url
            (world_of []) _ page_no_songs).
  - vm_compute; reflexivity.
  - vm_compute; reflexivity.
  - vm_compute; reflexivity.
  - vm_compute; reflexivity.
Defined.

(* ================================================================== *)
(** ** [get_page] *)

(** ASCII text is its own UTF-8 encoding: decoding gives it back. *)
Lemma utf8_decode_ascii (s : str) :
  forallb (fun c => (c <? 128)%N) s = true ->
  utf8_decode (encode_ascii s) = Some s.
Proof.
  induction s as [|c s IH]; [reflexivity|].
  simpl forallb. intros H; apply andb_prop in H as [Hc Hs].
  assert (Hb : exists b, Byte.of_N c = Some b /\ Byte.to_N b = c).
  { pose proof (Byte.to_of_N_option_map c) as Ho.
    apply N.ltb_lt in Hc.
    destruct (N.leb_spec c 255); [|lia].
    destruct (Byte.of_N c) as [b|]; [|discriminate].
    exists b; split; [reflexivity|]. now injection Ho. }
  destruct Hb as (b & Hof & Hto).
  unfold encode_ascii in *. cbn [map]. rewrite Hof.
  cbn [utf8_decode]. rewrite Hto, Hc, (IH Hs). reflexivity.
Qed.

Lemma get_page_run (E : Env) (url : str) (w : World) :
  get_page E url w
  = match net E (List.length (sent w)) (page_request url) with
    | Failed e | Reply _ _ (Some e) =>
        (Raise (RuntimeError (FailedToRetrieve (Transport e))),
         sending (page_request url) w)
    | Reply status pieces None =>
        if raises_for_status status then
          (Raise (RuntimeError (FailedToRetrieve (HTTPError status))),
           sending (page_request url) w)
        else
          match utf8_decode (concat (pieces CONTENT_CHUNK_SIZE)) with
          | Some text => (Ret text, sending (page_request url) w)
          | None => (Raise UnicodeDecodeError, sending (page_request url) w)
          end
    end.
Proof.
  unfold get_page, bind, requests_get, page_request, sending; simpl.
  destruct (net E (List.length (sent w)) (MkRequest url (Some 10%Z) false))
    as [e|status pieces [e|]]; try reflexivity.
  destruct (raises_for_status status); [reflexivity|].
  destruct (utf8_decode (concat (pieces CONTENT_CHUNK_SIZE))); reflexivity.
Qed.

(** C8, amended.  [get_page] makes one request, a GET of the URL with
    timeout 10 and without streaming.  It raises RuntimeError carrying the
    cause when the request fails in transport or the status is one that
    [raise_for_status] refuses, 400 to 599.  For every other status it
    returns the body decoded as UTF-8 when the body is valid UTF-8 (an ASCII
    body comes back character for character), and raises
    UnicodeDecodeError when it is not; nothing partial is returned. *)
Theorem get_page_spec (E : Env) (url : str) (w : World) :
  let rq := MkRequest url (Some 10%Z) false in
  let answer := net E (List.length (sent w)) rq in
  snd (get_page E url w) = sending rq w
  /\ (forall e,
      (answer = Failed e \/ exists status pieces, answer = Reply status pieces (Some e)) ->
      fst (get_page E url w) = Raise (RuntimeError (FailedToRetrieve (Transport e))))
  /\ (forall status pieces,
      answer = Reply status pieces None ->
      (400 <= status < 600)%Z ->
      fst (get_page E url w) = Raise (RuntimeError (FailedToRetrieve (HTTPError status))))
  /\ (forall status pieces,
      answer = Reply status pieces None ->
      ~ (400 <= status < 600)%Z ->
      fst (get_page E url w)
      = match utf8_decode (concat (pieces CONTENT_CHUNK_SIZE)) with
        | Some text => Ret text
        | None => Raise UnicodeDecodeError
        end)
  /\ (forall status pieces text,
      answer = Reply status pieces None ->
      ~ (400 <= status < 600)%Z ->
      forallb (fun c => (c <? 128)%N) text = true ->
      concat (pieces CONTENT_CHUNK_SIZE) = encode_ascii text ->
      fst (get_page E url w) = Ret text).
Proof.
  intros rq answer. rewrite get_page_run.
  change (page_request url) with rq. fold answer.
  split; [|split; [|split; [|split]]].
  5:{ intros status pieces text -> Hs Hascii Hbody.
      unfold raises_for_status.
      destruct (Z.leb_spec 400 status), (Z.ltb_spec status 600); simpl; try lia;
        rewrite Hbody, (utf8_decode_ascii _ Hascii); reflexivity. }
  - destruct answer as [e|status pieces [e|]]; try reflexivity.
    destruct (raises_for_status status); [reflexivity|].
    destruct (utf8_decode (concat (pieces CONTENT_CHUNK_SIZE))); reflexivity.
  - intros e [->|(status & pieces & ->)]; reflexivity.
  - intros status pieces -> Hs.
    unfold raises_for_status.
    destruct (Z.leb_spec 400 status), (Z.ltb_spec status 600); try lia. reflexivity.
  - intros status pieces -> Hs.
    unfold raises_for_status.
    destruct (Z.leb_spec 400 status), (Z.ltb_spec status 600); simpl; try lia;
      destruct (utf8_decode (concat (pieces CONTENT_CHUNK_SIZE))); reflexivity.
Qed.

(** The amended C8 at four answers: a page, a 404, a dead connection, and a
    body that is not UTF-8. *)
Lemma get_page_spec_witness :
  fst (get_page (serving page_no_anchor) chants_url (world_of [])) = Ret page_no_anchor
  /\ fst (get_page env_not_found chants_url (world_of []))
     = Raise (RuntimeError (FailedToRetrieve (HTTPError 404)))
  /\ fst (get_page env_down chants_url (world_of []))
     = Raise (RuntimeError (FailedToRetrieve (Transport (u "connection refused"))))
  /\ fst (get_page env_bad_utf8 chants_url (world_of [])) = Raise UnicodeDecodeError.
Proof.
  split; [|split; [|split]].
  - apply (proj2 (proj2 (proj2 (proj2 (get_page_spec (serving page_no_anchor)
                                         chants_url (world_of []))))) 200%Z
             (fun _ => [encode_ascii page_no_anchor]) page_no_anchor eq_refl);
      [lia|reflexivity|vm_compute; reflexivity].
  - apply (proj1 (proj2 (proj2 (get_page_spec env_not_found chants_url (world_of []))))
             404%Z (fun _ => [encode_ascii (u "missing")]) eq_refl). lia.
  - apply (proj1 (proj2 (get_page_spec env_down chants_url (world_of [])))).
    left; reflexivity.
  - rewrite (proj1 (proj2 (proj2 (proj2 (get_page_spec env_bad_utf8 chants_url
                                           (world_of []))))) 200%Z
               (fun _ => [[xff]]) eq_refl);
      [|lia].
    vm_compute; reflexivity.
Defined.

(** C8 as stated fails: a response with status 304, which is not a 2xx
    status, is not an error for [raise_for_status], and its body is
    returned; and a response with status 200 whose body is not UTF-8 ends
    in UnicodeDecodeError, neither a text nor the fetch error. *)
Lemma get_page_not_modified_counterexample :
  get_page env_not_modified chants_url (world_of [])
  = (Ret (u "cached"), sending (page_request chants_url) (world_of []))
  /\ get_page env_bad_utf8 chants_url (world_of [])
     = (Raise UnicodeDecodeError, sending (page_request chants_url) (world_of [])).
Proof. vm_compute; split; reflexivity. Qed.

(* ================================================================== *)
(** ** [list_and_select] *)

Lemma lower_is_q (line : str) :
  str_eqb (lower line) (u "q") = is_quit line.
Proof.
  unfold is_quit, lower.
  destruct line as [|c [|c' l]]; try reflexivity.
  - change (u "q") with [113%N]; change (u "Q") with [81%N]; simpl.
    rewrite !andb_true_r. unfold lower_char.
    destruct (N.leb_spec 65 c), (N.leb_spec c 90); simpl;
      destruct (N.leb_spec 192 c), (N.leb_spec c 222); simpl;
      destruct (N.eqb_spec c 215); simpl;
      destruct (N.eqb_spec c 113), (N.eqb_spec c 81); simpl;
      try lia;
      match goal with
      | |- (?x =? ?y)%N = _ => destruct (N.eqb_spec x y); try reflexivity; try lia
      end.
  - change (u "q") with [113%N]; change (u "Q") with [81%N]; simpl.
    now rewrite !andb_false_r.
Qed.

Lemma is_quit_iff (line : str) :
  is_quit line = true <-> line = u "q" \/ line = u "Q".
Proof.
  unfold is_quit. rewrite orb_true_iff, !str_eqb_eq. tauto.
Qed.

(** In a dict (unique keys) the pair at position [i] is what its key maps to. *)
Lemma dict_get_nth {V} (d : pydict V) (i : nat) (k : str) (v : V) :
  NoDup (dict_keys d) ->
  nth_error d i = Some (k, v) ->
  nth_error (dict_keys d) i = Some k /\ dict_get d k = Some v.
Proof.
  unfold dict_keys. revert i; induction d as [|[k' v'] d IH]; intros i Hnd Hi.
  - destruct i; discriminate.
  - destruct i as [|i]; simpl in *.
    + injection Hi as -> ->. now rewrite str_eqb_refl.
    + inversion Hnd as [|? ? Hk Hd]; subst.
      destruct (IH i Hd Hi) as [Hn Hg]. split; [exact Hn|].
      destruct (str_eqb k' k) eqn:Hkk; [|exact Hg].
      apply str_eqb_eq in Hkk; subst k'.
      exfalso; apply Hk. eapply nth_error_In; exact Hn.
Qed.

Lemma list_and_select_unfold (E : Env) {V} (options : pydict V) (w : World) :
  list_and_select E options w
  = let '(o, r, unread) := select_loop E options (dict_keys options) (stdin w) in
    (r, reading unread o w).
Proof. reflexivity. Qed.

Lemma reading_reading (rest rest' : list str) (o o' : list out) (w : World) :
  reading rest' o' (reading rest o w) = reading rest' (o ++ o') w.
Proof. unfold reading; simpl. now rewrite app_assoc. Qed.

(** Rejecting a line: the loop starts again on the lines that follow. *)
Lemma list_and_select_again (E : Env) {V} (options : pydict V) (line : str)
    (rest : list str) (msg : out) (w : World) :
  stdin w = line :: rest ->
  select_loop E options (dict_keys options) (line :: rest)
  = (let '(o, r, unread) := select_loop E options (dict_keys options) rest in
     (shown options ++ msg :: o, r, unread)) ->
  list_and_select E options w
  = list_and_select E options (reading rest (shown options ++ [msg]) w).
Proof.
  intros Hin Hloop. rewrite !list_and_select_unfold, Hin, Hloop.
  change (stdin (reading rest (shown options ++ [msg]) w)) with rest.
  destruct (select_loop E options (dict_keys options) rest) as [[o r] unread].
  rewrite reading_reading, <- app_assoc. reflexivity.
Qed.

(** *** [int] reads the decimal numerals that [str] writes *)

Lemma digits_of_uint_digits (d : Decimal.uint) :
  forallb is_digit (digits_of_uint d) = true.
Proof. induction d; simpl; auto. Qed.

Lemma digits_value_acc (d : Decimal.uint) (acc : positive) :
  fold_left (fun a c => (10 * a + Z.of_N (c - 48))%Z) (digits_of_uint d) (Zpos acc)
  = Zpos (Pos.of_uint_acc d acc).
Proof.
  revert acc; induction d; intros acc;
    cbn [digits_of_uint fold_left Pos.of_uint_acc]; try reflexivity;
    match goal with
    | |- fold_left _ _ ?z = Zpos (Pos.of_uint_acc _ ?a) =>
        replace z with (Zpos a) by lia
    end; apply IHd.
Qed.

Lemma digits_value_uint (d : Decimal.uint) :
  digits_value (digits_of_uint d) = Z.of_N (Pos.of_uint d).
Proof.
  unfold digits_value.
  induction d; cbn [digits_of_uint fold_left Pos.of_uint]; try reflexivity;
    match goal with
    | |- fold_left _ _ ?z = _ =>
        let v := eval vm_compute in z in change z with v
    end;
    try (exact IHd); apply digits_value_acc.
Qed.

Lemma digits_value_str_of_Z (z : Z) :
  (0 <= z)%Z -> digits_value (str_of_Z z) = z.
Proof.
  intros Hz. unfold str_of_Z.
  destruct z as [|p|p]; try lia;
    rewrite digits_value_uint;
    change Pos.of_uint with N.of_uint;
    rewrite DecimalN.Unsigned.of_to; reflexivity.
Qed.

Lemma scan_digits_all (ds acc : str) :
  forallb is_digit ds = true ->
  scan_digits ds false acc = Some (rev acc ++ ds, []).
Proof.
  revert acc; induction ds as [|c ds IH]; intros acc; simpl.
  - now rewrite app_nil_r.
  - intros H; apply andb_prop in H as [Hc Hds]. rewrite Hc.
    rewrite IH by exact Hds. simpl. now rewrite <- app_assoc.
Qed.

Lemma is_digit_cases (c : char) :
  is_digit c = true ->
  (c = 48 \/ c = 49 \/ c = 50 \/ c = 51 \/ c = 52 \/ c = 53 \/ c = 54 \/ c = 55
   \/ c = 56 \/ c = 57)%N.
Proof.
  unfold is_digit. intros H; apply andb_prop in H as [H1 H2].
  apply N.leb_le in H1, H2. lia.
Qed.

Lemma digits_ascii (ds : str) :
  forallb is_digit ds = true -> forallb (fun c => (c <? 128)%N) ds = true.
Proof.
  induction ds as [|c ds IH]; simpl; [reflexivity|].
  intros H; apply andb_prop in H as [Hc Hds]. rewrite (IH Hds), andb_true_r.
  apply is_digit_cases in Hc. apply N.ltb_lt. lia.
Qed.

(** A run of digits is read as its decimal value. *)
Lemma py_int_digits (E : Env) (ds : str) :
  ds <> [] ->
  forallb is_digit ds = true ->
  within_digit_limit E ds = true ->
  py_int E ds = Some (digits_value ds) /\ is_quit ds = false.
Proof.
  intros Hne Hds Hlim. destruct ds as [|c ds]; [contradiction|].
  unfold py_int. rewrite (digits_ascii _ Hds).
  pose proof (scan_digits_all (c :: ds) [] Hds) as Hscan. simpl rev in Hscan.
  simpl app in Hscan.
  simpl in Hds. apply andb_prop in Hds as [Hc _].
  apply is_digit_cases in Hc.
  destruct Hc as [->|[->|[->|[->|[->|[->|[->|[->|[->| ->]]]]]]]]];
    (split;
     [ cbn [lstrip_space ascii_isspace N.leb N.eqb N.compare Pos.compare
              Pos.compare_cont Pos.eqb andb orb];
       rewrite Hscan; cbn [lstrip_space]; rewrite Hlim; reflexivity
     | unfold is_quit; destruct ds; reflexivity ]).
Qed.

(** [int(str(n))] is [n], for a natural number whose numeral has no more
    than 640 digits (beyond that the interpreter's limit may refuse it). *)
Lemma py_int_str (E : Env) (n : nat) :
  List.length (str_of_Z (Z.of_nat n)) <= 640 ->
  py_int E (str_of_Z (Z.of_nat n)) = Some (Z.of_nat n)
  /\ is_quit (str_of_Z (Z.of_nat n)) = false.
Proof.
  intros Hlen.
  assert (Hform : exists d, str_of_Z (Z.of_nat n) = digits_of_uint d /\ d <> Decimal.Nil).
  { unfold str_of_Z. destruct (Z.of_nat n) as [|p|p] eqn:Hz; try lia.
    - exists (N.to_uint 0); split; [reflexivity|discriminate].
    - exists (N.to_uint (N.pos p)); split; [reflexivity|].
      apply DecimalPos.Unsigned.to_uint_nonnil. }
  destruct Hform as (d & Hd & Hnil).
  destruct (@py_int_digits E (str_of_Z (Z.of_nat n))) as [Hint Hq].
  - rewrite Hd. destruct d; simpl; try discriminate. contradiction.
  - rewrite Hd. apply digits_of_uint_digits.
  - unfold within_digit_limit. apply Nat.leb_le in Hlen. now rewrite Hlen.
  - split; [|exact Hq]. rewrite Hint, digits_value_str_of_Z by lia. reflexivity.
Qed.

(** C6.  With the user's next line [line]: a quit token, in either case,
    ends the process (SystemExit); a line that [int] reads as [i] with
    [0 <= i < count] returns the (value, label) pair at index [i] and the
    loop stops, and the decimal numeral of an index of the menu is such a
    line; any other line gets a corrective message and the loop starts
    again on the lines that follow.  And on a menu of three options the
    lines abc, 7, 1 are answered by two rejections and then the option at
    index 1. *)
Theorem list_and_select_spec (E : Env) (V : Type) (options : pydict V) :
  NoDup (dict_keys options) ->
  let count := Z.of_nat (List.length options) in
  (forall line rest w,
      stdin w = line :: rest ->
      (is_quit line = true ->
       list_and_select E options w
       = (Raise SystemExit, reading rest (shown options) w))
      /\ (forall i key value,
             is_quit line = false ->
             py_int E line = Some i ->
             (0 <= i < count)%Z ->
             nth_error options (Z.to_nat i) = Some (key, value) ->
             list_and_select E options w
             = (Ret (value, key), reading rest (shown options) w))
      /\ (is_quit line = false ->
          (forall i, py_int E line = Some i -> ~ (0 <= i < count)%Z) ->
          exists msg,
            (msg = SayInvalid \/ msg = SayRange (count - 1))
            /\ list_and_select E options w
               = list_and_select E options
                   (reading rest (shown options ++ [msg]) w)))
  /\ (forall n key value rest w,
         stdin w = str_of_Z (Z.of_nat n) :: rest ->
         List.length (str_of_Z (Z.of_nat n)) <= 640 ->
         nth_error options n = Some (key, value) ->
         list_and_select E options w
         = (Ret (value, key), reading rest (shown options) w))
  /\ (forall k0 v0 k1 v1 k2 v2 w,
         options = [(k0, v0); (k1, v1); (k2, v2)] ->
         stdin w = [u "abc"; u "7"; u "1"] ->
         list_and_select E options w
         = (Ret (v1, k1),
            reading []
              (shown options ++ [SayInvalid] ++ shown options ++ [SayRange 2]
               ++ shown options) w)).
Proof.
  intros Hnd count.
  assert (Hstep : forall line rest w,
      stdin w = line :: rest ->
      (is_quit line = true ->
       list_and_select E options w
       = (Raise SystemExit, reading rest (shown options) w))
      /\ (forall i key value,
             is_quit line = false ->
             py_int E line = Some i ->
             (0 <= i < count)%Z ->
             nth_error options (Z.to_nat i) = Some (key, value) ->
             list_and_select E options w
             = (Ret (value, key), reading rest (shown options) w))
      /\ (is_quit line = false ->
          (forall i, py_int E line = Some i -> ~ (0 <= i < count)%Z) ->
          exists msg,
            (msg = SayInvalid \/ msg = SayRange (count - 1))
            /\ list_and_select E options w
               = list_and_select E options
                   (reading rest (shown options ++ [msg]) w))).
  { intros line rest w Hin.
    assert (Hcount : count = Z.of_nat (List.length (dict_keys options))).
    { unfold count, dict_keys. now rewrite length_map. }
    split; [|split].
    - intros Hq. rewrite list_and_select_unfold, Hin. simpl.
      rewrite lower_is_q, Hq. reflexivity.
    - intros i key value Hq Hi Hr Hnth.
      destruct (dict_get_nth _ _ Hnd Hnth) as [Hk Hv].
      rewrite list_and_select_unfold, Hin. simpl.
      rewrite lower_is_q, Hq, Hi, <- Hcount.
      destruct (Z.leb_spec 0 i), (Z.ltb_spec i count); try lia. simpl.
      rewrite Hk, Hv. reflexivity.
    - intros Hq Hno.
      destruct (py_int E line) as [i|] eqn:Hi.
      + exists (SayRange (count - 1)). split; [now right|].
        apply list_and_select_again with (line := line); [exact Hin|].
        simpl. rewrite lower_is_q, Hq, Hi, <- Hcount.
        specialize (Hno i eq_refl).
        destruct (Z.leb_spec 0 i), (Z.ltb_spec i count); try lia; reflexivity.
      + exists SayInvalid. split; [now left|].
        apply list_and_select_again with (line := line); [exact Hin|].
        simpl. rewrite lower_is_q, Hq, Hi. reflexivity. }
  split; [exact Hstep|]. split.
  { intros n key value rest w Hin Hlen Hnth.
    destruct (py_int_str E n Hlen) as [Hint Hq].
    apply (proj1 (proj2 (Hstep _ _ w Hin)) (Z.of_nat n) key value Hq Hint).
    - assert (n < List.length options) by (apply nth_error_Some; congruence).
      unfold count. lia.
    - now rewrite Nat2Z.id. }
  intros k0 v0 k1 v1 k2 v2 w Hopt Hin.
  rewrite list_and_select_unfold, Hin.
  unfold count in *; clear count Hstep. subst options.
  unfold shown, dict_keys in *. simpl in Hnd. 
  cbn.
  change (PosDef.Pos.to_nat 1) with 1; cbn.
  assert (H01 : str_eqb k0 k1 = false).
  { apply str_eqb_neq. inversion Hnd as [|? ? Hk _]; subst.
    intros ->; apply Hk; now left. }
  rewrite H01, str_eqb_refl. reflexivity.
Qed.

(** C6 on a menu of two albums: a quit token in capitals ends the process. *)
Lemma list_and_select_spec_witness :
  list_and_select (env_of (fun _ => Failed [])) 
    [(u "Album1", u "/a1"); (u "Album2", u "/a2")] (world_of [u "Q"; u "0"])
  = (Raise SystemExit,
     reading [u "0"] (shown [(u "Album1", u "/a1"); (u "Album2", u "/a2")])
       (world_of [u "Q"; u "0"])).
Proof.
  apply (proj1 (proj1 (@list_and_select_spec (env_of (fun _ => Failed [])) str
                         [(u "Album1", u "/a1"); (u "Album2", u "/a2")] 
                         ltac:(repeat constructor; simpl; intuition discriminate))
                  (u "Q") [u "0"] (world_of [u "Q"; u "0"]) eq_refl)).
  reflexivity.
Defined.

(** The loop on an empty menu, on lines of which none is a quit token:
    every line is rejected and the loop waits for the next. *)
Lemma select_loop_empty_no_quit (E : Env) {V} (lines : list str) :
  Forall (fun l => is_quit l = false) lines ->
  select_loop E ([] : pydict V) [] lines
  = (flat_map (fun l => [AskSelection; rejection E l]) lines ++ [AskSelection],
     Await, []).
Proof.
  induction 1 as [|line lines Hq _ IH]; [reflexivity|].
  simpl. rewrite lower_is_q, Hq, IH. unfold rejection.
  destruct (py_int E line) as [i|]; [|reflexivity].
  destruct (Z.leb_spec 0 i), (Z.ltb_spec i 0); try lia; reflexivity.
Qed.

(** The same, up to the first quit token. *)
Lemma select_loop_empty_quit (E : Env) {V} (pre : list str) (line : str) (post : list str) :
  Forall (fun l => is_quit l = false) pre ->
  is_quit line = true ->
  select_loop E ([] : pydict V) [] (pre ++ line :: post)
  = (flat_map (fun l => [AskSelection; rejection E l]) pre ++ [AskSelection],
     Raise SystemExit, post).
Proof.
  intros Hpre Hq. induction Hpre as [|l pre Hl _ IH]; simpl.
  - now rewrite lower_is_q, Hq.
  - rewrite lower_is_q, Hl, IH. unfold rejection.
    destruct (py_int E l) as [i|]; [|reflexivity].
    destruct (Z.leb_spec 0 i), (Z.ltb_spec i 0); try lia; reflexivity.
Qed.

(** C10.  On an empty mapping [list_and_select] never returns a value.
    When no line the user types is a quit token, each of them is rejected
    (an integer fails the bounds check, anything else is invalid) and the
    loop asks again, however many lines there are; a quit token ends it,
    with SystemExit, and nothing else does. *)
Theorem list_and_select_empty (E : Env) (V : Type) (w : World) :
  (forall (v : V) (k : str) (w' : World),
      list_and_select E [] w <> (Ret (v, k), w'))
  /\ (Forall (fun l => is_quit l = false) (stdin w) ->
      list_and_select E ([] : pydict V) w
      = (Await,
         reading []
           (flat_map (fun l => [AskSelection; rejection E l]) (stdin w)
            ++ [AskSelection]) w))
  /\ (forall pre line post,
         stdin w = pre ++ line :: post ->
         Forall (fun l => is_quit l = false) pre ->
         is_quit line = true ->
         list_and_select E ([] : pydict V) w
         = (Raise SystemExit,
            reading post
              (flat_map (fun l => [AskSelection; rejection E l]) pre
               ++ [AskSelection]) w)).
Proof.
  assert (Hno : Forall (fun l => is_quit l = false) (stdin w) ->
      list_and_select E ([] : pydict V) w
      = (Await,
         reading []
           (flat_map (fun l => [AskSelection; rejection E l]) (stdin w)
            ++ [AskSelection]) w)).
  { intros H. rewrite list_and_select_unfold.
    change (dict_keys ([] : pydict V)) with ([] : list str).
    now rewrite (@select_loop_empty_no_quit E V (stdin w) H). }
  assert (Hquit : forall pre line post,
         stdin w = pre ++ line :: post ->
         Forall (fun l => is_quit l = false) pre ->
         is_quit line = true ->
         list_and_select E ([] : pydict V) w
         = (Raise SystemExit,
            reading post
              (flat_map (fun l => [AskSelection; rejection E l]) pre
               ++ [AskSelection]) w)).
  { intros pre line post Hin Hpre Hq. rewrite list_and_select_unfold, Hin.
    change (dict_keys ([] : pydict V)) with ([] : list str).
    now rewrite (@select_loop_empty_quit E V pre line post Hpre Hq). }
  split; [|split; [exact Hno|exact Hquit]].
  intros v k w' Hret.
  assert (Hsplit : Forall (fun l => is_quit l = false) (stdin w)
                   \/ exists pre line post,
                        stdin w = pre ++ line :: post
                        /\ Forall (fun l => is_quit l = false) pre
                        /\ is_quit line = true).
  { clear. induction (stdin w) as [|l ls IH]; [left; constructor|].
    destruct (is_quit l) eqn:Hl.
    - right; exists [], l, ls; repeat split; [constructor|exact Hl].
    - destruct IH as [IH|(pre & line & post & -> & Hpre & Hq)].
      + left; constructor; assumption.
      + right; exists (l :: pre), line, post; repeat split;
          [constructor; assumption|exact Hq]. }
  destruct Hsplit as [H|(pre & line & post & Hin & Hpre & Hq)].
  - rewrite (Hno H) in Hret; discriminate.
  - rewrite (Hquit _ _ _ Hin Hpre Hq) in Hret; discriminate.
Qed.

(** C10 on the lines 0, abc, 5: three rejections, and the loop waits. *)
Lemma list_and_select_empty_witness :
  list_and_select (env_of (fun _ => Failed [])) ([] : pydict str)
    (world_of [u "0"; u "abc"; u "5"])
  = (Await,
     reading []
       [AskSelection; SayRange (-1); AskSelection; SayInvalid;
        AskSelection; SayRange (-1); AskSelection]
       (world_of [u "0"; u "abc"; u "5"])).
Proof.
  apply (proj1 (proj2 (list_and_select_empty (env_of (fun _ => Failed [])) str
                         (world_of [u "0"; u "abc"; u "5"])))).
  repeat constructor.
Defined.

(* ================================================================== *)
(** ** [download_mp3] *)

Lemma dict_get_set_eq {V} (d : pydict V) (k : str) (v : V) :
  dict_get (dict_set d k v) k = Some v.
Proof.
  induction d as [|[k' v'] d IH]; simpl.
  - now rewrite str_eqb_refl.
  - destruct (str_eqb k' k) eqn:Hk; simpl; now rewrite Hk.
Qed.

Lemma dict_get_set_neq {V} (d : pydict V) (k k' : str) (v : V) :
  k <> k' -> dict_get (dict_set d k v) k' = dict_get d k'.
Proof.
  intros Hne. induction d as [|[k0 v0] d IH]; simpl.
  - apply str_eqb_neq in Hne. now rewrite Hne.
  - destruct (str_eqb k0 k) eqn:Hk; simpl.
    + apply str_eqb_eq in Hk; subst k0.
      apply str_eqb_neq in Hne. now rewrite Hne.
    + now rewrite IH.
Qed.

Lemma dict_set_set {V} (d : pydict V) (k : str) (v v' : V) :
  dict_set (dict_set d k v) k v' = dict_set d k v'.
Proof.
  induction d as [|[k0 v0] d IH]; simpl.
  - now rewrite str_eqb_refl.
  - destruct (str_eqb k0 k) eqn:Hk; simpl; rewrite Hk; [reflexivity|now rewrite IH].
Qed.

(** Skipping the empty chunks loses nothing of the body. *)
Lemma concat_nonempty (chunks : list bytes) :
  concat (filter nonempty chunks) = concat chunks.
Proof.
  induction chunks as [|[|b c] chunks IH]; simpl; [reflexivity|exact IH|now rewrite IH].
Qed.

(** The writing loop: every chunk that is not empty is appended. *)
Lemma write_chunks (E : Env) (path : str) (chunks : list bytes) (w : World) (body : bytes) :
  dict_get (files w) path = Some (MkFile body None) ->
  for_each chunks
    (fun chunk => match chunk with
                  | [] => ret tt
                  | _ :: _ => file_write path chunk
                  end) w
  = (Ret tt, with_file path (MkFile (body ++ concat (filter nonempty chunks)) None) w).
Proof.
  revert w body; induction chunks as [|chunk chunks IH]; intros w body Hf; simpl.
  - unfold ret, with_file. rewrite app_nil_r.
    destruct w as [i o s fs ds tg]; simpl in *. f_equal. f_equal.
    clear -Hf. induction fs as [|[k v] fs IH]; simpl in *; [discriminate|].
    destruct (str_eqb k path) eqn:Hk.
    + injection Hf as ->. apply str_eqb_eq in Hk. now subst.
    + f_equal. now apply IH.
  - unfold bind. destruct chunk as [|b chunk].
    + unfold ret. now apply IH.
    + unfold file_write, bind, get_files, set_files. rewrite Hf. simpl.
      rewrite (IH _ (body ++ b :: chunk)).
      * unfold with_file; simpl. rewrite dict_set_set, <- app_assoc. reflexivity.
      * simpl. apply dict_get_set_eq.
Qed.

(** What [download_mp3] does, by the answer it gets. *)
Lemma download_mp3_run (E : Env) (url path : str) (w : World) :
  let rq := download_request url in
  let w1 := sending rq w in
  download_mp3 E (JStr url) path w
  = match net E (List.length (sent w)) rq with
    | Failed e => (Ret false, said (SayDownloadError path (Transport e)) w1)
    | Reply status pieces broken =>
        if raises_for_status status
        then (Ret false, said (SayDownloadError path (HTTPError status)) w1)
        else if can_open E path then
          let w2 := with_file path
                      (MkFile (concat (filter nonempty (pieces 1024%N))) None) w1 in
          match broken with
          | Some e => (Ret false, said (SayDownloadError path (Transport e)) w2)
          | None => (Ret true, w2)
          end
        else (Raise OSError, w1)
    end.
Proof.
  intros rq w1. subst w1 rq.
  unfold download_mp3, download_request, target_url. cbv zeta.
  destruct (startswith (u "http") url); simpl negb; cbv iota;
    match goal with
    | |- context [requests_get E ?r] => set (rq := r)
    end;
    (unfold bind at 1; unfold requests_get; fold (sending rq w);
     destruct (net E (List.length (sent w)) rq) as [e|status pieces broken];
     [reflexivity|];
     destruct (raises_for_status status); [reflexivity|];
     unfold open_wb; destruct (can_open E path); [|reflexivity];
     unfold bind at 1; unfold bind at 1; unfold get_files, set_files;
     unfold bind at 1;
     rewrite (@write_chunks E path (pieces 1024%N) _ []);
     [ simpl app; unfold with_file; simpl; rewrite dict_set_set;
       destruct broken; reflexivity
     | simpl; apply dict_get_set_eq ]).
Qed.

(** C7, amended.  [download_mp3] requests the URL itself when it begins
    with http, and the base origin followed by the URL when it does not;
    the request streams and sets no timeout.  When the answer has a
    status that [raise_for_status] accepts and its body is read to the end,
    the destination holds exactly the chunks of size 1024 that are not
    empty, which is the whole body, whatever the file held before; the
    other files are untouched and the result is True.  When the request
    fails in transport, the status is refused, or the body breaks off, a
    diagnostic is printed and the result is False: nothing is raised. *)
Theorem download_mp3_spec (E : Env) (url path : str) (w : World) :
  let run := download_mp3 E (JStr url) path w in
  let answer := net E (List.length (sent w)) (download_request url) in
  (startswith (u "http") url = false ->
   sent (snd run) = sent w ++ [MkRequest (base_url ++ url) None true])
  /\ (startswith (u "http") url = true ->
      sent (snd run) = sent w ++ [MkRequest url None true])
  /\ (forall status pieces,
         answer = Reply status pieces None ->
         ~ (400 <= status < 600)%Z ->
         can_open E path = true ->
         fst run = Ret true
         /\ dict_get (files (snd run)) path
            = Some (MkFile (concat (filter nonempty (pieces 1024%N))) None)
         /\ concat (filter nonempty (pieces 1024%N)) = concat (pieces 1024%N)
         /\ (forall other, path <> other ->
               dict_get (files (snd run)) other = dict_get (files w) other)
         /\ stdout (snd run) = stdout w)
  /\ (forall e,
         answer = Failed e ->
         fst run = Ret false
         /\ stdout (snd run) = stdout w ++ [SayDownloadError path (Transport e)]
         /\ files (snd run) = files w)
  /\ (forall status pieces broken,
         answer = Reply status pieces broken ->
         (400 <= status < 600)%Z ->
         fst run = Ret false
         /\ stdout (snd run) = stdout w ++ [SayDownloadError path (HTTPError status)]
         /\ files (snd run) = files w)
  /\ (forall status pieces e,
         answer = Reply status pieces (Some e) ->
         ~ (400 <= status < 600)%Z ->
         can_open E path = true ->
         fst run = Ret false
         /\ stdout (snd run) = stdout w ++ [SayDownloadError path (Transport e)]).
Proof.
  intros run answer. subst run. rewrite download_mp3_run. fold answer.
  assert (Hstatus : forall status,
             raises_for_status status = true <-> (400 <= status < 600)%Z).
  { intros status; unfold raises_for_status.
    rewrite andb_true_iff, Z.leb_le, Z.ltb_lt; tauto. }
  assert (Hsent : sent (snd
    match answer with
    | Failed e =>
        (Ret false, said (SayDownloadError path (Transport e))
                      (sending (download_request url) w))
    | Reply status pieces broken =>
        if raises_for_status status
        then (Ret false, said (SayDownloadError path (HTTPError status))
                           (sending (download_request url) w))
        else if can_open E path then
          let w2 := with_file path
                      (MkFile (concat (filter nonempty (pieces 1024%N))) None)
                      (sending (download_request url) w) in
          match broken with
          | Some e => (Ret false, said (SayDownloadError path (Transport e)) w2)
          | None => (Ret true, w2)
          end
        else (Raise OSError, sending (download_request url) w)
    end) = sent w ++ [download_request url]).
  { destruct answer as [e|status pieces [e|]]; [reflexivity| |];
      destruct (raises_for_status status); try reflexivity;
      destruct (can_open E path); reflexivity. }
  split; [|split; [|split; [|split; [|split]]]].
  - intros Hrel. rewrite Hsent. unfold download_request, target_url. now rewrite Hrel.
  - intros Habs. rewrite Hsent. unfold download_request, target_url. now rewrite Habs.
  - intros status pieces -> Hok Hopen.
    destruct (raises_for_status status) eqn:Hs; [apply Hstatus in Hs; contradiction|].
    rewrite Hopen. simpl.
    split; [reflexivity|split; [apply dict_get_set_eq|split; [apply concat_nonempty|]]].
    split; [|reflexivity]. intros other Hne. now apply dict_get_set_neq.
  - intros e ->. simpl. auto.
  - intros status pieces broken -> Hbad.
    apply Hstatus in Hbad. rewrite Hbad. simpl. auto.
  - intros status pieces e -> Hok Hopen.
    destruct (raises_for_status status) eqn:Hs; [apply Hstatus in Hs; contradiction|].
    rewrite Hopen. simpl. auto.
Qed.

(** C7 where the destination already holds a longer file: the new body
    replaces it, and the address requested is the origin and the path. *)
Lemma download_mp3_spec_witness :
  let run := download_mp3 env_audio (JStr (u "/s1.mp3")) (u "downloads/A/Song1.mp3")
               world_old_file in
  fst run = Ret true
  /\ dict_get (files (snd run)) (u "downloads/A/Song1.mp3")
     = Some (MkFile (encode_ascii (u "ID3audio")) None)
  /\ sent (snd run) = [MkRequest (u "https://valaam.ru/s1.mp3") None true].
Proof.
  pose proof (@download_mp3_spec env_audio (u "/s1.mp3") (u "downloads/A/Song1.mp3")
                world_old_file) as H.
  cbv zeta in H. destruct H as (Hrel & _ & Hok & _).
  destruct (Hok 200%Z (fun _ => audio_pieces) eq_refl) as (Hr & Hf & _); [lia|reflexivity|].
  cbv zeta. split; [exact Hr|split].
  - rewrite Hf. reflexivity.
  - rewrite Hrel; reflexivity.
Defined.

(** C7 as stated fails: a relative URL whose first letters are http is not
    resolved against the base origin; it is requested as it stands. *)
Lemma download_mp3_relative_http_counterexample :
  download_mp3 env_no_scheme (JStr (u "httpdocs/s1.mp3")) (u "downloads/A/Song1.mp3")
    (world_of [])
  = (Ret false,
     said (SayDownloadError (u "downloads/A/Song1.mp3")
             (Transport (u "No scheme supplied")))
       (sending (MkRequest (u "httpdocs/s1.mp3") None true) (world_of []))).
Proof. vm_compute; reflexivity. Qed.

(* ================================================================== *)
(** ** [add_metadata] and [download_playlist] *)

Lemma call_add_metadata_four (E : Env) (file_path : str) (album_data song_data : json)
    (index : Z) :
  call_add_metadata E [JStr file_path; album_data; song_data]
    [("track_number"%string, JInt index)]
  = add_metadata E file_path album_data song_data index.
Proof. reflexivity. Qed.

Lemma track_fields_inv (song : json) (name url artist : str) :
  track_fields song = Some (name, url, artist) ->
  exists d, song = JObj d
            /\ dict_get d (u "name") = Some (JStr name)
            /\ dict_get d (u "url") = Some (JStr url)
            /\ dict_get d (u "artist") = Some (JStr artist).
Proof.
  destruct song as [|b|z|x|x|l|d]; try discriminate. simpl.
  destruct (dict_get d (u "name")) as [[|b|z|x|n|l|o]|] eqn:Hn; try discriminate.
  destruct (dict_get d (u "url")) as [[|b|z|x|l|l'|o]|] eqn:Hl; try discriminate.
  destruct (dict_get d (u "artist")) as [[|b|z|x|a|l'|o]|] eqn:Ha; try discriminate.
  intros H; injection H as <- <- <-. exists d; repeat split; assumption || reflexivity.
Qed.

(** Tagging a file that a download has just written. *)
Lemma add_metadata_fresh (E : Env) (path album name url artist : str) (song : json)
    (index : Z) (body : bytes) (w : World) :
  track_fields song = Some (name, url, artist) ->
  dict_get (files w) path = Some (MkFile body None) ->
  mutagen_read E body <> Unreadable ->
  exists audio,
    add_metadata E path (JStr album) song index w
    = (Ret tt,
       MkWorld (stdin w) (stdout w) (sent w)
         (dict_set (files w) path (MkFile body (Some audio)))
         (dirs w) (tagged w ++ [(path, audio)]))
    /\ dict_get audio (u "title") = Some name
    /\ dict_get audio (u "album") = Some album
    /\ dict_get audio (u "artist") = Some artist
    /\ dict_get audio (u "tracknumber") = Some (str_of_Z index).
Proof.
  intros Hsong Hfile Hread.
  destruct (track_fields_inv _ Hsong) as (d & -> & Hn & Hu & Ha).
  assert (Hbase : exists base, open_tags E path w = (Ret base, w)).
  { unfold open_tags, bind, get_files. rewrite Hfile. simpl.
    destruct (mutagen_read E body) as [t| |]; [eexists; reflexivity..|contradiction]. }
  destruct Hbase as (base & Hbase).
  exists (dict_set (dict_set (dict_set (dict_set base (u "title") name)
                      (u "album") album) (u "artist") artist)
            (u "tracknumber") (str_of_Z index)).
  split; [|split; [|split; [|split]]].
  - unfold add_metadata. unfold bind at 1. rewrite Hbase.
    unfold getitem, bind. rewrite Hn, Ha. simpl.
    unfold save_tags. rewrite Hfile. reflexivity.
  - rewrite !dict_get_set_neq by discriminate. apply dict_get_set_eq.
  - rewrite !dict_get_set_neq by discriminate. apply dict_get_set_eq.
  - rewrite !dict_get_set_neq by discriminate. apply dict_get_set_eq.
  - apply dict_get_set_eq.
Qed.

(** One pass of the loop of [download_playlist], on a track. *)
Lemma download_song_spec (E : Env) (folder album name url artist : str) (song : json)
    (index : Z) (w : World) :
  track_fields song = Some (name, url, artist) ->
  (forall p, can_open E p = true) ->
  (forall b, mutagen_read E b <> Unreadable) ->
  let path := path_join folder (name ++ u ".mp3") in
  let answer := net E (List.length (sent w)) (download_request url) in
  exists w',
    download_song E folder album index song w = (Ret tt, w')
    /\ sent w' = sent w ++ [download_request url]
    /\ if succeeded answer
       then exists audio,
           tagged w' = tagged w ++ [(path, audio)]
           /\ dict_get audio (u "title") = Some name
           /\ dict_get audio (u "album") = Some album
           /\ dict_get audio (u "artist") = Some artist
           /\ dict_get audio (u "tracknumber") = Some (str_of_Z index)
       else tagged w' = tagged w.
Proof.
  intros Hsong Hopen Hread path answer.
  destruct (track_fields_inv _ Hsong) as (d & Hd & Hn & Hu & Ha).
  unfold download_song. unfold bind at 1. unfold getitem at 1. rewrite Hd, Hn.
  unfold ret at 1. unfold bind at 1. unfold getitem at 1. rewrite Hu.
  unfold ret at 1. unfold bind at 1. unfold as_str at 1. unfold ret at 1.
  fold path. unfold bind at 1. rewrite download_mp3_run. fold answer.
  rewrite Hopen. rewrite <- Hd.
  destruct answer as [e|status pieces [e|]]; simpl succeeded.
  - eexists; split; [reflexivity|split; reflexivity].
  - destruct (raises_for_status status); simpl;
      eexists; (split; [reflexivity|split; reflexivity]).
  - destruct (raises_for_status status); simpl.
    + eexists; split; [reflexivity|split; reflexivity].
    + rewrite call_add_metadata_four.
      edestruct (@add_metadata_fresh E path album name url artist song index
                  (concat (filter nonempty (pieces 1024%N)))) as (audio & Hrun & Hrest);
        [exact Hsong| |apply Hread|].
      2:{ rewrite Hrun. eexists; split; [reflexivity|]. simpl.
          split; [reflexivity|]. exists audio. split; [reflexivity|exact Hrest]. }
      simpl. apply dict_get_set_eq.
Qed.

(** The loop of [download_playlist] from position [k0] on. *)
Lemma download_loop_spec (E : Env) (folder album : str) (songs : list json) :
  (forall p, can_open E p = true) ->
  (forall b, mutagen_read E b <> Unreadable) ->
  Forall is_track songs ->
  forall (k0 c : nat) (w : World),
    List.length (sent w) = c + k0 ->
    exists w',
      for_each (enumerate (Z.of_nat k0 + 1) songs)
        (fun '(index, song) => download_song E folder album index song) w
      = (Ret tt, w')
      /\ List.length (sent w') = c + k0 + List.length songs
      /\ exists new,
          tagged w' = tagged w ++ new
          /\ Forall2 (tagged_as folder album) new
               (filter (download_ok E c) (positions k0 songs)).
Proof.
  intros Hopen Hread Htracks.
  induction Htracks as [|song songs Hsong _ IH]; intros k0 c w Hlen.
  - exists w. split; [reflexivity|]. split; [simpl; lia|].
    exists []. split; [now rewrite app_nil_r|constructor].
  - unfold is_track in Hsong.
    destruct (track_fields song) as [[[name url] artist]|] eqn:Hf; [|contradiction].
    destruct (@download_song_spec E folder album name url artist song
                (Z.of_nat k0 + 1) w Hf Hopen Hread) as (w1 & Hrun & Hsent & Htag).
    destruct (IH (S k0) c w1) as (w' & Hloop & Hlen' & new & Hnew & Hall).
    { rewrite Hsent, length_app, Hlen; simpl; lia. }
    exists w'. split; [|split].
    + simpl. unfold bind. rewrite Hrun.
      replace (Z.of_nat k0 + 1 + 1)%Z with (Z.of_nat (S k0) + 1)%Z by lia.
      exact Hloop.
    + rewrite Hlen'. simpl. lia.
    + unfold positions in *. simpl.
      unfold download_ok at 1. simpl fst; simpl snd. rewrite Hf.
      rewrite <- Hlen.
      destruct (succeeded (net E (List.length (sent w)) (download_request url))).
      * destruct Htag as (audio & Ht & H1 & H2 & H3 & H4).
        exists ((path_join folder (name ++ u ".mp3"), audio) :: new). split.
        -- rewrite Hnew, Ht, <- app_assoc. reflexivity.
        -- constructor; [|exact Hall].
           exists name, url, artist. simpl. repeat split; assumption.
      * exists new. split; [now rewrite Hnew, Htag|exact Hall].
Qed.

Lemma open_tags_run (E : Env) (path : str) (body : bytes) (w : World) :
  dict_get (files w) path = Some (MkFile body None) ->
  open_tags E path w
  = match mutagen_read E body with
    | Tagged t => (Ret t, w)
    | Untagged => (Ret [], w)
    | Unreadable => (Raise MutagenError, w)
    end.
Proof.
  intros Hfile. unfold open_tags, bind, get_files. rewrite Hfile. simpl.
  destruct (mutagen_read E body); reflexivity.
Qed.

Lemma four_tags_get (base : tags) (name album artist : str) (index : Z) :
  dict_get (four_tags base name album artist index) (u "title") = Some name
  /\ dict_get (four_tags base name album artist index) (u "album") = Some album
  /\ dict_get (four_tags base name album artist index) (u "artist") = Some artist
  /\ dict_get (four_tags base name album artist index) (u "tracknumber")
     = Some (str_of_Z index).
Proof.
  unfold four_tags. repeat split.
  - rewrite !dict_get_set_neq by discriminate. apply dict_get_set_eq.
  - rewrite !dict_get_set_neq by discriminate. apply dict_get_set_eq.
  - rewrite !dict_get_set_neq by discriminate. apply dict_get_set_eq.
  - apply dict_get_set_eq.
Qed.

(** Tagging a file that a download has just written, whatever the song and
    the file hold. *)
Lemma add_metadata_run (E : Env) (path album name : str) (d : pydict json)
    (index : Z) (body : bytes) (w : World) :
  dict_get d (u "name") = Some (JStr name) ->
  dict_get (files w) path = Some (MkFile body None) ->
  add_metadata E path (JStr album) (JObj d) index w
  = match mutagen_read E body with
    | Unreadable => (Raise MutagenError, w)
    | view =>
        let base := match view with Tagged t => t | _ => [] end in
        match dict_get d (u "artist") with
        | None => (Raise (KeyError (u "artist")), w)
        | Some (JStr artist) =>
            let audio := four_tags base name album artist index in
            (Ret tt,
             MkWorld (stdin w) (stdout w) (sent w)
               (dict_set (files w) path (MkFile body (Some audio)))
               (dirs w) (tagged w ++ [(path, audio)]))
        | Some _ => (Unmodelled, w)
        end
    end.
Proof.
  intros Hn Hfile. unfold add_metadata. unfold bind at 1.
  rewrite (@open_tags_run E path body w Hfile).
  destruct (mutagen_read E body) as [t| |]; [| |reflexivity];
    (unfold bind at 1; unfold getitem at 1; rewrite Hn; unfold ret at 1;
     unfold bind at 1; unfold as_str at 1; unfold ret at 1;
     unfold bind at 1; unfold as_str at 1; unfold ret at 1;
     unfold bind at 1; unfold getitem at 1;
     destruct (dict_get d (u "artist")) as [[|b0|z|x|artist|l|o]|]; try reflexivity;
     unfold ret at 1; unfold bind at 1; unfold as_str at 1; unfold ret at 1;
     unfold save_tags; rewrite Hfile; reflexivity).
Qed.

Lemma download_song_run (E : Env) (folder album name url : str) (d : pydict json)
    (index : Z) (w : World) :
  dict_get d (u "name") = Some (JStr name) ->
  dict_get d (u "url") = Some (JStr url) ->
  download_song E folder album index (JObj d) w
  = let path := path_join folder (name ++ u ".mp3") in
    match download_mp3 E (JStr url) path w with
    | (Ret true, w2) => add_metadata E path (JStr album) (JObj d) index w2
    | (Ret false, w2) => (Ret tt, w2)
    | (Raise e, w2) => (Raise e, w2)
    | (Await, w2) => (Await, w2)
    | (Unmodelled, w2) => (Unmodelled, w2)
    end.
Proof.
  intros Hn Hu. unfold download_song, bind, getitem, as_str, ret.
  rewrite Hn. cbv beta iota. rewrite Hu. cbv beta iota.
  destruct (download_mp3 E (JStr url) (path_join folder (name ++ u ".mp3")) w)
    as [[[|]| | |] w2]; reflexivity.
Qed.

(** One pass of the loop on any element of the playlist: either it ends
    normally, having made one request and saved the tags of the element if
    and only if it is a track whose download succeeded; or it does not end
    normally, and has saved nothing. *)
Lemma download_song_any (E : Env) (folder album : str) (song : json) (k c : nat)
    (w : World) :
  List.length (sent w) = c + k ->
  let run := download_song E folder album (Z.of_nat k + 1) song w in
  (fst run = Ret tt
   /\ List.length (sent (snd run)) = c + S k
   /\ exists new,
       tagged (snd run) = tagged w ++ new
       /\ Forall2 (tagged_as folder album) new (filter (download_ok E c) [(k, song)]))
  \/ (fst run <> Ret tt /\ tagged (snd run) = tagged w).
Proof.
  intros Hlen run.
  assert (Habort : forall e w1, tagged w1 = tagged w ->
             (run = (Raise e, w1) \/ run = (Unmodelled, w1)) ->
             fst run <> Ret tt /\ tagged (snd run) = tagged w).
  { intros e w1 Ht [-> | ->]; simpl; split; (discriminate || exact Ht). }
  destruct song as [|b0|z|x|x|l|d];
    try (right; apply (Habort (TypeError NotSubscriptable) w eq_refl); left; reflexivity).
  destruct (dict_get d (u "name")) as [vn|] eqn:Hn.
  2:{ right; apply (Habort (KeyError (u "name")) w eq_refl); left.
      subst run. unfold download_song, bind, getitem. now rewrite Hn. }
  destruct (dict_get d (u "url")) as [vu|] eqn:Hu.
  2:{ right; apply (Habort (KeyError (u "url")) w eq_refl); left.
      subst run. unfold download_song, bind, getitem. rewrite Hn. simpl. now rewrite Hu. }
  destruct vn as [|b0|z|x|name|l|o];
    try (right; apply (Habort ValueError w eq_refl); right;
         subst run; unfold download_song, bind, getitem; rewrite Hn; simpl;
         rewrite Hu; reflexivity).
  destruct vu as [|b0|z|x|url|l|o];
    try (right; apply (Habort AttributeError w eq_refl); left;
         subst run; unfold download_song, bind, getitem; rewrite Hn; simpl;
         rewrite Hu; reflexivity).
  assert (Hok : download_ok E c (k, JObj d)
                = match dict_get d (u "artist") with
                  | Some (JStr _) =>
                      succeeded (net E (List.length (sent w)) (download_request url))
                  | _ => false
                  end).
  { unfold download_ok. simpl. rewrite Hn, Hu, Hlen.
    destruct (dict_get d (u "artist")) as [[|b0|z|x|artist|l|o]|]; reflexivity. }
  assert (Htf : forall artist, dict_get d (u "artist") = Some (JStr artist) ->
                  track_fields (JObj d) = Some (name, url, artist)).
  { intros artist Ha. simpl. now rewrite Hn, Hu, Ha. }
  subst run. rewrite (@download_song_run E folder album name url d _ w Hn Hu).
  cbv zeta. rewrite download_mp3_run. cbv zeta.
  simpl filter. rewrite Hok.
  set (path := path_join folder (name ++ u ".mp3")).
  set (rq := download_request url).
  assert (Hsent : List.length (sent (sending rq w)) = c + S k).
  { simpl. rewrite length_app, Hlen. simpl. lia. }
  destruct (net E (List.length (sent w)) rq) as [e|status pieces broken];
    simpl succeeded.
  - left. simpl. split; [reflexivity|split; [exact Hsent|]].
    exists []. rewrite app_nil_r. split; [reflexivity|].
    destruct (dict_get d (u "artist")) as [[|b0|z|x|artist|l|o]|]; constructor.
  - destruct (raises_for_status status); simpl negb.
    + left. simpl. split; [reflexivity|split; [exact Hsent|]].
      exists []. rewrite app_nil_r. split; [reflexivity|].
      destruct (dict_get d (u "artist")) as [[|b0|z|x|artist|l|o]|];
        try constructor; destruct broken; constructor.
    + destruct (can_open E path).
      2:{ right. simpl. split; [discriminate|reflexivity]. }
      destruct broken as [e|].
      * left. simpl. split; [reflexivity|split; [exact Hsent|]].
        exists []. rewrite app_nil_r. split; [reflexivity|].
        destruct (dict_get d (u "artist")) as [[|b0|z|x|artist|l|o]|]; constructor.
      * rewrite (@add_metadata_run E path album name d _
                   (concat (filter nonempty (pieces 1024%N))) _ Hn)
          by (simpl; apply dict_get_set_eq).
        destruct (mutagen_read E (concat (filter nonempty (pieces 1024%N))))
          as [t| |];
          [| |right; simpl; split; [discriminate|reflexivity]];
          (destruct (dict_get d (u "artist")) as [[|b0|z|x|artist|l|o]|] eqn:Ha;
           try (right; simpl; split; [discriminate|reflexivity]);
           left; cbv zeta; simpl fst; simpl snd; simpl tagged; simpl sent;
           split; [reflexivity|split; [exact Hsent|]];
           eexists; split; [reflexivity|];
           constructor; [|constructor];
           exists name, url, artist; simpl fst; simpl snd;
           split; [apply Htf; reflexivity|split; [reflexivity|]];
           apply four_tags_get).
Qed.

(** The loop of [download_playlist] on any list, from position [k0] on: it
    gets through some [m] of the elements, and what it saves are the tags of
    the tracks among them whose download succeeded. *)
Lemma download_loop_any (E : Env) (folder album : str) (songs : list json) :
  forall (k0 c : nat) (w : World),
    List.length (sent w) = c + k0 ->
    let run := for_each (enumerate (Z.of_nat k0 + 1) songs)
                 (fun '(index, song) => download_song E folder album index song) w in
    exists m new,
      m <= List.length songs
      /\ tagged (snd run) = tagged w ++ new
      /\ Forall2 (tagged_as folder album) new
           (filter (download_ok E c) (positions k0 (firstn m songs)))
      /\ (fst run = Ret tt -> m = List.length songs).
Proof.
  induction songs as [|song songs IH]; intros k0 c w Hlen run.
  - exists 0, []. simpl. rewrite app_nil_r. repeat split; constructor.
  - subst run. simpl for_each. unfold bind.
    destruct (@download_song_any E folder album song k0 c w Hlen)
      as [(Hret & Hsent & new1 & Hnew1 & Hall1)|(Hno & Hsame)].
    + destruct (download_song E folder album (Z.of_nat k0 + 1) song w) as [r w1].
      simpl in Hret, Hsent, Hnew1. subst r.
      replace (Z.of_nat k0 + 1 + 1)%Z with (Z.of_nat (S k0) + 1)%Z by lia.
      destruct (IH (S k0) c w1) as (m & new & Hm & Hnew & Hall & Hdone).
      { rewrite Hsent; lia. }
      exists (S m), (new1 ++ new). split; [simpl; lia|]. split; [|split].
      * rewrite Hnew, Hnew1, app_assoc. reflexivity.
      * unfold positions in *. simpl firstn. simpl List.length. simpl seq.
        simpl combine.
        change ((k0, song) :: combine (seq (S k0) (List.length (firstn m songs)))
                                (firstn m songs))
          with ([(k0, song)] ++ combine (seq (S k0) (List.length (firstn m songs)))
                                  (firstn m songs)).
        rewrite filter_app. apply Forall2_app; assumption.
      * intros Hr. simpl. f_equal. apply Hdone. exact Hr.
    + destruct (download_song E folder album (Z.of_nat k0 + 1) song w) as [r w1].
      simpl in Hno, Hsame.
      exists 0, []. split; [simpl; lia|]. rewrite app_nil_r.
      destruct r as [[]| | |]; simpl; try contradiction; repeat split;
        try exact Hsame; try constructor; discriminate.
Qed.

(** C5.  Whatever the list and the environment, every tag that
    [download_playlist] saves is that of a track of the list whose own
    download succeeded, in the order of the list, and the track at the
    1-based position [i] is saved with track number [str(i)]: the request
    for position [i] is the i-th of the loop whether or not the earlier
    downloads succeeded, and a track whose download fails is not tagged.
    When moreover every element is a track, the folder can be made, files
    opened and downloaded audio read by the tag library, the loop goes
    through the whole list, one request for each track, and returns. *)
Theorem download_playlist_spec (E : Env) (songs : list json) (album : str) (w : World) :
  let folder := path_join (u "downloads") album in
  let run := download_playlist E (JArr songs) album w in
  (exists m new,
      m <= List.length songs
      /\ tagged (snd run) = tagged w ++ new
      /\ Forall2 (tagged_as folder album) new
           (filter (download_ok E (List.length (sent w))) (positions 0 (firstn m songs)))
      /\ (fst run = Ret tt -> m = List.length songs))
  /\ (Forall is_track songs ->
      can_makedirs E folder = true ->
      (forall p, can_open E p = true) ->
      (forall b, mutagen_read E b <> Unreadable) ->
      fst run = Ret tt
      /\ List.length (sent (snd run)) = List.length (sent w) + List.length songs).
Proof.
  intros folder run. subst run. unfold download_playlist, makedirs. fold folder.
  split.
  - destruct (can_makedirs E folder).
    + set (w0 := MkWorld (stdin w) (stdout w) (sent w) (files w)
                   (dirs w ++ [folder]) (tagged w)).
      destruct (@download_loop_any E folder album songs 0 (List.length (sent w)) w0)
        as (m & new & Hm & Hnew & Hall & Hdone).
      { simpl; lia. }
      exists m, new. unfold bind at 1. fold w0. unfold bind at 1.
      simpl py_iter. unfold ret at 1.
      split; [exact Hm|split; [exact Hnew|split; [exact Hall|exact Hdone]]].
    + exists 0, []. simpl. rewrite app_nil_r.
      split; [lia|split; [reflexivity|split; [constructor|discriminate]]].
  - intros Htracks Hmk Hopen Hread. rewrite Hmk.
    set (w0 := MkWorld (stdin w) (stdout w) (sent w) (files w)
                 (dirs w ++ [folder]) (tagged w)).
    destruct (@download_loop_spec E folder album songs Hopen Hread Htracks 0
                (List.length (sent w)) w0)
      as (w' & Hloop & Hlen & _).
    { simpl; lia. }
    match goal with
    | |- fst ?r = _ /\ _ => assert (Hrun : r = (Ret tt, w')) by exact Hloop
    end.
    rewrite Hrun. cbn [fst snd]. split; [reflexivity|lia].
Qed.

(** C5 on three tracks of which the second fails to download: the loop
    returns, and the first and the third are tagged, with track numbers 1
    and 3. *)
Lemma download_playlist_spec_witness :
  let run := download_playlist env_second_fails (JArr three_songs) (u "A") (world_of []) in
  fst run = Ret tt
  /\ map (fun e => (fst e, dict_get (snd e) (u "tracknumber"))) (tagged (snd run))
     = [(u "downloads/A/Song1.mp3", Some (u "1"));
        (u "downloads/A/Song3.mp3", Some (u "3"))].
Proof.
  pose proof (@download_playlist_spec env_second_fails three_songs (u "A") (world_of []))
    as H. cbv zeta in H. cbv zeta.
  remember (download_playlist env_second_fails (JArr three_songs) (u "A") (world_of []))
    as run eqn:Hrun.
  destruct H as ((m & new & Hm & Hnew & Hall & Hdone) & Hcomplete).
  destruct Hcomplete as (Hret & _).
  - repeat constructor; discriminate.
  - reflexivity.
  - reflexivity.
  - discriminate.
  - split; [exact Hret|].
    rewrite (Hdone Hret) in Hall.
    assert (Hf : filter (download_ok env_second_fails (List.length (sent (world_of []))))
                   (positions 0 (firstn (List.length three_songs) three_songs))
                 = [(0, song "Song1" "/s1.mp3" "X"); (2, song "Song3" "/s3.mp3" "Z")])
      by (vm_compute; reflexivity).
    rewrite Hf in Hall.
    change (tagged (world_of []) ++ new) with new in Hnew. rewrite Hnew.
    clear Hrun Hnew Hdone Hret Hm Hf.
    inversion Hall as [|e1 p1 l1 l1' H1 Hall1]; subst.
    inversion Hall1 as [|e3 p3 l3 l3' H3 Hall3]; subst.
    inversion Hall3; subst.
    destruct H1 as (n1 & u1 & a1 & Hf1 & Hp1 & _ & _ & _ & Hn1).
    destruct H3 as (n3 & u3 & a3 & Hf3 & Hp3 & _ & _ & _ & Hn3).
    vm_compute in Hf1; injection Hf1 as <- <- <-.
    vm_compute in Hf3; injection Hf3 as <- <- <-.
    destruct e1 as [path1 audio1], e3 as [path3 audio3].
    cbn [fst snd map] in *. rewrite Hp1, Hn1, Hp3, Hn3.
    vm_compute. reflexivity.
Defined.

(* ================================================================== *)
(** ** The single-track branch of [main] *)

Lemma keeps_ret {A} (a : A) : keeps_tagged (ret a).
Proof. intros w; reflexivity. Qed.

Lemma keeps_raise {A} (e : exn) : keeps_tagged (@raise A e).
Proof. intros w; reflexivity. Qed.

Lemma keeps_unmodelled {A} : keeps_tagged (@unmodelled A).
Proof. intros w; reflexivity. Qed.

Lemma keeps_bind {A B} (c : M A) (k : A -> M B) :
  keeps_tagged c -> (forall a, keeps_tagged (k a)) -> keeps_tagged (bind c k).
Proof.
  intros Hc Hk w. unfold bind. specialize (Hc w).
  destruct (c w) as [[a| | |] w1]; simpl in *; try exact Hc.
  now rewrite Hk.
Qed.

Lemma keeps_print (o : out) : keeps_tagged (print o).
Proof. intros w; reflexivity. Qed.

Lemma keeps_getitem (d : json) (k : str) : keeps_tagged (getitem d k).
Proof.
  intros w. destruct d; try reflexivity. simpl.
  destruct (dict_get d k); reflexivity.
Qed.

Lemma keeps_as_str (v : json) : keeps_tagged (as_str v).
Proof. intros w; destruct v; reflexivity. Qed.

Lemma keeps_py_iter (v : json) : keeps_tagged (py_iter v).
Proof. intros w; destruct v; reflexivity. Qed.

Lemma keeps_list_and_select (E : Env) {V} (options : pydict V) :
  keeps_tagged (list_and_select E options).
Proof.
  intros w. rewrite list_and_select_unfold.
  destruct (select_loop E options (dict_keys options) (stdin w)) as [[o r] unread].
  reflexivity.
Qed.

Lemma keeps_makedirs (E : Env) (folder : str) : keeps_tagged (makedirs E folder).
Proof. intros w. unfold makedirs. destruct (can_makedirs E folder); reflexivity. Qed.

Lemma keeps_download_mp3 (E : Env) (url : json) (path : str) :
  keeps_tagged (download_mp3 E url path).
Proof.
  intros w. destruct url as [|b|z|x|url|l|d]; try reflexivity.
  rewrite download_mp3_run.
  destruct (net E (List.length (sent w)) (download_request url))
    as [e|status pieces [e|]]; [reflexivity| |];
    destruct (raises_for_status status); try reflexivity;
    destruct (can_open E path); reflexivity.
Qed.

Lemma keeps_song_urls_of (songs : list json) (acc : pydict json) :
  keeps_tagged (song_urls_of songs acc).
Proof.
  revert acc; induction songs as [|song songs IH]; intros acc; simpl.
  - apply keeps_ret.
  - apply keeps_bind; [apply keeps_getitem|intros name].
    apply keeps_bind; [apply keeps_getitem|intros url].
    apply keeps_bind; [apply keeps_as_str|intros n]. apply IH.
Qed.

Lemma keeps_next_named (songs : list json) (name : str) :
  keeps_tagged (next_named songs name).
Proof.
  induction songs as [|song songs IH]; simpl.
  - apply keeps_raise.
  - apply keeps_bind; [apply keeps_getitem|intros v].
    destruct (json_eqb v (JStr name)); [apply keeps_ret|exact IH].
Qed.

(** The call of [add_metadata] in the single-track branch passes two
    positional arguments and the track number: the third parameter,
    [song_data], gets no value. *)
Lemma call_add_metadata_three (E : Env) (file_path : str) (song_data : json) (index : Z) :
  call_add_metadata E [JStr file_path; song_data] [("track_number"%string, JInt index)]
  = raise (TypeError (MissingArgument "add_metadata" "song_data")).
Proof. reflexivity. Qed.

Lemma keeps_download_one (E : Env) (playlist : json) (album : str) :
  keeps_tagged (download_one E playlist album).
Proof.
  unfold download_one.
  apply keeps_bind; [apply keeps_py_iter|intros songs].
  apply keeps_bind; [apply keeps_song_urls_of|intros song_urls].
  apply keeps_bind; [apply keeps_list_and_select|intros [selected_song song_name]].
  apply keeps_bind; [apply keeps_makedirs|intros made].
  apply keeps_bind; [apply keeps_download_mp3|intros ok].
  apply keeps_bind; [|intros done; apply keeps_print].
  destruct ok; [|apply keeps_ret].
  apply keeps_bind; [apply keeps_next_named|intros song_data].
  destruct (list_index songs song_data); [|apply keeps_raise].
  rewrite call_add_metadata_three. apply keeps_raise.
Qed.

(** C1 fails on the code.  The single-track branch never tags a file: its
    call of [add_metadata] leaves out the album, so that binding the
    arguments raises TypeError before the body runs.  On a site with one
    chant, one album and two songs, choosing the first song downloads the
    file and then ends in that TypeError with no tags saved, while the bulk
    mode on the same site tags both files. *)
Theorem download_one_never_tags :
  (forall E playlist album w,
      tagged (snd (download_one E playlist album w)) = tagged w)
  /\ (forall E file_path song_data index,
         call_add_metadata E [JStr file_path; song_data]
           [("track_number"%string, JInt index)]
         = raise (TypeError (MissingArgument "add_metadata" "song_data")))
  /\ (let run := main env_site (world_of [u "0"; u "0"; u "n"; u "0"]) in
      fst run = Raise (TypeError (MissingArgument "add_metadata" "song_data"))
      /\ tagged (snd run) = []
      /\ files (snd run)
         = [(u "downloads/Album1/Song1.mp3", MkFile (encode_ascii (u "ID3audio")) None)])
  /\ (let run := main env_site (world_of [u "0"; u "0"; u "y"]) in
      fst run = Ret tt
      /\ map (fun e => (fst e, dict_get (snd e) (u "tracknumber"))) (tagged (snd run))
         = [(u "downloads/Album1/Song1.mp3", Some (u "1"));
            (u "downloads/Album1/Song2.mp3", Some (u "2"))]).
Proof.
  split; [|split; [|split]].
  - intros E playlist album w. apply keeps_download_one.
  - intros; apply call_add_metadata_three.
  - vm_compute. repeat split.
  - vm_compute. repeat split.
Qed.

(* ================================================================== *)
(** ** Further properties: the menus *)

Lemma find_app_last {A} (f : A -> bool) (l : list A) (x : A) :
  find f (l ++ [x])
  = match find f l with
    | Some y => Some y
    | None => if f x then Some x else None
    end.
Proof.
  induction l as [|a l IH]; simpl; [reflexivity|].
  destruct (f a); [reflexivity|exact IH].
Qed.

Lemma find_map {A B} (f : B -> bool) (g : A -> B) (l : list A) :
  find f (map g l) = option_map g (find (fun a => f (g a)) l).
Proof.
  induction l as [|a l IH]; simpl; [reflexivity|].
  destruct (f (g a)); [reflexivity|exact IH].
Qed.

(** Looking up a key after a run of assignments: the last assignment to the
    key, or what the dict held before. *)
Lemma dict_get_fold {V} (l : list (str * V)) (d : pydict V) (k : str) :
  dict_get (fold_left (fun d kv => dict_set d (fst kv) (snd kv)) l d) k
  = match find (fun kv => str_eqb (fst kv) k) (rev l) with
    | Some kv => Some (snd kv)
    | None => dict_get d k
    end.
Proof.
  revert d; induction l as [|[k0 v0] l IH]; intros d; simpl; [reflexivity|].
  rewrite IH, find_app_last. simpl.
  destruct (find (fun kv => str_eqb (fst kv) k) (rev l)); [reflexivity|].
  destruct (str_eqb k0 k) eqn:Hk.
  - apply str_eqb_eq in Hk; subst k0. apply dict_get_set_eq.
  - apply dict_get_set_neq. now apply str_eqb_neq.
Qed.

Lemma options_of_get (html title : str) :
  dict_get (options_of html) title = href_of html title.
Proof.
  unfold options_of, dict_of_pairs, href_of.
  rewrite dict_get_fold, <- map_rev, find_map. simpl.
  destruct (find (fun m => str_eqb (anchor_title html m) title) (rev (anchors html)));
    reflexivity.
Qed.

(** [get_options] on the option pattern, by what [get_page] does. *)
Lemma get_options_run (E : Env) (url : str) (w : World) :
  get_options E url chant_pattern w
  = match get_page E url w with
    | (Ret html, w1) =>
        match anchors html with
        | [] => (Raise (RuntimeError NoResults), w1)
        | _ :: _ => (Ret (options_of html), w1)
        end
    | (Raise e, w1) => (Raise e, w1)
    | (Await, w1) => (Await, w1)
    | (Unmodelled, w1) => (Unmodelled, w1)
    end.
Proof.
  unfold get_options, bind.
  destruct (get_page E url w) as [[html| | |] w1]; try reflexivity.
  rewrite findall_chant_pattern. unfold options_of.
  destruct (anchors html) as [|m l]; [reflexivity|].
  set (f := fun m => FTuple [anchor_href html m; anchor_title html m]).
  change (map f (m :: l)) with (f m :: map f l) at 1. cbv iota.
  unfold f. rewrite (unpack_all_tuples E). unfold ret. now rewrite map_map.
Qed.

Lemma get_page_served (E : Env) (url html : str) (w : World) :
  served E (List.length (sent w)) url = Some html ->
  get_page E url w = (Ret html, sending (page_request url) w).
Proof.
  unfold served. rewrite get_page_run.
  destruct (net E (List.length (sent w)) (page_request url))
    as [e|status pieces [e|]]; try discriminate.
  destruct (raises_for_status status); [discriminate|].
  now intros ->.
Qed.

(** How [get_page] can end, and the one request it makes. *)
Lemma get_page_ends (E : Env) (url : str) (w : World) :
  snd (get_page E url w) = sending (page_request url) w
  /\ ((exists html, fst (get_page E url w) = Ret html
                    /\ served E (List.length (sent w)) url = Some html)
      \/ (exists e, fst (get_page E url w) = Raise (RuntimeError (FailedToRetrieve e)))
      \/ fst (get_page E url w) = Raise UnicodeDecodeError).
Proof.
  rewrite get_page_run. unfold served.
  destruct (net E (List.length (sent w)) (page_request url))
    as [e|status pieces [e|]]; simpl.
  - split; [reflexivity|]. right; left; eexists; reflexivity.
  - split; [reflexivity|]. right; left; eexists; reflexivity.
  - destruct (raises_for_status status); simpl.
    + split; [reflexivity|]. right; left; eexists; reflexivity.
    + destruct (utf8_decode (concat (pieces CONTENT_CHUNK_SIZE))) as [text|]; simpl.
      * split; [reflexivity|]. left; exists text; split; reflexivity.
      * split; [reflexivity|]. right; right; reflexivity.
Qed.

(** X1.  In the mapping [get_options] returns, every title is bound to the
    link of the last anchor of the page that carries it: a later anchor with
    the same title replaces the link of an earlier one.  A text that is the
    title of no anchor is not a key. *)
Theorem get_options_last_link (E : Env) (url : str) (w w1 : World) (html : str) :
  get_page E url w = (Ret html, w1) ->
  anchors html <> [] ->
  exists d,
    get_options E url chant_pattern w = (Ret d, w1)
    /\ (forall title, dict_get d title = href_of html title)
    /\ (forall title, ~ In title (titles html) -> dict_get d title = None)
    /\ (forall title href, dict_get d title = Some href ->
          exists m, In m (anchors html)
                    /\ anchor_title html m = title /\ anchor_href html m = href).
Proof.
  intros Hpage Hne. exists (options_of html).
  split; [|split; [exact (options_of_get html)|split]].
  - rewrite get_options_run, Hpage.
    destruct (anchors html); [contradiction|reflexivity].
  - intros title Hnot. rewrite options_of_get. unfold href_of.
    destruct (find (fun m => str_eqb (anchor_title html m) title) (rev (anchors html)))
      as [m|] eqn:Hf; [|reflexivity].
    apply find_some in Hf. destruct Hf as [Hin Heq].
    apply str_eqb_eq in Heq. exfalso; apply Hnot.
    unfold titles. rewrite <- Heq. apply in_map. now apply in_rev.
  - intros title href. rewrite options_of_get. unfold href_of.
    destruct (find (fun m => str_eqb (anchor_title html m) title) (rev (anchors html)))
      as [m|] eqn:Hf; [|discriminate].
    simpl. intros H; injection H as <-.
    apply find_some in Hf. destruct Hf as [Hin Heq].
    apply str_eqb_eq in Heq.
    exists m. split; [now apply in_rev|split; [exact Heq|reflexivity]].
Qed.

(** X1 at the page with two anchors of one title. *)
Lemma get_options_last_link_witness :
  exists d,
    get_options (serving page_same_title) chants_url chant_pattern (world_of [])
    = (Ret d, sending (page_request chants_url) (world_of []))
    /\ dict_get d (u "T") = Some (u "/b").
Proof.
  destruct (@get_options_last_link (serving page_same_title) chants_url (world_of [])
              (sending (page_request chants_url) (world_of [])) page_same_title)
    as (d & Hd & Hget & _).
  - vm_compute; reflexivity.
  - vm_compute; discriminate.
  - exists d. split; [exact Hd|]. rewrite Hget. vm_compute; reflexivity.
Defined.

(** X2.  However it ends, [get_options] on the option pattern makes exactly
    one request, the page request for its URL with the timeout of 10 s, and
    touches nothing else: it prints nothing, reads no input, writes no file.
    It ends in one of three ways only: with a mapping that is not empty, with
    a RuntimeError, or with the UnicodeDecodeError of a body that is not
    UTF-8; unpacking the matches never fails. *)
Theorem get_options_effects (E : Env) (url : str) (w : World) :
  let run := get_options E url chant_pattern w in
  snd run = sending (page_request url) w
  /\ rq_timeout (page_request url) = Some 10%Z
  /\ ((exists d, fst run = Ret d /\ d <> [])
      \/ (exists m, fst run = Raise (RuntimeError m))
      \/ fst run = Raise UnicodeDecodeError).
Proof.
  cbv zeta. rewrite get_options_run.
  destruct (get_page_ends E url w) as [Hw Hr].
  destruct (get_page E url w) as [r w1]. simpl in Hw, Hr. subst w1.
  destruct Hr as [(html & -> & _)|[(e & ->)| ->]].
  - destruct (anchors html) as [|m l] eqn:Ha; simpl.
    + split; [reflexivity|split; [reflexivity|]]. right; left; eexists; reflexivity.
    + split; [reflexivity|split; [reflexivity|]]. left.
      exists (options_of html). split; [reflexivity|].
      unfold options_of. rewrite Ha. apply dict_of_pairs_not_nil.
  - simpl. split; [reflexivity|split; [reflexivity|]]. right; left; eexists; reflexivity.
  - simpl. split; [reflexivity|split; [reflexivity|]]. right; right; reflexivity.
Qed.

Lemma dict_get_key {V} (d : pydict V) (k : str) :
  In k (dict_keys d) -> exists v, dict_get d k = Some v.
Proof.
  induction d as [|[k' v'] d IH]; simpl; [tauto|].
  intros [->|H].
  - rewrite str_eqb_refl; eauto.
  - destruct (str_eqb k' k); eauto.
Qed.

Lemma dict_get_In {V} (d : pydict V) (k : str) (v : V) :
  dict_get d k = Some v -> In (k, v) d.
Proof.
  induction d as [|[k' v'] d IH]; simpl; [discriminate|].
  destruct (str_eqb k' k) eqn:Hk; [|auto].
  apply str_eqb_eq in Hk; subst k'. intros H; injection H as ->. now left.
Qed.

(** However the loop of [list_and_select] ends on the keys of its mapping,
    it has read a prefix of the lines, and it ends with a binding of the
    mapping, with SystemExit, or waiting at the end of the lines. *)
Lemma select_loop_ends (E : Env) {V} (options : pydict V) (lines : list str) :
  forall o r unread,
    select_loop E options (dict_keys options) lines = (o, r, unread) ->
    (exists n, unread = skipn n lines)
    /\ (exists said, o = shown options ++ said)
    /\ ((exists value key, r = Ret (value, key) /\ dict_get options key = Some value)
        \/ r = Raise SystemExit
        \/ (r = Await /\ unread = [])).
Proof.
  induction lines as [|line rest IH]; intros o r unread; simpl.
  - intros H; injection H as <- <- <-.
    split; [exists 0; reflexivity|]. split; [exists []; now rewrite app_nil_r|].
    right; right; split; reflexivity.
  - destruct (str_eqb (lower line) (u "q")).
    { intros H; injection H as <- <- <-.
      split; [exists 1; reflexivity|]. split; [exists []; now rewrite app_nil_r|].
      right; left; reflexivity. }
    destruct (select_loop E options (dict_keys options) rest) as [[o' r'] unread'].
    destruct (IH _ _ _ eq_refl) as ((n & Hn) & _ & Hr).
    assert (Hagain : forall said,
               (menu (dict_keys options) ++ [AskSelection] ++ said :: o', r', unread')
               = (o, r, unread) ->
               (exists n, unread = skipn n (line :: rest))
               /\ (exists said, o = shown options ++ said)
               /\ ((exists value key,
                       r = Ret (value, key) /\ dict_get options key = Some value)
                   \/ r = Raise SystemExit
                   \/ (r = Await /\ unread = []))).
    { intros said H; injection H as <- <- <-.
      split; [exists (S n); exact Hn|].
      split; [exists (said :: o'); unfold shown; now rewrite <- app_assoc|exact Hr]. }
    destruct (py_int E line) as [i|].
    2:{ rewrite <- app_assoc. apply Hagain. }
    destruct (Z.leb_spec 0 i) as [H0|H0]; simpl andb.
    2:{ rewrite <- app_assoc. apply Hagain. }
    destruct (Z.ltb_spec i (Z.of_nat (List.length (dict_keys options)))) as [H1|H1].
    2:{ rewrite <- app_assoc. apply Hagain. }
    destruct (nth_error (dict_keys options) (Z.to_nat i)) as [key|] eqn:Hk.
    + destruct (dict_get_key options key) as [value Hv].
      { eapply nth_error_In; exact Hk. }
      rewrite Hv. intros H; injection H as <- <- <-.
      split; [exists 1; reflexivity|]. split; [exists []; now rewrite app_nil_r|].
      left; exists value, key; split; [reflexivity|exact Hv].
    + apply nth_error_None in Hk. lia.
Qed.

(** X3.  However [list_and_select] ends, it has only read lines and written
    to the terminal: no request, no file, no folder, no tag.  It ends in one
    of three ways only: returning a (value, key) pair that is a binding of
    the mapping; with SystemExit; or waiting for a line when all lines are
    read.  Looking up the chosen key never fails. *)
Theorem list_and_select_ends (E : Env) (V : Type) (options : pydict V) (w : World) :
  let run := list_and_select E options w in
  (sent (snd run) = sent w /\ files (snd run) = files w
   /\ dirs (snd run) = dirs w /\ tagged (snd run) = tagged w)
  /\ (exists n, stdin (snd run) = skipn n (stdin w))
  /\ (exists said, stdout (snd run) = stdout w ++ shown options ++ said)
  /\ ((exists value key,
          fst run = Ret (value, key)
          /\ dict_get options key = Some value /\ In (key, value) options)
      \/ fst run = Raise SystemExit
      \/ (fst run = Await /\ stdin (snd run) = [])).
Proof.
  cbv zeta. rewrite list_and_select_unfold.
  destruct (select_loop E options (dict_keys options) (stdin w)) as [[o r] unread] eqn:Hl.
  destruct (select_loop_ends E options _ Hl) as (Hn & (said & ->) & Hr).
  simpl. split; [repeat split|]. split; [exact Hn|].
  split; [exists said; reflexivity|].
  destruct Hr as [(value & key & -> & Hv)|[->|[-> ->]]].
  - left; exists value, key. split; [reflexivity|split; [exact Hv|]].
    now apply dict_get_In.
  - right; left; reflexivity.
  - right; right; split; reflexivity.
Qed.

Lemma undecided_inv (E : Env) (count : nat) (line : str) :
  undecided E count line = true ->
  is_quit line = false /\ picks E count line = None.
Proof.
  unfold undecided. intros H; apply andb_prop in H as [Hq Hp].
  split; [now destruct (is_quit line)|].
  now destruct (picks E count line).
Qed.

(** One pass of the loop on an undecided line. *)
Lemma select_loop_undecided (E : Env) {V} (options : pydict V) (line : str)
    (rest : list str) :
  undecided E (List.length options) line = true ->
  select_loop E options (dict_keys options) (line :: rest)
  = (let '(o, r, unread) := select_loop E options (dict_keys options) rest in
     (shown options ++ complaint E (List.length options) line :: o, r, unread)).
Proof.
  intros Hu. apply undecided_inv in Hu as [Hq Hp].
  assert (Hcount : List.length (dict_keys options) = List.length options).
  { unfold dict_keys. apply length_map. }
  simpl. rewrite lower_is_q, Hq, Hcount.
  unfold picks, complaint in *.
  destruct (py_int E line) as [i|]; [|reflexivity].
  destruct ((0 <=? i) && (i <? Z.of_nat (List.length options)))%Z;
    [discriminate|reflexivity].
Qed.

(** The loop on a run of undecided lines followed by [lines]. *)
Lemma select_loop_passes (E : Env) {V} (options : pydict V) (pre lines : list str) :
  forallb (undecided E (List.length options)) pre = true ->
  select_loop E options (dict_keys options) (pre ++ lines)
  = (let '(o, r, unread) := select_loop E options (dict_keys options) lines in
     (flat_map (fun l => shown options ++ [complaint E (List.length options) l]) pre
      ++ o, r, unread)).
Proof.
  induction pre as [|l pre IH]; intros Hpre.
  - simpl app. destruct (select_loop E options (dict_keys options) lines) as [[o r] unread].
    reflexivity.
  - simpl in Hpre. apply andb_prop in Hpre as [Hl Hpre].
    change ((l :: pre) ++ lines) with (l :: (pre ++ lines)).
    rewrite (@select_loop_undecided E V options l (pre ++ lines) Hl), (IH Hpre).
    destruct (select_loop E options (dict_keys options) lines) as [[o r] unread].
    simpl flat_map. rewrite <- !app_assoc. reflexivity.
Qed.

(** A whole call of [list_and_select] on lines of which the first that is
    not undecided selects entry [i]. *)
Lemma list_and_select_picks (E : Env) {V} (options : pydict V) (pre : list str)
    (line : str) (post : list str) (i : nat) (key : str) (value : V) (w : World) :
  stdin w = pre ++ line :: post ->
  forallb (undecided E (List.length options)) pre = true ->
  is_quit line = false ->
  picks E (List.length options) line = Some i ->
  nth_error (dict_keys options) i = Some key ->
  dict_get options key = Some value ->
  list_and_select E options w
  = (Ret (value, key), reading post (passes E options pre) w).
Proof.
  intros Hin Hpre Hq Hp Hk Hv.
  rewrite list_and_select_unfold, Hin, (@select_loop_passes E V options pre (line :: post) Hpre).
  assert (Hcount : List.length (dict_keys options) = List.length options).
  { unfold dict_keys. apply length_map. }
  simpl select_loop. rewrite lower_is_q, Hq, Hcount.
  unfold picks in Hp.
  destruct (py_int E line) as [z|]; [|discriminate].
  destruct ((0 <=? z) && (z <? Z.of_nat (List.length options)))%Z; [|discriminate].
  injection Hp as ->. rewrite Hk, Hv. reflexivity.
Qed.

Lemma list_and_select_quits (E : Env) {V} (options : pydict V) (pre : list str)
    (line : str) (post : list str) (w : World) :
  stdin w = pre ++ line :: post ->
  forallb (undecided E (List.length options)) pre = true ->
  is_quit line = true ->
  list_and_select E options w
  = (Raise SystemExit, reading post (passes E options pre) w).
Proof.
  intros Hin Hpre Hq.
  rewrite list_and_select_unfold, Hin, (@select_loop_passes E V options pre (line :: post) Hpre).
  simpl select_loop. rewrite lower_is_q, Hq. reflexivity.
Qed.

(** X4.  [list_and_select] ends at the first line that is a quit token or
    selects an entry; every line before it gets one menu, one prompt and one
    message, and is otherwise ignored.  So after any number of undecided
    lines: a quit token ends the process; a line that selects entry [i]
    returns the key at position [i] and its value, and the lines after it
    are left unread; and when the lines run out, the menu is shown once more
    and the loop waits. *)
Theorem list_and_select_first_decisive (E : Env) (V : Type) (options : pydict V)
    (pre : list str) (w : World) :
  forallb (undecided E (List.length options)) pre = true ->
  (stdin w = pre ->
   list_and_select E options w = (Await, reading [] (passes E options pre) w))
  /\ (forall line post,
         stdin w = pre ++ line :: post ->
         is_quit line = true ->
         list_and_select E options w
         = (Raise SystemExit, reading post (passes E options pre) w))
  /\ (forall line post i key value,
         stdin w = pre ++ line :: post ->
         is_quit line = false ->
         picks E (List.length options) line = Some i ->
         nth_error (dict_keys options) i = Some key ->
         dict_get options key = Some value ->
         list_and_select E options w
         = (Ret (value, key), reading post (passes E options pre) w)).
Proof.
  intros Hpre. split; [|split].
  - intros Hin. rewrite list_and_select_unfold, Hin.
    rewrite <- (app_nil_r pre) at 1.
    rewrite (@select_loop_passes E V options pre [] Hpre). reflexivity.
  - intros line post Hin Hq. now apply list_and_select_quits with (line := line).
  - intros line post i key value Hin Hq Hp Hk Hv.
    now apply list_and_select_picks with (line := line) (i := i).
Qed.

(** X4 on a menu of two albums and the lines x, 9, 1, 0: two messages, then
    the second album, and the last line is left unread. *)
Lemma list_and_select_first_decisive_witness :
  list_and_select (env_of (fun _ => Failed []))
    [(u "Album1", u "/a1"); (u "Album2", u "/a2")]
    (world_of [u "x"; u "9"; u "1"; u "0"])
  = (Ret (u "/a2", u "Album2"),
     MkWorld [u "0"]
       [MenuLine 0 (u "Album1"); MenuLine 1 (u "Album2"); AskSelection; SayInvalid;
        MenuLine 0 (u "Album1"); MenuLine 1 (u "Album2"); AskSelection; SayRange 1;
        MenuLine 0 (u "Album1"); MenuLine 1 (u "Album2"); AskSelection]
       [] [] [] []).
Proof.
  apply (proj2 (proj2 (@list_and_select_first_decisive (env_of (fun _ => Failed [])) str
                         [(u "Album1", u "/a1"); (u "Album2", u "/a2")]
                         [u "x"; u "9"] (world_of [u "x"; u "9"; u "1"; u "0"])
                         eq_refl))
           (u "1") [u "0"] 1 (u "Album2") (u "/a2"));
    reflexivity.
Defined.

(* ================================================================== *)
(** ** Further properties: downloading and tagging *)

(** How [download_mp3] can end on a URL that is a string, and what it has
    touched then. *)
Lemma download_mp3_ends (E : Env) (url path : str) (w : World) :
  let run := download_mp3 E (JStr url) path w in
  (sent (snd run) = sent w ++ [download_request url]
   /\ stdin (snd run) = stdin w /\ dirs (snd run) = dirs w
   /\ tagged (snd run) = tagged w)
  /\ (forall other, path <> other ->
        dict_get (files (snd run)) other = dict_get (files w) other)
  /\ ((fst run = Ret true /\ stdout (snd run) = stdout w)
      \/ (exists e, fst run = Ret false
                    /\ stdout (snd run) = stdout w ++ [SayDownloadError path e])
      \/ (fst run = Raise OSError /\ can_open E path = false
          /\ stdout (snd run) = stdout w /\ files (snd run) = files w)).
Proof.
  cbv zeta. rewrite download_mp3_run. cbv zeta.
  destruct (net E (List.length (sent w)) (download_request url))
    as [e|status pieces broken].
  - simpl. split; [repeat split|]. split; [reflexivity|].
    right; left; eexists; split; reflexivity.
  - destruct (raises_for_status status).
    + simpl. split; [repeat split|]. split; [reflexivity|].
      right; left; eexists; split; reflexivity.
    + destruct (can_open E path) eqn:Hopen.
      * destruct broken as [e|]; simpl.
        -- split; [repeat split|]. split; [intros; now apply dict_get_set_neq|].
           right; left; eexists; split; reflexivity.
        -- split; [repeat split|]. split; [intros; now apply dict_get_set_neq|].
           left; split; reflexivity.
      * simpl. split; [repeat split|]. split; [reflexivity|].
        right; right; repeat split.
Qed.




Lemma open_tags_existing (E : Env) (path : str) (f : file) (w : World) :
  dict_get (files w) path = Some f ->
  open_tags E path w
  = match existing_tags E f with
    | Some t => (Ret t, w)
    | None => (Raise MutagenError, w)
    end.
Proof.
  intros Hfile. unfold open_tags, existing_tags, bind, get_files. rewrite Hfile.
  cbv beta iota.
  destruct (f_saved f); [reflexivity|].
  destruct (mutagen_read E (f_body f)); reflexivity.
Qed.

(** [add_metadata] on a file that exists, by what the file and the song
    hold. *)
Lemma add_metadata_any (E : Env) (path album : str) (d : pydict json)
    (index : Z) (f : file) (w : World) :
  dict_get (files w) path = Some f ->
  add_metadata E path (JStr album) (JObj d) index w
  = match existing_tags E f with
    | None => (Raise MutagenError, w)
    | Some base =>
        match dict_get d (u "name") with
        | None => (Raise (KeyError (u "name")), w)
        | Some (JStr name) =>
            match dict_get d (u "artist") with
            | None => (Raise (KeyError (u "artist")), w)
            | Some (JStr artist) =>
                let audio := four_tags base name album artist index in
                (Ret tt,
                 MkWorld (stdin w) (stdout w) (sent w)
                   (dict_set (files w) path (MkFile (f_body f) (Some audio)))
                   (dirs w) (tagged w ++ [(path, audio)]))
            | Some _ => (Unmodelled, w)
            end
        | Some _ => (Unmodelled, w)
        end
    end.
Proof.
  intros Hfile. unfold add_metadata. unfold bind at 1.
  rewrite (@open_tags_existing E path f w Hfile).
  destruct (existing_tags E f) as [base|]; [|reflexivity].
  unfold bind at 1; unfold getitem at 1.
  destruct (dict_get d (u "name")) as [[|b0|z|x|name|l|o]|]; try reflexivity.
  unfold ret at 1; unfold bind at 1; unfold as_str at 1; unfold ret at 1.
  unfold bind at 1; unfold as_str at 1; unfold ret at 1.
  unfold bind at 1; unfold getitem at 1.
  destruct (dict_get d (u "artist")) as [[|b0|z|x|artist|l|o]|]; try reflexivity.
  unfold ret at 1; unfold bind at 1; unfold as_str at 1; unfold ret at 1.
  unfold save_tags; rewrite Hfile; reflexivity.
Qed.

Lemma four_tags_other (base : tags) (name album artist : str) (index : Z) (k : str) :
  assigned_key k = false ->
  dict_get (four_tags base name album artist index) k = dict_get base k.
Proof.
  unfold assigned_key. intros H.
  apply orb_false_elim in H as [H H4]. apply orb_false_elim in H as [H H3].
  apply orb_false_elim in H as [H1 H2].
  apply str_eqb_neq in H1, H2, H3, H4.
  unfold four_tags. rewrite !dict_get_set_neq; [reflexivity| | | |]; congruence.
Qed.

(** X7.  [add_metadata] assigns four fields and keeps everything else: on a
    file that exists and that the tag library can read, with a track that
    has a name and an artist, it saves the tags the file had with the title,
    the album, the artist and the track number set to the track's name, the
    album label, the track's artist and the decimal numeral of the track
    number; every other tag of the file keeps its value, the audio bytes are
    the same, and no other part of the world changes. *)
Theorem add_metadata_keeps_other_tags (E : Env) (path album name url artist : str)
    (song : json) (index : Z) (f : file) (base : tags) (w : World) :
  track_fields song = Some (name, url, artist) ->
  dict_get (files w) path = Some f ->
  existing_tags E f = Some base ->
  exists audio,
    add_metadata E path (JStr album) song index w
    = (Ret tt,
       MkWorld (stdin w) (stdout w) (sent w)
         (dict_set (files w) path (MkFile (f_body f) (Some audio)))
         (dirs w) (tagged w ++ [(path, audio)]))
    /\ dict_get audio (u "title") = Some name
    /\ dict_get audio (u "album") = Some album
    /\ dict_get audio (u "artist") = Some artist
    /\ dict_get audio (u "tracknumber") = Some (str_of_Z index)
    /\ (forall k, assigned_key k = false -> dict_get audio k = dict_get base k).
Proof.
  intros Htf Hfile Hbase.
  apply track_fields_inv in Htf as (d & -> & Hn & _ & Ha).
  exists (four_tags base name album artist index).
  split.
  - rewrite (@add_metadata_any E path album d index f w Hfile), Hbase, Hn, Ha.
    reflexivity.
  - destruct (four_tags_get base name album artist index) as (H1 & H2 & H3 & H4).
    repeat split; try assumption. intros k Hk. now apply four_tags_other.
Qed.

(** X7 on a file that already has a genre and a title. *)
Lemma add_metadata_keeps_other_tags_witness :
  exists audio w',
    add_metadata env_audio (u "downloads/A/Song1.mp3") (JStr (u "A"))
      (song "Song1" "/s1.mp3" "X") 1
      (MkWorld [] [] []
         [(u "downloads/A/Song1.mp3",
           MkFile [] (Some [(u "genre", u "Chant"); (u "title", u "untitled")]))] [] [])
    = (Ret tt, w')
    /\ dict_get audio (u "title") = Some (u "Song1")
    /\ dict_get audio (u "genre") = Some (u "Chant")
    /\ tagged w' = [(u "downloads/A/Song1.mp3", audio)].
Proof.
  destruct (@add_metadata_keeps_other_tags env_audio (u "downloads/A/Song1.mp3") (u "A")
              (u "Song1") (u "/s1.mp3") (u "X") (song "Song1" "/s1.mp3" "X") 1
              (MkFile [] (Some [(u "genre", u "Chant"); (u "title", u "untitled")]))
              [(u "genre", u "Chant"); (u "title", u "untitled")]
              (MkWorld [] [] []
                 [(u "downloads/A/Song1.mp3",
                   MkFile [] (Some [(u "genre", u "Chant"); (u "title", u "untitled")]))]
                 [] [])
              eq_refl eq_refl eq_refl)
    as (audio & Hrun & Ht & _ & _ & _ & Hother).
  exists audio; eexists. split; [exact Hrun|]. split; [exact Ht|]. split.
  - rewrite Hother; reflexivity.
  - reflexivity.
Defined.

Lemma open_tags_keeps (E : Env) (path : str) (w : World) :
  snd (open_tags E path w) = w.
Proof.
  unfold open_tags, bind, get_files.
  destruct (dict_get (files w) path) as [f|]; [|reflexivity].
  destruct (f_saved f); [reflexivity|].
  destruct (mutagen_read E (f_body f)); reflexivity.
Qed.

Lemma getitem_keeps (d : json) (k : str) (w : World) : snd (getitem d k w) = w.
Proof.
  destruct d; try reflexivity. simpl. destruct (dict_get d k); reflexivity.
Qed.

Lemma as_str_keeps (v : json) (w : World) : snd (as_str v w) = w.
Proof. destruct v; reflexivity. Qed.

Lemma add_metadata_atomic (E : Env) (path : str) (album_data song_data : json)
    (index : Z) (w w' : World) (r : result unit) :
  add_metadata E path album_data song_data index w = (r, w') ->
  r <> Ret tt -> w' = w.
Proof.
  unfold add_metadata, bind.
  pose proof (open_tags_keeps E path w) as H0.
  destruct (open_tags E path w) as [[audio| | |] w0]; simpl in H0; subst w0;
    try (intros H _; injection H as _ <-; reflexivity).
  pose proof (getitem_keeps song_data (u "name") w) as H1.
  destruct (getitem song_data (u "name") w) as [[name| | |] w1]; simpl in H1; subst w1;
    try (intros H _; injection H as _ <-; reflexivity).
  pose proof (as_str_keeps name w) as H2.
  destruct (as_str name w) as [[title| | |] w2]; simpl in H2; subst w2;
    try (intros H _; injection H as _ <-; reflexivity).
  pose proof (as_str_keeps album_data w) as H3.
  destruct (as_str album_data w) as [[album| | |] w3]; simpl in H3; subst w3;
    try (intros H _; injection H as _ <-; reflexivity).
  pose proof (getitem_keeps song_data (u "artist") w) as H4.
  destruct (getitem song_data (u "artist") w) as [[artist| | |] w4]; simpl in H4;
    subst w4; try (intros H _; injection H as _ <-; reflexivity).
  pose proof (as_str_keeps artist w) as H5.
  destruct (as_str artist w) as [[artist'| | |] w5]; simpl in H5; subst w5;
    try (intros H _; injection H as _ <-; reflexivity).
  unfold save_tags. destruct (dict_get (files w) path) as [f|].
  - intros H Hr; injection H as <- _. contradiction.
  - intros H _; injection H as _ <-; reflexivity.
Qed.

(** X8.  [add_metadata] saves all four fields or nothing: the tags are
    written by its last step only, so that a call which does not return
    leaves the world exactly as it was.  In particular a track without a
    name, or with a name and without an artist, raises the KeyError of the
    missing key and the file keeps the tags it had. *)
Theorem add_metadata_all_or_nothing (E : Env) (path : str) (album_data song_data : json)
    (index : Z) (w : World) :
  (fst (add_metadata E path album_data song_data index w) <> Ret tt ->
   snd (add_metadata E path album_data song_data index w) = w)
  /\ (forall album d f,
         album_data = JStr album -> song_data = JObj d ->
         dict_get (files w) path = Some f ->
         existing_tags E f <> None ->
         (dict_get d (u "name") = None ->
          add_metadata E path album_data song_data index w
          = (Raise (KeyError (u "name")), w))
         /\ (forall name,
                dict_get d (u "name") = Some (JStr name) ->
                dict_get d (u "artist") = None ->
                add_metadata E path album_data song_data index w
                = (Raise (KeyError (u "artist")), w))).
Proof.
  split.
  - destruct (add_metadata E path album_data song_data index w) as [r w'] eqn:Hrun.
    simpl. intros Hr. eapply add_metadata_atomic; eassumption.
  - intros album d f -> -> Hfile Hread.
    rewrite (@add_metadata_any E path album d index f w Hfile).
    destruct (existing_tags E f) as [base|]; [|contradiction].
    split.
    + intros ->. reflexivity.
    + intros name -> ->. reflexivity.
Qed.

(** X8 on a track without an artist: KeyError, and the downloaded file
    stays untagged. *)
Lemma add_metadata_all_or_nothing_witness :
  add_metadata env_audio (u "downloads/A/Song1.mp3") (JStr (u "A")) song_no_artist 1
    (MkWorld [] [] [] [(u "downloads/A/Song1.mp3", MkFile [] None)] [] [])
  = (Raise (KeyError (u "artist")),
     MkWorld [] [] [] [(u "downloads/A/Song1.mp3", MkFile [] None)] [] []).
Proof.
  apply (proj2 (proj2 (@add_metadata_all_or_nothing env_audio (u "downloads/A/Song1.mp3")
                         (JStr (u "A")) song_no_artist 1
                         (MkWorld [] [] [] [(u "downloads/A/Song1.mp3", MkFile [] None)]
                            [] []))
                  (u "A") _ (MkFile [] None) eq_refl eq_refl eq_refl
                  ltac:(discriminate)) (u "Song1"));
    reflexivity.
Defined.

(** One pass of the loop of [download_playlist] whose download succeeds. *)
Lemma download_song_success (E : Env) (folder album name url artist : str)
    (d : pydict json) (index : Z) (w : World) (status : Z) (pieces : N -> list bytes)
    (base : tags) :
  dict_get d (u "name") = Some (JStr name) ->
  dict_get d (u "url") = Some (JStr url) ->
  dict_get d (u "artist") = Some (JStr artist) ->
  net E (List.length (sent w)) (download_request url) = Reply status pieces None ->
  raises_for_status status = false ->
  can_open E (path_join folder (name ++ u ".mp3")) = true ->
  existing_tags E (MkFile (concat (pieces 1024%N)) None) = Some base ->
  download_song E folder album index (JObj d) w
  = (Ret tt,
     MkWorld (stdin w) (stdout w) (sent w ++ [download_request url])
       (dict_set (files w) (path_join folder (name ++ u ".mp3"))
          (MkFile (concat (pieces 1024%N))
             (Some (four_tags base name album artist index))))
       (dirs w)
       (tagged w ++ [(path_join folder (name ++ u ".mp3"),
                      four_tags base name album artist index)])).
Proof.
  intros Hn Hu Ha Hnet Hst Hopen Hbase.
  rewrite (@download_song_run E folder album name url d index w Hn Hu). cbv zeta.
  rewrite download_mp3_run. cbv zeta.
  rewrite Hnet, Hst, Hopen, concat_nonempty.
  set (path := path_join folder (name ++ u ".mp3")).
  set (body := concat (pieces 1024%N)).
  rewrite (@add_metadata_any E path album d index (MkFile body None))
    by (simpl; apply dict_get_set_eq).
  fold body in Hbase. rewrite Hbase, Hn, Ha. cbv zeta. simpl.
  now rewrite dict_set_set.
Qed.

(** X9.  A pass of the loop of [download_playlist] on a track whose
    download succeeds leaves at the track's path a file that depends on the
    answer alone: its bytes are the body received, and its tags are the
    tags the tag library reads in those bytes with the four fields assigned.
    Nothing of what the path held before, bytes or tags, remains; the path
    is the track's name with the extension mp3 inside the folder. *)
Theorem download_song_file (E : Env) (folder album name url artist : str)
    (song : json) (index : Z) (w : World) (status : Z) (pieces : N -> list bytes)
    (base : tags) :
  let path := path_join folder (name ++ u ".mp3") in
  let body := concat (pieces 1024%N) in
  let audio := four_tags base name album artist index in
  track_fields song = Some (name, url, artist) ->
  net E (List.length (sent w)) (download_request url) = Reply status pieces None ->
  raises_for_status status = false ->
  can_open E path = true ->
  existing_tags E (MkFile body None) = Some base ->
  download_song E folder album index song w
  = (Ret tt,
     MkWorld (stdin w) (stdout w) (sent w ++ [download_request url])
       (dict_set (files w) path (MkFile body (Some audio)))
       (dirs w) (tagged w ++ [(path, audio)]))
  /\ dict_get (files (snd (download_song E folder album index song w))) path
     = Some (MkFile body (Some audio))
  /\ (forall k, assigned_key k = false -> dict_get audio k = dict_get base k).
Proof.
  intros path body audio Htf Hnet Hst Hopen Hbase.
  apply track_fields_inv in Htf as (d & -> & Hn & Hu & Ha).
  pose proof (@download_song_success E folder album name url artist d index w status
                pieces base Hn Hu Ha Hnet Hst Hopen Hbase) as Hrun.
  split; [exact Hrun|]. split.
  - rewrite Hrun. simpl. apply dict_get_set_eq.
  - intros k Hk. now apply four_tags_other.
Qed.

(** X9 where the destination holds an older, tagged file and the audio
    received carries a genre: the new file has the genre and the track's
    title, and nothing of the old one. *)
Lemma download_song_file_witness :
  files (snd (download_song env_genre (u "downloads/A") (u "A") 1
                (song "Song1" "/s1.mp3" "X") world_old_file))
  = [(u "downloads/A/Song1.mp3",
      MkFile (encode_ascii (u "ID3audio"))
        (Some [(u "genre", u "Chant"); (u "title", u "Song1"); (u "album", u "A");
               (u "artist", u "X"); (u "tracknumber", u "1")]))].
Proof.
  rewrite (proj1 (@download_song_file env_genre (u "downloads/A") (u "A") (u "Song1")
                    (u "/s1.mp3") (u "X") (song "Song1" "/s1.mp3" "X") 1 world_old_file
                    200 (fun _ => audio_pieces)
                    [(u "genre", u "Chant"); (u "title", u "untitled")]
                    eq_refl eq_refl eq_refl eq_refl eq_refl)).
  reflexivity.
Defined.

(** X10.  Two tracks of a playlist that have the same name share one file:
    when both downloads succeed, [download_playlist] writes the first, tags
    it, then replaces it by the second, so that in the end the file holds
    the second body with the second track's artist and the track number 2,
    while the log of saved tags has an entry for each. *)
Theorem download_playlist_same_name (E : Env) (album name url1 artist1 url2 artist2 : str)
    (song1 song2 : json) (w : World) (status1 status2 : Z)
    (pieces1 pieces2 : N -> list bytes) (base1 base2 : tags) :
  let folder := path_join (u "downloads") album in
  let path := path_join folder (name ++ u ".mp3") in
  let audio1 := four_tags base1 name album artist1 1 in
  let audio2 := four_tags base2 name album artist2 2 in
  track_fields song1 = Some (name, url1, artist1) ->
  track_fields song2 = Some (name, url2, artist2) ->
  can_makedirs E folder = true ->
  can_open E path = true ->
  net E (List.length (sent w)) (download_request url1) = Reply status1 pieces1 None ->
  net E (S (List.length (sent w))) (download_request url2) = Reply status2 pieces2 None ->
  raises_for_status status1 = false ->
  raises_for_status status2 = false ->
  existing_tags E (MkFile (concat (pieces1 1024%N)) None) = Some base1 ->
  existing_tags E (MkFile (concat (pieces2 1024%N)) None) = Some base2 ->
  download_playlist E (JArr [song1; song2]) album w
  = (Ret tt,
     MkWorld (stdin w) (stdout w)
       (sent w ++ [download_request url1; download_request url2])
       (dict_set (files w) path (MkFile (concat (pieces2 1024%N)) (Some audio2)))
       (dirs w ++ [folder])
       (tagged w ++ [(path, audio1); (path, audio2)])).
Proof.
  intros folder path audio1 audio2 Htf1 Htf2 Hmk Hopen Hnet1 Hnet2 Hst1 Hst2 Hb1 Hb2.
  apply track_fields_inv in Htf1 as (d1 & -> & Hn1 & Hu1 & Ha1).
  apply track_fields_inv in Htf2 as (d2 & -> & Hn2 & Hu2 & Ha2).
  unfold download_playlist. fold folder.
  unfold bind at 1. unfold makedirs. rewrite Hmk.
  unfold bind at 1. simpl py_iter. unfold ret at 1.
  simpl enumerate. simpl for_each.
  unfold bind at 1. fold (with_dir folder w).
  rewrite (@download_song_success E folder album name url1 artist1 d1 1
             (with_dir folder w) status1 pieces1 base1 Hn1 Hu1 Ha1 Hnet1 Hst1 Hopen Hb1).
  unfold bind at 1.
  rewrite (@download_song_success E folder album name url2 artist2 d2 2 _ status2
             pieces2 base2 Hn2 Hu2 Ha2).
  - unfold ret. fold path. fold audio1. fold audio2. simpl.
    rewrite dict_set_set, <- !app_assoc. reflexivity.
  - simpl. rewrite length_app. simpl. rewrite Nat.add_1_r. exact Hnet2.
  - exact Hst2.
  - exact Hopen.
  - exact Hb2.
Qed.

(** X10 on two tracks named Song1. *)
Lemma download_playlist_same_name_witness :
  let run := download_playlist env_audio
               (JArr [song "Song1" "/a.mp3" "X"; song "Song1" "/b.mp3" "Y"])
               (u "A") (world_of []) in
  fst run = Ret tt
  /\ map fst (files (snd run)) = [u "downloads/A/Song1.mp3"]
  /\ map (fun f => f_saved (snd f)) (files (snd run))
     = [Some [(u "title", u "Song1"); (u "album", u "A"); (u "artist", u "Y");
              (u "tracknumber", u "2")]].
Proof.
  cbv zeta.
  rewrite (@download_playlist_same_name env_audio (u "A") (u "Song1")
             (u "/a.mp3") (u "X") (u "/b.mp3") (u "Y")
             (song "Song1" "/a.mp3" "X") (song "Song1" "/b.mp3" "Y") (world_of [])
             200 200 (fun _ => audio_pieces) (fun _ => audio_pieces) [] []
             eq_refl eq_refl eq_refl eq_refl eq_refl eq_refl eq_refl eq_refl
             eq_refl eq_refl).
  repeat split.
Defined.

(* ================================================================== *)
(** ** Further properties: the single-track branch *)

(** X11.  The single-track branch ends normally only when its download
    failed.  Its last line, which says that the file was downloaded and
    tagged, is printed after the branch's call of [add_metadata]; that call
    raises whenever the download succeeded, so that whenever the line is
    printed it follows the diagnostic of a failed download of the same
    file. *)
Theorem download_one_done_after_failure (E : Env) (playlist : json) (album : str)
    (w w' : World) :
  download_one E playlist album w = (Ret tt, w') ->
  exists path e before,
    stdout w' = before ++ [SayDownloadError path e; SayDone path].
Proof.
  unfold download_one, bind.
  destruct (py_iter playlist w) as [[songs| | |] w0]; try discriminate.
  destruct (song_urls_of songs [] w0) as [[song_urls| | |] w1]; try discriminate.
  destruct (list_and_select E song_urls w1) as [[[selected_song song_name]| | |] w2];
    try discriminate.
  destruct (makedirs E (path_join (u "downloads") album) w2) as [[[]| | |] w3];
    try discriminate.
  set (path := path_join (path_join (u "downloads") album) (song_name ++ u ".mp3")).
  destruct selected_song as [|b|z|x|url|l|d]; try discriminate.
  pose proof (download_mp3_ends E url path w3) as H; cbv zeta in H.
  destruct (download_mp3 E (JStr url) path w3) as [[[|]| | |] w4]; simpl in H;
    try discriminate.
  - destruct (next_named songs song_name w4) as [[song_data| | |] w5]; try discriminate.
    destruct (list_index songs song_data);
      [rewrite call_add_metadata_three|]; discriminate.
  - unfold ret, print. intros Heq; injection Heq as <-.
    destruct H as (_ & _ & [(Habs & _)|[(e & _ & Hout)|(Habs & _)]]);
      try discriminate.
    simpl. rewrite Hout. exists path, e, (stdout w3).
    rewrite <- app_assoc. reflexivity.
Qed.

(** X11 on a network that is down: the branch ends normally, and its last
    two lines are the diagnostic and the line that says the file was
    downloaded. *)
Lemma download_one_done_after_failure_witness :
  exists path e before,
    stdout (snd (download_one env_down (JArr [song "Song1" "/s1.mp3" "X"]) (u "A")
                   (world_of [u "0"])))
    = before ++ [SayDownloadError path e; SayDone path].
Proof.
  apply (@download_one_done_after_failure env_down (JArr [song "Song1" "/s1.mp3" "X"])
           (u "A") (world_of [u "0"])).
  vm_compute. reflexivity.
Defined.

(** X12.  On an empty playlist, which is what [get_playlist] returns when it
    finds no block or cannot parse it, the single-track branch offers an
    empty menu: it never returns and never gets as far as making a folder or
    a request.  It ends with SystemExit when the user types a quit token,
    and otherwise waits for a line. *)
Theorem download_one_empty_playlist (E : Env) (album : str) (w : World) :
  let run := download_one E (JArr []) album w in
  (fst run = Raise SystemExit \/ (fst run = Await /\ stdin (snd run) = []))
  /\ sent (snd run) = sent w /\ files (snd run) = files w
  /\ dirs (snd run) = dirs w /\ tagged (snd run) = tagged w.
Proof.
  cbv zeta.
  destruct (download_one E (JArr []) album w) as [r1 w1] eqn:Hrun. revert Hrun.
  unfold download_one.
  unfold bind at 1. simpl py_iter. unfold ret at 1.
  unfold bind at 1. simpl song_urls_of. unfold ret at 1.
  unfold bind at 1. rewrite list_and_select_unfold.
  destruct (select_loop E ([] : pydict json) (dict_keys ([] : pydict json)) (stdin w))
    as [[o r] unread] eqn:Hl.
  destruct (@select_loop_ends E json [] (stdin w) o r unread Hl) as (_ & _ & Hr).
  destruct Hr as [(value & key & -> & Hv)|[->|[-> ->]]];
    [discriminate| |]; intros H; injection H as <- <-.
  - simpl. repeat split. now left.
  - simpl. repeat split. right; split; reflexivity.
Qed.

(* ================================================================== *)
(** ** Further properties: whole runs of [main] *)

Lemma first_occurrences_In (l : list str) (x : str) :
  In x (first_occurrences l) -> In x l.
Proof.
  induction l as [|y l IH]; simpl; [tauto|].
  intros [->|H]; [now left|].
  apply filter_In in H as [H _]. right; now apply IH.
Qed.

Lemma first_occurrences_nodup (l : list str) : NoDup (first_occurrences l).
Proof.
  induction l as [|x l IH]; simpl; constructor.
  - intros H. apply filter_In in H as [_ H]. now rewrite str_eqb_refl in H.
  - now apply NoDup_filter.
Qed.

Lemma options_of_nodup (html : str) : NoDup (dict_keys (options_of html)).
Proof.
  unfold options_of. rewrite dict_keys_of_pairs. apply first_occurrences_nodup.
Qed.

Lemma lower_is_y (line : str) :
  str_eqb (lower line) (u "y") = is_yes line.
Proof.
  unfold is_yes, lower.
  destruct line as [|c [|c' l]]; try reflexivity.
  - change (u "y") with [121%N]; change (u "Y") with [89%N]; simpl.
    rewrite !andb_true_r. unfold lower_char.
    destruct (N.leb_spec 65 c), (N.leb_spec c 90); simpl;
      destruct (N.leb_spec 192 c), (N.leb_spec c 222); simpl;
      destruct (N.eqb_spec c 215); simpl;
      destruct (N.eqb_spec c 121), (N.eqb_spec c 89); simpl;
      try lia;
      match goal with
      | |- (?x =? ?y)%N = _ => destruct (N.eqb_spec x y); try reflexivity; try lia
      end.
  - change (u "y") with [121%N]; change (u "Y") with [89%N]; simpl.
    now rewrite !andb_false_r.
Qed.

(** A menu of [main]: the page is fetched, the menu shown, and the user's
    line selects an entry. *)
Lemma menu_step (E : Env) (url html line key value : str) (rest : list str)
    (w : World) :
  menu_page E (List.length (sent w)) url html ->
  selects E html line key value ->
  stdin w = line :: rest ->
  get_options E url chant_pattern w
  = (Ret (options_of html), sending (page_request url) w)
  /\ forall w1, stdin w1 = line :: rest ->
       list_and_select E (options_of html) w1
       = (Ret (value, key), reading rest (shown (options_of html)) w1).
Proof.
  intros [Hserved Hne] (Hq & i & Hp & Hnth) Hin. split.
  - rewrite get_options_run, (@get_page_served E url html w Hserved).
    destruct (anchors html); [contradiction|reflexivity].
  - intros w1 Hin1.
    destruct (dict_get_nth _ _ (options_of_nodup html) Hnth) as [Hk Hv].
    apply (@list_and_select_picks E str (options_of html) [] line rest i key value w1
             Hin1 eq_refl Hq Hp Hk Hv).
Qed.

Lemma get_playlist_extraction (E : Env) (url html : str) (playlist : json)
    (diag : list out) (w : World) :
  served E (List.length (sent w)) url = Some html ->
  extraction html = Some (playlist, diag) ->
  get_playlist E url playlist_pattern w
  = (Ret playlist, printed diag (sending (page_request url) w)).
Proof.
  intros Hserved Hex.
  rewrite (@get_playlist_unfold E url w _ html (@get_page_served E url html w Hserved)).
  unfold extraction in Hex.
  destruct (payload html) as [block|].
  - destruct (json_loads block) as [[|b|z|x|s|l|d]| |]; try discriminate.
    + simpl. destruct (dict_get d (u "songs")) as [songs|]; [|discriminate].
      injection Hex as <- <-. unfold ret, printed. simpl. now rewrite app_nil_r.
    + injection Hex as <- <-. reflexivity.
  - injection Hex as <- <-. reflexivity.
Qed.


Lemma clear_term_run (w : World) : clear_term w = (Ret tt, printed [ClearScreen] w).
Proof. reflexivity. Qed.

Lemma input_run (prompt : out) (line : str) (rest : list str) (w : World) :
  stdin w = line :: rest ->
  input prompt w = (Ret line, reading rest [prompt] w).
Proof. intros H. unfold input. rewrite H. reflexivity. Qed.

Lemma sending_mk rq i o s f d t :
  sending rq (MkWorld i o s f d t) = MkWorld i o (s ++ [rq]) f d t.
Proof. reflexivity. Qed.

Lemma printed_mk p i o s f d t :
  printed p (MkWorld i o s f d t) = MkWorld i (o ++ p) s f d t.
Proof. reflexivity. Qed.

Lemma reading_mk r p i o s f d t :
  reading r p (MkWorld i o s f d t) = MkWorld r (o ++ p) s f d t.
Proof. reflexivity. Qed.

Lemma after_menus_world (w : World) (html0 html1 href0 href1 : str) (diag : list out)
    (line1 answer : str) (rest : list str) :
  reading rest [AskDownloadAll]
    (printed diag
       (sending (page_request (base_url ++ href1))
          (printed [ClearScreen]
             (reading (answer :: rest) (shown (options_of html1))
                (sending (page_request (base_url ++ href0))
                   (printed [ClearScreen]
                      (reading (line1 :: answer :: rest) (shown (options_of html0))
                         (printed [ClearScreen]
                            (sending (page_request chants_url) w)))))))))
  = after_menus w html0 html1 href0 href1 diag rest.
Proof.
  destruct w as [i o s f d t].
  repeat (rewrite sending_mk || rewrite printed_mk || rewrite reading_mk).
  unfold after_menus. cbn [stdin stdout sent files dirs tagged].
  rewrite <- !app_assoc. reflexivity.
Qed.

(** [main] up to the answer to its question, on a site whose two menus the
    user goes through. *)
Lemma main_through_menus (E : Env) (w : World) (html0 html1 html2 : str)
    (line0 line1 answer : str) (rest : list str) (chant href0 album href1 : str)
    (playlist : json) (diag : list out) :
  stdin w = line0 :: line1 :: answer :: rest ->
  menu_page E (List.length (sent w)) chants_url html0 ->
  selects E html0 line0 chant href0 ->
  menu_page E (S (List.length (sent w))) (base_url ++ href0) html1 ->
  selects E html1 line1 album href1 ->
  served E (S (S (List.length (sent w)))) (base_url ++ href1) = Some html2 ->
  extraction html2 = Some (playlist, diag) ->
  main E w
  = (if is_yes answer then download_playlist E playlist album
     else download_one E playlist album)
      (after_menus w html0 html1 href0 href1 diag rest).
Proof.
  intros Hin Hp0 Hs0 Hp1 Hs1 Hp2 Hex.
  destruct (@menu_step E chants_url html0 line0 chant href0 (line1 :: answer :: rest) w
              Hp0 Hs0 Hin) as [Hg0 Hl0].
  unfold main. unfold bind at 1. rewrite Hg0.
  unfold bind at 1. rewrite clear_term_run.
  unfold bind at 1. rewrite Hl0 by exact Hin.
  unfold bind at 1. rewrite clear_term_run.
  match goal with
  | |- bind _ _ ?w1 = _ => set (wa := w1)
  end.
  assert (Hlen : List.length (sent wa) = S (List.length (sent w))).
  { subst wa. simpl. rewrite length_app. simpl. lia. }
  rewrite <- Hlen in Hp1.
  destruct (@menu_step E (base_url ++ href0) html1 line1 album href1 (answer :: rest) wa
              Hp1 Hs1 eq_refl) as [Hg1 Hl1].
  unfold bind at 1. rewrite Hg1.
  unfold bind at 1. rewrite Hl1 by reflexivity.
  unfold bind at 1. rewrite clear_term_run.
  match goal with
  | |- bind _ _ ?w1 = _ => set (wb := w1)
  end.
  assert (Hlenb : List.length (sent wb) = S (S (List.length (sent w)))).
  { subst wb wa. simpl. rewrite !length_app. simpl. lia. }
  rewrite <- Hlenb in Hp2.
  unfold bind at 1.
  rewrite (@get_playlist_extraction E (base_url ++ href1) html2 playlist diag wb Hp2 Hex).
  unfold bind at 1.
  rewrite (@input_run AskDownloadAll answer rest) by reflexivity.
  rewrite lower_is_y.
  subst wb wa. rewrite after_menus_world. reflexivity.
Qed.

(** X13.  A run of [main] through its two menus.  When the chants page and
    the page of the chosen chant are fetched and hold anchors, the user's
    first two lines select a chant and an album, and the album page is
    fetched, [main] has made three page requests and no other: for the
    chants address, then for the origin followed by the link of the chosen
    chant, then for the origin followed by the link of the chosen album (the
    links are appended to the origin as they are).  It has cleared the screen
    before the first menu, after it and after the second, printed what
    [get_playlist] prints, and asked its question.  It then hands the
    playlist and the label of the chosen album to [download_playlist] when
    the third line is y or Y, and to the single-track branch on any other
    line. *)
Theorem main_run (E : Env) (w : World) (html0 html1 html2 : str)
    (line0 line1 answer : str) (rest : list str) (chant href0 album href1 : str)
    (playlist : json) (diag : list out) :
  stdin w = line0 :: line1 :: answer :: rest ->
  menu_page E (List.length (sent w)) chants_url html0 ->
  selects E html0 line0 chant href0 ->
  menu_page E (S (List.length (sent w))) (base_url ++ href0) html1 ->
  selects E html1 line1 album href1 ->
  served E (S (S (List.length (sent w)))) (base_url ++ href1) = Some html2 ->
  extraction html2 = Some (playlist, diag) ->
  (is_yes answer = true ->
   main E w
   = download_playlist E playlist album
       (after_menus w html0 html1 href0 href1 diag rest))
  /\ (is_yes answer = false ->
      main E w
      = download_one E playlist album
          (after_menus w html0 html1 href0 href1 diag rest)).
Proof.
  intros Hin Hp0 Hs0 Hp1 Hs1 Hp2 Hex.
  rewrite (@main_through_menus E w html0 html1 html2 line0 line1 answer rest chant href0
             album href1 playlist diag Hin Hp0 Hs0 Hp1 Hs1 Hp2 Hex).
  split; intros ->; reflexivity.
Qed.

(** X13 on the sample site, with the lines 0, 0 and Y. *)
Lemma main_run_witness :
  main env_site (world_of [u "0"; u "0"; u "Y"])
  = download_playlist env_site
      (JArr [song "Song1" "/s1.mp3" "X"; song "Song2" "/s2.mp3" "Y"]) (u "Album1")
      (after_menus (world_of [u "0"; u "0"; u "Y"]) page_chant page_album
         (u "/c1") (u "/a1") [] []).
Proof.
  apply (proj1 (@main_run env_site (world_of [u "0"; u "0"; u "Y"])
                  page_chant page_album page_playlist (u "0") (u "0") (u "Y") []
                  (u "Chant1") (u "/c1") (u "Album1") (u "/a1")
                  (JArr [song "Song1" "/s1.mp3" "X"; song "Song2" "/s2.mp3" "Y"]) []
                  eq_refl
                  ltac:(split; [vm_compute; reflexivity|vm_compute; discriminate])
                  ltac:(split; [reflexivity|exists 0; split; vm_compute; reflexivity])
                  ltac:(split; [vm_compute; reflexivity|vm_compute; discriminate])
                  ltac:(split; [reflexivity|exists 0; split; vm_compute; reflexivity])
                  ltac:(vm_compute; reflexivity)
                  ltac:(vm_compute; reflexivity))).
  reflexivity.
Defined.



(** The loop of [list_and_select] never gives back a line, and reads at
    least one line before it returns a value. *)
Lemma select_loop_consumes (E : Env) {V} (options : pydict V) (keys lines : list str) :
  forall o r unread,
    select_loop E options keys lines = (o, r, unread) ->
    List.length unread <= List.length lines
    /\ (forall v, r = Ret v -> List.length unread < List.length lines).
Proof.
  induction lines as [|line rest IH]; intros o r unread; simpl.
  - intros H; injection H as <- <- <-. simpl. split; [lia|discriminate].
  - destruct (str_eqb (lower line) (u "q")).
    { intros H; injection H as <- <- <-. simpl. split; [lia|intros; lia]. }
    destruct (select_loop E options keys rest) as [[o' r'] unread'].
    destruct (IH _ _ _ eq_refl) as [Hle Hlt].
    assert (Hagain : forall said : list out,
               (said, r', unread') = (o, r, unread) ->
               List.length unread <= S (List.length rest)
               /\ (forall v, r = Ret v -> List.length unread < S (List.length rest))).
    { intros said H; injection H as _ <- <-.
      split; [lia|]. intros v Hv. specialize (Hlt v Hv). lia. }
    destruct (py_int E line) as [i|]; [|apply Hagain].
    destruct ((0 <=? i) && (i <? Z.of_nat (List.length keys)))%Z; [|apply Hagain].
    destruct (nth_error keys (Z.to_nat i)) as [key|].
    + destruct (dict_get options key);
        intros H; injection H as <- <- <-; simpl; split; try lia; intros; lia.
    + intros H; injection H as <- <- <-; simpl; split; try lia; intros; lia.
Qed.

Lemma list_and_select_frame (E : Env) {V} (options : pydict V) (w : World) :
  let run := list_and_select E options w in
  sent (snd run) = sent w /\ files (snd run) = files w
  /\ dirs (snd run) = dirs w /\ tagged (snd run) = tagged w
  /\ List.length (stdin (snd run)) <= List.length (stdin w)
  /\ (forall v, fst run = Ret v -> List.length (stdin (snd run)) < List.length (stdin w)).
Proof.
  cbv zeta. rewrite list_and_select_unfold.
  destruct (select_loop E options (dict_keys options) (stdin w)) as [[o r] unread] eqn:Hl.
  destruct (@select_loop_consumes E V options _ _ o r unread Hl) as [Hle Hlt].
  simpl. repeat split; assumption.
Qed.

Lemma get_playlist_frame (E : Env) (url : str) (pattern : regex) (w : World) :
  let run := get_playlist E url pattern w in
  sent (snd run) = sent w ++ [page_request url] /\ stdin (snd run) = stdin w
  /\ files (snd run) = files w /\ dirs (snd run) = dirs w
  /\ tagged (snd run) = tagged w.
Proof.
  cbv zeta. unfold get_playlist, bind.
  destruct (get_page_ends E url w) as [Hw _].
  destruct (get_page E url w) as [[html| | |] w1]; simpl in Hw; subst w1;
    try (simpl; repeat split; reflexivity).
  destruct (re_search true pattern html) as [m|]; [|simpl; repeat split].
  destruct (group html m 1) as [block|]; [|simpl; repeat split].
  destruct (json_loads block) as [data| |]; try (simpl; repeat split; reflexivity).
  pose proof (getitem_keeps data (u "songs") (sending (page_request url) w)) as Hk.
  destruct (getitem data (u "songs") (sending (page_request url) w)) as [[v| | |] w2];
    simpl in Hk; subst w2; simpl; repeat split.
Qed.

Lemma untouched_refl (w : World) : untouched w w.
Proof.
  repeat split. exists []. split; [now rewrite app_nil_r|constructor].
Qed.

Lemma untouched_same (w w1 w2 : World) :
  untouched w w1 ->
  files w2 = files w1 -> dirs w2 = dirs w1 -> tagged w2 = tagged w1 ->
  sent w2 = sent w1 ->
  untouched w w2.
Proof.
  intros (Hf & Hd & Ht & new & Hs & Hall) Hf2 Hd2 Ht2 Hs2.
  repeat split; try congruence. exists new. split; [congruence|exact Hall].
Qed.

Lemma untouched_page (w w1 w2 : World) (url : str) :
  untouched w w1 ->
  files w2 = files w1 -> dirs w2 = dirs w1 -> tagged w2 = tagged w1 ->
  sent w2 = sent w1 ++ [page_request url] ->
  untouched w w2.
Proof.
  intros (Hf & Hd & Ht & new & Hs & Hall) Hf2 Hd2 Ht2 Hs2.
  repeat split; try congruence. exists (new ++ [page_request url]). split.
  - rewrite Hs2, Hs, app_assoc. reflexivity.
  - apply Forall_app. split; [exact Hall|]. repeat constructor.
Qed.

Lemma get_options_world (E : Env) (url : str) (w : World) :
  snd (get_options E url chant_pattern w) = sending (page_request url) w.
Proof.
  rewrite get_options_run.
  destruct (get_page_ends E url w) as [Hw _].
  destruct (get_page E url w) as [[html| | |] w1]; simpl in Hw; subst w1;
    try reflexivity.
  destruct (anchors html); reflexivity.
Qed.

(** X15.  Nothing lasting happens before the user has typed three lines.
    [main] comes to its downloads only after two selections and the answer
    to its question, each of which reads at least one line.  So on fewer
    than three lines, whatever the site answers, [main] does not return,
    and it leaves the files, the folders and the saved tags as they were;
    the requests it has made are page requests, none of them for audio. *)
Theorem main_needs_three_lines (E : Env) (w : World) :
  List.length (stdin w) < 3 ->
  fst (main E w) <> Ret tt /\ untouched w (snd (main E w)).
Proof.
  intros Hlen.
  destruct (main E w) as [r wz] eqn:Hrun. revert Hrun. unfold main.
  (* the chants page *)
  unfold bind at 1.
  pose proof (get_options_world E chants_url w) as H1.
  destruct (get_options E chants_url chant_pattern w) as [[chants| | |] w1];
    simpl in H1;
    assert (U1 : untouched w w1)
      by (subst w1; apply (@untouched_page w w _ chants_url (untouched_refl w));
          reflexivity);
    assert (L1 : stdin w1 = stdin w) by (subst w1; reflexivity);
    clear H1;
    try (intros H; injection H as <- <-; simpl; split; [discriminate|exact U1]).
  unfold bind at 1. rewrite clear_term_run.
  assert (U2 : untouched w (printed [ClearScreen] w1))
    by (apply (@untouched_same w _ _ U1); reflexivity).
  (* the first menu *)
  unfold bind at 1.
  destruct (list_and_select_frame E chants (printed [ClearScreen] w1))
    as (Hs & Hf & Hd & Ht & _ & Hlt).
  destruct (list_and_select E chants (printed [ClearScreen] w1))
    as [[[selected_chant chant]| | |] w3];
    simpl in Hs, Hf, Hd, Ht, Hlt;
    assert (U3 : untouched w w3) by (apply (@untouched_same w _ _ U2); assumption);
    try (intros H; injection H as <- <-; simpl; split; [discriminate|exact U3]).
  assert (L3 : List.length (stdin w3) < 2).
  { specialize (Hlt _ eq_refl). rewrite L1 in Hlt. lia. }
  clear Hs Hf Hd Ht Hlt U1 U2.
  unfold bind at 1. rewrite clear_term_run.
  assert (U4 : untouched w (printed [ClearScreen] w3))
    by (apply (@untouched_same w _ _ U3); reflexivity).
  (* the page of the chant *)
  unfold bind at 1.
  pose proof (get_options_world E (base_url ++ selected_chant) (printed [ClearScreen] w3))
    as H5.
  destruct (get_options E (base_url ++ selected_chant) chant_pattern
              (printed [ClearScreen] w3)) as [[albums| | |] w5];
    simpl in H5;
    assert (U5 : untouched w w5)
      by (subst w5; apply (@untouched_page w _ _ (base_url ++ selected_chant) U4);
          reflexivity);
    assert (L5 : stdin w5 = stdin w3) by (subst w5; reflexivity);
    clear H5;
    try (intros H; injection H as <- <-; simpl; split; [discriminate|exact U5]).
  (* the second menu *)
  unfold bind at 1.
  destruct (list_and_select_frame E albums w5) as (Hs & Hf & Hd & Ht & _ & Hlt).
  destruct (list_and_select E albums w5) as [[[selected_album album]| | |] w6];
    simpl in Hs, Hf, Hd, Ht, Hlt;
    assert (U6 : untouched w w6) by (apply (@untouched_same w _ _ U5); assumption);
    try (intros H; injection H as <- <-; simpl; split; [discriminate|exact U6]).
  assert (L6 : stdin w6 = []).
  { specialize (Hlt _ eq_refl). rewrite L5 in Hlt.
    destruct (stdin w6); [reflexivity|simpl in Hlt; lia]. }
  clear Hs Hf Hd Ht Hlt U3 U4 U5.
  unfold bind at 1. rewrite clear_term_run.
  assert (U7 : untouched w (printed [ClearScreen] w6))
    by (apply (@untouched_same w _ _ U6); reflexivity).
  (* the album page *)
  unfold bind at 1.
  destruct (get_playlist_frame E (base_url ++ selected_album) playlist_pattern
              (printed [ClearScreen] w6)) as (Hs & Hi & Hf & Hd & Ht).
  destruct (get_playlist E (base_url ++ selected_album) playlist_pattern
              (printed [ClearScreen] w6)) as [[playlist| | |] w8];
    simpl in Hs, Hi, Hf, Hd, Ht;
    assert (U8 : untouched w w8)
      by (apply (@untouched_page w _ _ (base_url ++ selected_album) U7); assumption);
    try (intros H; injection H as <- <-; simpl; split; [discriminate|exact U8]).
  (* the question *)
  unfold bind at 1. unfold input at 1. rewrite Hi, L6.
  intros H; injection H as <- <-. simpl. split; [discriminate|].
  apply (@untouched_same w _ _ U8); reflexivity.
Qed.

(** X15 on the sample site with two lines: [main] waits at its question
    and has written nothing. *)
Lemma main_needs_three_lines_witness :
  fst (main env_site (world_of [u "0"; u "0"])) <> Ret tt
  /\ untouched (world_of [u "0"; u "0"]) (snd (main env_site (world_of [u "0"; u "0"]))).
Proof.
  apply (@main_needs_three_lines env_site (world_of [u "0"; u "0"])).
  simpl. lia.
Defined.

(** X16.  A chants page that cannot be had ends the run at once.  When the
    first request fails, is answered with a status from 400 to 599 or with
    a body that is not UTF-8, or brings a page without an anchor of the
    option pattern, [main] raises without having printed anything, cleared
    the screen or read a line; the exception is a RuntimeError except for
    the body that is not UTF-8. *)
Theorem main_without_chants (E : Env) (w : World) :
  (served E (List.length (sent w)) chants_url = None ->
   snd (main E w) = sending (page_request chants_url) w
   /\ ((exists e, fst (main E w) = Raise (RuntimeError (FailedToRetrieve e)))
       \/ fst (main E w) = Raise UnicodeDecodeError))
  /\ (forall html,
         served E (List.length (sent w)) chants_url = Some html ->
         anchors html = [] ->
         main E w = (Raise (RuntimeError NoResults), sending (page_request chants_url) w)).
Proof.
  split.
  - intros Hnone. unfold main, bind. rewrite get_options_run.
    destruct (get_page_ends E chants_url w) as [Hw Hr].
    destruct (get_page E chants_url w) as [r w1]. simpl in Hw, Hr. subst w1.
    destruct Hr as [(html & -> & Hs)|[(e & ->)| ->]].
    + rewrite Hs in Hnone; discriminate.
    + simpl. split; [reflexivity|]. left; exists e; reflexivity.
    + simpl. split; [reflexivity|]. now right.
  - intros html Hs Ha. unfold main, bind.
    rewrite get_options_run, (@get_page_served E chants_url html w Hs), Ha.
    reflexivity.
Qed.

(** X16 on a network that is down, and on a page without anchors. *)
Lemma main_without_chants_witness :
  snd (main env_down (world_of [u "0"])) = sending (page_request chants_url) (world_of [u "0"])
  /\ main (serving page_no_anchor) (world_of [u "0"])
     = (Raise (RuntimeError NoResults),
        sending (page_request chants_url) (world_of [u "0"])).
Proof.
  split.
  - apply (proj1 (@main_without_chants env_down (world_of [u "0"]))). reflexivity.
  - apply (proj2 (@main_without_chants (serving page_no_anchor) (world_of [u "0"]))
             page_no_anchor); vm_compute; reflexivity.
Defined.

(* ================================================================== *)
(** ** Further properties: what the two patterns capture *)



Lemma chant_pattern_pieces :
  chant_pattern
  = chant_head ++ Open 1 :: unquoted ++ Close 1
      :: (chant_middle ++ Open 2 :: unquoted ++ Close 2 :: chant_tail).
Proof. reflexivity. Qed.

Lemma playlist_pattern_pieces :
  playlist_pattern = playlist_head ++ Open 1 :: braces ++ Close 1 :: playlist_tail.
Proof. reflexivity. Qed.

Lemma rep_greedy_sound {R} dotall k min s pos (cont : str -> nat -> option R) r :
  rep_greedy dotall k min s pos cont = Some r ->
  exists n, min <= n /\ n <= List.length s
            /\ forallb (cls_match dotall k) (firstn n s) = true
            /\ cont (skipn n s) (pos + n) = Some r.
Proof.
  revert min pos; induction s as [|c s IH]; intros min pos; simpl.
  - destruct min; [|discriminate]. intros H. exists 0.
    rewrite Nat.add_0_r. repeat split; auto.
  - assert (Hstop : match min with 0 => cont (c :: s) pos | S _ => None end = Some r ->
              exists n, min <= n /\ n <= S (List.length s)
                /\ forallb (cls_match dotall k) (firstn n (c :: s)) = true
                /\ cont (skipn n (c :: s)) (pos + n) = Some r).
    { destruct min; [|discriminate]. intros H. exists 0.
      rewrite Nat.add_0_r. repeat split; auto. lia. }
    destruct (cls_match dotall k c) eqn:Hc; [|exact Hstop].
    destruct (rep_greedy dotall k (Nat.pred min) s (S pos) cont) as [r'|] eqn:Hrec;
      [|exact Hstop].
    intros H; injection H as <-.
    apply IH in Hrec as (n & Hmin & Hlen & Hall & Hcont).
    exists (S n). simpl. rewrite Hc, Hall. repeat split; try lia.
    rewrite Nat.add_succ_r. exact Hcont.
Qed.

Lemma rep_lazy_sound {R} dotall k min s pos (cont : str -> nat -> option R) r :
  rep_lazy dotall k min s pos cont = Some r ->
  exists n, min <= n /\ n <= List.length s
            /\ forallb (cls_match dotall k) (firstn n s) = true
            /\ cont (skipn n s) (pos + n) = Some r.
Proof.
  revert min pos; induction s as [|c s IH]; intros min pos; simpl.
  - destruct min; [|discriminate].
    destruct (cont [] pos) as [r'|] eqn:Hc; [|discriminate].
    intros H; injection H as <-. exists 0.
    rewrite Nat.add_0_r. repeat split; auto.
  - assert (Hmore : (if cls_match dotall k c
                     then rep_lazy dotall k (Nat.pred min) s (S pos) cont
                     else None) = Some r ->
              exists n, min <= n /\ n <= S (List.length s)
                /\ forallb (cls_match dotall k) (firstn n (c :: s)) = true
                /\ cont (skipn n (c :: s)) (pos + n) = Some r).
    { destruct (cls_match dotall k c) eqn:Hc; [|discriminate].
      intros Hrec. apply IH in Hrec as (n & Hmin & Hlen & Hall & Hcont).
      exists (S n). simpl. rewrite Hc, Hall. repeat split; try lia.
      rewrite Nat.add_succ_r. exact Hcont. }
    destruct min; [|exact Hmore].
    destruct (cont (c :: s) pos) as [r'|] eqn:Hc; [|exact Hmore].
    intros H; injection H as <-. exists 0.
    rewrite Nat.add_0_r. repeat split; auto. lia.
Qed.

(** A successful run of the matcher is an accepted match. *)
Lemma match_here_sound dotall ma start p :
  forall s st st',
    match_here dotall ma start p s st = Some st' ->
    exists s', accepted dotall p s st st' s'.
Proof.
  induction p as [|[k|k min greedy|g|g] p IH]; intros s st st'; simpl.
  - destruct (ma && Nat.eqb (m_pos st) start); [discriminate|].
    intros H; injection H as <-. exists s. split; reflexivity.
  - destruct s as [|c s]; [discriminate|].
    destruct (cls_match dotall k c); [|discriminate].
    intros H. apply IH in H as [s' H]. exists s'. split; [reflexivity|exact H].
  - intros H.
    assert (Hn : exists n, min <= n /\ n <= List.length s
                   /\ forallb (cls_match dotall k) (firstn n s) = true
                   /\ match_here dotall ma start p (skipn n s)
                        (MState (m_pos st + n) (m_open st) (m_caps st)) = Some st').
    { destruct greedy; [apply rep_greedy_sound in H|apply rep_lazy_sound in H]; exact H. }
    destruct Hn as (n & Hmin & Hlen & Hall & Hcont).
    apply IH in Hcont as [s' Hcont]. exists s', n. repeat split; assumption.
  - apply IH.
  - destruct (assoc_nat (m_open st) g); [apply IH|discriminate].
Qed.

Lemma accepted_app dotall p1 p2 :
  forall s st st' s',
    accepted dotall (p1 ++ p2) s st st' s' ->
    exists st1 s1, accepted dotall p1 s st st1 s1 /\ accepted dotall p2 s1 st1 st' s'.
Proof.
  induction p1 as [|[k|k min greedy|g|g] p1 IH]; intros s st st' s'; simpl.
  - intros H. exists st, s. repeat split. exact H.
  - destruct s as [|c s]; [contradiction|]. intros [Hc H].
    apply IH in H as (st1 & s1 & H1 & H2). exists st1, s1. repeat split; assumption.
  - intros (n & Hmin & Hlen & Hall & H).
    apply IH in H as (st1 & s1 & H1 & H2). exists st1, s1. split; [|exact H2].
    exists n. repeat split; assumption.
  - intros H. apply IH in H as (st1 & s1 & H1 & H2). exists st1, s1. split; assumption.
  - destruct (assoc_nat (m_open st) g); [|contradiction].
    intros H. apply IH in H as (st1 & s1 & H1 & H2). exists st1, s1. split; assumption.
Qed.

(** A pattern without groups only moves the position. *)
Lemma accepted_flat dotall p :
  no_groups p = true ->
  forall s st st' s',
    accepted dotall p s st st' s' ->
    exists n, n <= List.length s /\ s' = skipn n s
              /\ st' = MState (m_pos st + n) (m_open st) (m_caps st).
Proof.
  induction p as [|[k|k min greedy|g|g] p IH]; intros Hp s st st' s'; simpl;
    try discriminate.
  - intros [-> ->]. exists 0. rewrite Nat.add_0_r. destruct st; repeat split; simpl; lia.
  - destruct s as [|c s]; [contradiction|]. intros [_ H].
    apply (IH Hp) in H as (n & Hlen & -> & ->). exists (S n). simpl.
    rewrite Nat.add_succ_r. repeat split. lia.
  - intros (n0 & _ & Hlen0 & _ & H).
    apply (IH Hp) in H as (n & Hlen & -> & ->). exists (n0 + n). simpl.
    rewrite length_skipn in Hlen.
    rewrite skipn_skipn, Nat.add_assoc, (Nat.add_comm n n0). repeat split. lia.
Qed.

(** A group whose body has no group inside records the span of its body. *)
Lemma accepted_group dotall g q rest :
  no_groups q = true ->
  forall s st st' s',
    accepted dotall (Open g :: q ++ Close g :: rest) s st st' s' ->
    exists n,
      n <= List.length s
      /\ accepted dotall q s (MState (m_pos st) ((g, m_pos st) :: m_open st) (m_caps st))
           (MState (m_pos st + n) ((g, m_pos st) :: m_open st) (m_caps st)) (skipn n s)
      /\ accepted dotall rest (skipn n s)
           (MState (m_pos st + n) ((g, m_pos st) :: m_open st)
              ((g, (m_pos st, m_pos st + n)) :: m_caps st)) st' s'.
Proof.
  intros Hq s st st' s' H. simpl in H.
  apply accepted_app in H as (st1 & s1 & H1 & H2).
  destruct (accepted_flat dotall q Hq _ _ _ _ H1) as (n & Hlen & -> & ->).
  simpl in H1, H2. rewrite Nat.eqb_refl in H2.
  exists n. repeat split; assumption.
Qed.



Lemma slice_skipn (text : str) (a n : nat) :
  slice text a (a + n) = firstn n (skipn a text).
Proof. unfold slice. now replace (a + n - a) with n by lia. Qed.

Lemma skipn_next {A} (l : list A) (pos : nat) (c : A) (s : list A) :
  skipn pos l = c :: s -> skipn (S pos) l = s.
Proof.
  revert l; induction pos as [|pos IH]; intros l; simpl.
  - now intros ->.
  - destruct l as [|x l]; [discriminate|]. apply IH.
Qed.

(** Every match the scan of [re.findall] returns is an attempt at some
    position of the text. *)
Lemma scan_attempts dotall p (text : str) :
  forall s pos skip m,
    s = skipn pos text ->
    In m (scan dotall p s pos skip) ->
    exists pos' ma, attempt dotall ma p (skipn pos' text) pos' = Some m.
Proof.
  induction s as [|c s IH]; intros pos skip m Hs.
  - simpl. destruct skip; [|contradiction].
    destruct (attempt dotall false p [] pos) as [m0|] eqn:H0; [|contradiction].
    destruct (Nat.eqb (r_end m0) pos).
    + intros [<-|H].
      * exists pos, false. now rewrite <- Hs.
      * destruct (attempt dotall true p [] pos) as [m1|] eqn:H1; [|contradiction].
        destruct H as [<-|[]]. exists pos, true. now rewrite <- Hs.
    + intros [<-|[]]. exists pos, false. now rewrite <- Hs.
  - assert (Hnext : s = skipn (S pos) text) by (symmetry; eapply skipn_next; eauto).
    simpl. destruct skip as [|n]; [|intros H; eapply IH; eauto].
    destruct (attempt dotall false p (c :: s) pos) as [m0|] eqn:H0;
      [|intros H; eapply IH; eauto].
    destruct (Nat.eqb (r_end m0) pos).
    + intros [<-|H].
      * exists pos, false. now rewrite <- Hs.
      * destruct (attempt dotall true p (c :: s) pos) as [m1|] eqn:H1;
          [|eapply IH; eauto].
        destruct H as [<-|H]; [|eapply IH; eauto].
        exists pos, true. now rewrite <- Hs.
    + intros [<-|H]; [|eapply IH; eauto]. exists pos, false. now rewrite <- Hs.
Qed.

Lemma search_from_attempt dotall p (text : str) :
  forall s pos m,
    s = skipn pos text ->
    search_from dotall p s pos = Some m ->
    exists pos', attempt dotall false p (skipn pos' text) pos' = Some m.
Proof.
  induction s as [|c s IH]; intros pos m Hs; simpl.
  - destruct (attempt dotall false p [] pos) as [m0|] eqn:H0; [|discriminate].
    intros H; injection H as <-. exists pos. now rewrite <- Hs.
  - destruct (attempt dotall false p (c :: s) pos) as [m0|] eqn:H0.
    + intros H; injection H as <-. exists pos. now rewrite <- Hs.
    + apply IH. symmetry; eapply skipn_next; eauto.
Qed.

Lemma unquoted_body dotall (s : str) (pos n : nat) o c o' c' s' :
  accepted dotall unquoted s (MState pos o c) (MState (pos + n) o' c') s' ->
  plain (firstn n s).
Proof.
  simpl. intros (n0 & Hmin & Hlen & Hall & Hst & _).
  injection Hst as Hn _ _. assert (n = n0) by lia. subst n0. split.
  - destruct s as [|x s]; [simpl in Hlen; lia|]. destruct n; [lia|discriminate].
  - intros Hin. rewrite forallb_forall in Hall. apply Hall in Hin.
    simpl in Hin. discriminate.
Qed.

(** The two groups of a match of the option pattern. *)
Lemma chant_match_groups (html : str) (pos : nat) (ma : bool) (m : rmatch) :
  attempt false ma chant_pattern (skipn pos html) pos = Some m ->
  plain (group_or_empty html m 1) /\ plain (group_or_empty html m 2).
Proof.
  unfold attempt.
  destruct (match_here false ma pos chant_pattern (skipn pos html) (MState pos [] []))
    as [st|] eqn:Hm; [|discriminate].
  intros H; injection H as <-.
  apply match_here_sound in Hm as [s' Hm].
  rewrite chant_pattern_pieces in Hm.
  apply accepted_app in Hm as (st1 & s1 & Hhead & Hm).
  destruct (accepted_flat false chant_head eq_refl _ _ _ _ Hhead) as (n0 & _ & -> & ->).
  clear Hhead. simpl m_pos in Hm. simpl m_open in Hm. simpl m_caps in Hm.
  apply (accepted_group false 1 unquoted _ eq_refl) in Hm as (n1 & _ & Hbody1 & Hm).
  cbn [m_pos m_open m_caps] in Hbody1. apply unquoted_body in Hbody1.
  simpl m_pos in Hm. simpl m_open in Hm. simpl m_caps in Hm.
  apply accepted_app in Hm as (st2 & s2 & Hmid & Hm).
  destruct (accepted_flat false chant_middle eq_refl _ _ _ _ Hmid) as (n2 & _ & -> & ->).
  clear Hmid. simpl m_pos in Hm. simpl m_open in Hm. simpl m_caps in Hm.
  apply (accepted_group false 2 unquoted _ eq_refl) in Hm as (n3 & _ & Hbody2 & Hm).
  cbn [m_pos m_open m_caps] in Hbody2. apply unquoted_body in Hbody2.
  simpl m_pos in Hm. simpl m_open in Hm. simpl m_caps in Hm.
  destruct (accepted_flat false chant_tail eq_refl _ _ _ _ Hm) as (n4 & _ & _ & ->).
  clear Hm. unfold group_or_empty, group. simpl.
  rewrite !slice_skipn.
  repeat rewrite skipn_skipn in Hbody1. repeat rewrite skipn_skipn in Hbody2.
  split.
  - match type of Hbody1 with
    | plain (firstn _ (skipn ?k _)) => replace (pos + n0) with k by lia
    end. exact Hbody1.
  - match type of Hbody2 with
    | plain (firstn _ (skipn ?k _)) => replace (pos + n0 + n1 + n2) with k by lia
    end. exact Hbody2.
Qed.

Lemma firstn_succ_skipn {A} (l : list A) (n : nat) (c : A) (r : list A) :
  skipn n l = c :: r -> firstn (S n) l = firstn n l ++ [c].
Proof.
  revert l; induction n as [|n IH]; intros l.
  - simpl. now intros ->.
  - destruct l as [|x l]; [discriminate|]. intros H.
    change (firstn (S (S n)) (x :: l)) with (x :: firstn (S n) l).
    rewrite (IH l H). reflexivity.
Qed.

(** The group of a match of the playlist pattern is a text between braces. *)
Lemma playlist_match_braces (html : str) (pos : nat) (m : rmatch) :
  attempt true false playlist_pattern (skipn pos html) pos = Some m ->
  exists middle, group html m 1 = Some (123%N :: middle ++ [125%N]).
Proof.
  unfold attempt.
  destruct (match_here true false pos playlist_pattern (skipn pos html) (MState pos [] []))
    as [st|] eqn:Hm; [|discriminate].
  intros H; injection H as <-.
  apply match_here_sound in Hm as [s' Hm].
  rewrite playlist_pattern_pieces in Hm.
  apply accepted_app in Hm as (st1 & s1 & Hhead & Hm).
  destruct (accepted_flat true playlist_head eq_refl _ _ _ _ Hhead) as (n0 & _ & -> & ->).
  clear Hhead. simpl m_pos in Hm. simpl m_open in Hm. simpl m_caps in Hm.
  apply (accepted_group true 1 braces _ eq_refl) in Hm as (n1 & _ & Hbody & Hm).
  cbn [m_pos m_open m_caps] in Hbody.
  simpl m_pos in Hm. simpl m_open in Hm. simpl m_caps in Hm.
  destruct (accepted_flat true playlist_tail eq_refl _ _ _ _ Hm) as (n4 & _ & _ & ->).
  clear Hm. unfold group. simpl assoc_nat. cbv iota beta.
  rewrite slice_skipn.
  rewrite skipn_skipn in Hbody. replace (n0 + pos) with (pos + n0) in Hbody by lia.
  set (s := skipn (pos + n0) html) in *.
  simpl in Hbody.
  destruct s as [|c s]; [contradiction|].
  destruct Hbody as (Hc & n & _ & Hlen & _ & Hrest).
  change (N.eqb 123 c = true) in Hc. apply N.eqb_eq in Hc. subst c.
  destruct (skipn n s) as [|c2 s2] eqn:Hs2; [contradiction|].
  destruct Hrest as (Hc2 & Hst & Hs').
  change (N.eqb 125 c2 = true) in Hc2. apply N.eqb_eq in Hc2. subst c2.
  injection Hst as Hn. assert (n1 = S (S n)) by lia. subst n1.
  exists (firstn n s).
  change (firstn (S (S n)) (123%N :: s)) with (123%N :: firstn (S n) s).
  now rewrite (@firstn_succ_skipn _ s n _ _ Hs2).
Qed.



Lemma parse_members_step (f : nat) (s : str) (acc : pydict json) :
  parse_members (S f) s acc
  = match s with
    | 34%N :: r =>
        match parse_string r [] with
        | None => PFail
        | Some (k, r1) =>
            match skip_ws r1 with
            | 58%N :: r2 =>
                match parse_value f (skip_ws r2) with
                | POk v r3 =>
                    match skip_ws r3 with
                    | 44%N :: r4 => parse_members f (skip_ws r4) (dict_set acc k v)
                    | 125%N :: r4 => POk (JObj (dict_set acc k v)) r4
                    | _ => PFail
                    end
                | PFail => PFail
                | PFuel => PFuel
                end
            | _ => PFail
            end
        end
    | _ => PFail
    end.
Proof. reflexivity. Qed.

Ltac split_char c :=
  destruct c as [|c]; cbv iota beta; try discriminate;
  repeat (destruct c as [c|c|]; cbv iota beta; try discriminate).

(** The members of an object parse to an object. *)
Lemma parse_members_object (f : nat) :
  forall s acc v r, parse_members f s acc = POk v r -> exists d, v = JObj d.
Proof.
  induction f as [|f IH]; intros s acc v r; [discriminate|].
  rewrite parse_members_step.
  destruct s as [|c s]; [discriminate|].
  split_char c.
  destruct (parse_string s []) as [[k r1]|]; [|discriminate].
  destruct (skip_ws r1) as [|c1 r2]; [discriminate|].
  split_char c1.
  destruct (parse_value f (skip_ws r2)) as [v0 r3| |]; try discriminate.
  destruct (skip_ws r3) as [|c2 r4]; [discriminate|].
  split_char c2;
    first [apply IH | intros H; injection H as <- _; eexists; reflexivity].
Qed.

Lemma parse_value_brace (f : nat) (r : str) :
  parse_value (S f) (123%N :: r)
  = match skip_ws r with
    | 125%N :: r' => POk (JObj []) r'
    | r' => parse_members f r' []
    end.
Proof. reflexivity. Qed.

(** A text that begins with a brace is the text of an object, when it is
    JSON at all. *)
Lemma json_loads_brace (r : str) (v : json) :
  json_loads (123%N :: r) = Parsed v -> exists d, v = JObj d.
Proof.
  unfold json_loads. change (skip_ws (123%N :: r)) with (123%N :: r).
  rewrite parse_value_brace.
  assert (H : forall res : pres json,
             (forall v0 r0, res = POk v0 r0 -> exists d, v0 = JObj d) ->
             match res with
             | POk v0 r0 => match skip_ws r0 with [] => Parsed v0 | _ => JSONDecodeError end
             | PFail => JSONDecodeError
             | PFuel => TooDeep
             end = Parsed v -> exists d, v = JObj d).
  { intros [v0 r0| |] Hres; try discriminate.
    destruct (skip_ws r0); [|discriminate].
    intros H; injection H as <-. eapply Hres; reflexivity. }
  apply H. clear H. intros v0 r0.
  destruct (skip_ws r) as [|c r'] eqn:Hr.
  - apply parse_members_object.
  - split_char c;
      first [apply parse_members_object
            | intros H; injection H as <- _; eexists; reflexivity].
Qed.



Lemma dict_set_In {V} (d : pydict V) (k k' : str) (v v' : V) :
  In (k', v') (dict_set d k v) -> (k', v') = (k, v) \/ In (k', v') d.
Proof.
  induction d as [|[k0 v0] d IH]; simpl.
  - intros [H|[]]. left; now symmetry.
  - destruct (str_eqb k0 k) eqn:Hk; simpl.
    + apply str_eqb_eq in Hk; subst k0.
      intros [H|H]; [left; now symmetry|right; now right].
    + intros [H|H]; [right; now left|].
      apply IH in H as [H|H]; [now left|right; now right].
Qed.

Lemma dict_of_pairs_In {V} (l : list (str * V)) (k : str) (v : V) :
  In (k, v) (dict_of_pairs l) -> In (k, v) l.
Proof.
  unfold dict_of_pairs.
  assert (H : forall d, In (k, v) (fold_left (fun d kv => dict_set d (fst kv) (snd kv)) l d)
                        -> In (k, v) l \/ In (k, v) d).
  { induction l as [|[k0 v0] l IH]; intros d; simpl; [now right|].
    intros H. apply IH in H as [H|H]; [left; now right|].
    apply dict_set_In in H as [H|H]; [left; left; now symmetry|now right]. }
  intros Hin. apply H in Hin as [Hin|[]]. exact Hin.
Qed.

(** X17.  Every entry of a menu is plain text: in the mapping [get_options]
    returns on the option pattern, no label and no link is empty, and none
    holds a double quote; the pattern captures one or more characters other
    than the double quote for each. *)
Theorem get_options_plain_entries (E : Env) (url : str) (w w' : World) (d : pydict str) :
  get_options E url chant_pattern w = (Ret d, w') ->
  forall label link, In (label, link) d -> plain label /\ plain link.
Proof.
  rewrite get_options_run.
  destruct (get_page E url w) as [[html| | |] w1]; try discriminate.
  destruct (anchors html) as [|m0 l] eqn:Ha; [discriminate|].
  intros H; injection H as <- _. intros label link Hin.
  apply dict_of_pairs_In in Hin. apply in_map_iff in Hin as (m & Hm & Hin).
  injection Hm as <- <-.
  destruct (@scan_attempts false chant_pattern html html 0 0 m eq_refl Hin)
    as (pos & ma & Hatt).
  apply chant_match_groups in Hatt as [H1 H2]. split; assumption.
Qed.

(** X17 on the page with two chants. *)
Lemma get_options_plain_entries_witness :
  plain (u "Chant1") /\ plain (u "/c1").
Proof.
  apply (@get_options_plain_entries (serving page_two_chants) chants_url (world_of [])
           (sending (page_request chants_url) (world_of []))
           [(u "Chant1", u "/c1"); (u "Chant2", u "/c2")]).
  - vm_compute; reflexivity.
  - left; reflexivity.
Defined.

Lemma payload_braces (html block : str) :
  payload html = Some block -> exists middle, block = 123%N :: middle ++ [125%N].
Proof.
  unfold payload, re_search.
  destruct (search_from true playlist_pattern html 0) as [m|] eqn:Hs; [|discriminate].
  intros H; injection H as <-.
  destruct (@search_from_attempt true playlist_pattern html html 0 m eq_refl Hs)
    as (pos & Hatt).
  apply playlist_match_braces in Hatt as (middle & Hg).
  exists middle. unfold group_or_empty. now rewrite Hg.
Qed.


(* ================================================================== *)
(** ** Further properties: the block that [get_playlist] extracts *)



(** The lazy repetition stops at the first count at which the rest of the
    pattern matches. *)
Lemma rep_lazy_first {R} dotall k min s pos (cont : str -> nat -> option R) r :
  rep_lazy dotall k min s pos cont = Some r ->
  exists n, min <= n /\ n <= List.length s
            /\ cont (skipn n s) (pos + n) = Some r
            /\ forall n', min <= n' -> n' < n -> cont (skipn n' s) (pos + n') = None.
Proof.
  revert min pos; induction s as [|c s IH]; intros min pos; simpl.
  - destruct min; [|discriminate].
    destruct (cont [] pos) as [r'|] eqn:Hc; [|discriminate].
    intros H; injection H as <-. exists 0.
    rewrite Nat.add_0_r. repeat split; auto. intros; lia.
  - assert (Hmore : (min = 0 -> cont (c :: s) pos = None) ->
              (if cls_match dotall k c
               then rep_lazy dotall k (Nat.pred min) s (S pos) cont
               else None) = Some r ->
              exists n, min <= n /\ n <= S (List.length s)
                /\ cont (skipn n (c :: s)) (pos + n) = Some r
                /\ forall n', min <= n' -> n' < n ->
                     cont (skipn n' (c :: s)) (pos + n') = None).
    { intros H0. destruct (cls_match dotall k c); [|discriminate].
      intros Hrec. apply IH in Hrec as (n & Hmin & Hlen & Hcont & Hfirst).
      exists (S n). simpl. rewrite Nat.add_succ_r. repeat split; try lia; [exact Hcont|].
      intros [|n'] Hge Hlt.
      - simpl. rewrite Nat.add_0_r. apply H0. lia.
      - simpl. rewrite Nat.add_succ_r. apply Hfirst; lia. }
    destruct min; [|apply Hmore; discriminate].
    destruct (cont (c :: s) pos) as [r'|] eqn:Hc; [|apply Hmore; reflexivity].
    intros H; injection H as <-. exists 0.
    rewrite Nat.add_0_r. repeat split; auto; [lia|]. intros; lia.
Qed.

(** A literal at the head of a pattern. *)
Lemma match_here_literal dotall ma start (l : list char) (p : regex) :
  forall s st,
    match_here dotall ma start (map (fun c => One (CChar c)) l ++ p) s st
    = if startswith l s
      then match_here dotall ma start p (skipn (List.length l) s)
             (MState (m_pos st + List.length l) (m_open st) (m_caps st))
      else None.
Proof.
  induction l as [|x l IH]; intros s st.
  - simpl. rewrite Nat.add_0_r. now destruct st.
  - destruct s as [|c s]; [reflexivity|].
    simpl. destruct (N.eqb x c); [|reflexivity]. simpl.
    rewrite IH. simpl. now rewrite Nat.add_succ_r.
Qed.

Lemma startswith_split (l s : str) :
  startswith l s = true -> s = l ++ skipn (List.length l) s.
Proof.
  revert s; induction l as [|x l IH]; intros s; simpl; [reflexivity|].
  destruct s as [|c s]; [discriminate|].
  intros H; apply andb_prop in H as [Hx Hl].
  apply N.eqb_eq in Hx; subst c. f_equal. now apply IH.
Qed.

(** An attempt of the playlist pattern: where it succeeds, the text has the
    call, an opening brace, a middle, and the three characters that end the
    pattern; the group spans the braces; and the three characters occur
    nowhere earlier after the opening brace. *)
Lemma playlist_attempt_inv (s : str) (pos : nat) (m : rmatch) :
  attempt true false playlist_pattern s pos = Some m ->
  exists middle after,
    s = u "window.vmAudioPlayer(" ++ 123%N :: middle ++ u "});" ++ after
    /\ r_caps m = [(1, (pos + 21, pos + 21 + (List.length middle + 2)))]
    /\ forall n, n < List.length middle ->
         startswith (u "});") (skipn n (middle ++ u "});" ++ after)) = false.
Proof.
  unfold attempt.
  destruct (match_here true false pos playlist_pattern s (MState pos [] []))
    as [st|] eqn:Hm; [|discriminate].
  intros H; injection H as <-.
  change playlist_pattern
    with (map (fun c => One (CChar c)) (u "window.vmAudioPlayer(")
          ++ Open 1 :: map (fun c => One (CChar c)) (u "{")
          ++ Rep CDot 0 false :: One (CChar 125%N) :: Close 1
             :: map (fun c => One (CChar c)) (u ");") ++ []) in Hm.
  rewrite match_here_literal in Hm.
  destruct (startswith (u "window.vmAudioPlayer(") s) eqn:Hhead; [|discriminate].
  apply startswith_split in Hhead.
  set (s1 := skipn (List.length (u "window.vmAudioPlayer(")) s) in *.
  change (List.length (u "window.vmAudioPlayer(")) with 21 in *.
  cbn [m_pos m_open m_caps] in Hm.
  change (match_here true false pos
            (map (fun c => One (CChar c)) (u "{")
             ++ Rep CDot 0 false :: One (CChar 125%N) :: Close 1
                :: map (fun c => One (CChar c)) (u ");") ++ [])
            s1 (MState (pos + 21) [(1, pos + 21)] []) = Some st) in Hm.
  rewrite match_here_literal in Hm.
  destruct (startswith (u "{") s1) eqn:Hbrace; [|discriminate].
  apply startswith_split in Hbrace.
  set (s2 := skipn (List.length (u "{")) s1) in *.
  change (List.length (u "{")) with 1 in *.
  cbn [m_pos m_open m_caps] in Hm.
  change (rep_lazy true CDot 0 s2 (pos + 21 + 1)
            (fun s' pos' =>
               match_here true false pos
                 (One (CChar 125%N) :: Close 1
                  :: map (fun c => One (CChar c)) (u ");") ++ [])
                 s' (MState pos' [(1, pos + 21)] [])) = Some st) in Hm.
  apply rep_lazy_first in Hm as (n & _ & Hlen & Hcont & Hfirst).
  assert (Hend : forall s' pos',
             match_here true false pos
               (One (CChar 125%N) :: Close 1
                :: map (fun c => One (CChar c)) (u ");") ++ [])
               s' (MState pos' [(1, pos + 21)] [])
             = if startswith (u "});") s'
               then Some (MState (S pos' + 2) [(1, pos + 21)] [(1, (pos + 21, S pos'))])
               else None).
  { intros s' pos'. destruct s' as [|c s']; [reflexivity|].
    change (startswith (u "});") (c :: s'))
      with (N.eqb 125 c && startswith (u ");") s').
    cbn [match_here cls_match]. destruct (N.eqb 125 c); [|reflexivity].
    cbn [m_pos m_open m_caps assoc_nat Nat.eqb andb].
    rewrite match_here_literal. cbn [m_pos m_open m_caps].
    destruct (startswith (u ");") s'); [|reflexivity].
    reflexivity. }
  rewrite Hend in Hcont.
  destruct (startswith (u "});") (skipn n s2)) eqn:Hclose; [|discriminate].
  injection Hcont as <-.
  apply startswith_split in Hclose.
  change (List.length (u "});")) with 3 in Hclose.
  exists (firstn n s2), (skipn 3 (skipn n s2)).
  assert (Hs2 : s2 = firstn n s2 ++ u "});" ++ skipn 3 (skipn n s2)).
  { rewrite <- Hclose. symmetry. apply firstn_skipn. }
  split; [|split].
  - rewrite Hhead at 1. f_equal. rewrite Hbrace at 1.
    change (u "{" ++ s2) with (123%N :: s2). f_equal. exact Hs2.
  - cbn [r_caps m_caps]. rewrite length_firstn, Nat.min_l by exact Hlen.
    repeat f_equal. lia.
  - intros n' Hn'. rewrite length_firstn, Nat.min_l in Hn' by exact Hlen.
    rewrite <- Hs2. specialize (Hfirst n' (Nat.le_0_l _) Hn').
    rewrite Hend in Hfirst.
    destruct (startswith (u "});") (skipn n' s2)); [discriminate|reflexivity].
Qed.



Lemma firstn_exact {A} (l1 l2 : list A) : firstn (List.length l1) (l1 ++ l2) = l1.
Proof. induction l1 as [|x l1 IH]; simpl; [reflexivity|now rewrite IH]. Qed.

(** The payload in its page. *)
Lemma payload_shape (html block : str) :
  payload html = Some block ->
  exists before middle after,
    html = before ++ u "window.vmAudioPlayer(" ++ block ++ u ");" ++ after
    /\ block = 123%N :: middle ++ [125%N]
    /\ forall n, n < List.length middle ->
         startswith (u "});") (skipn n (middle ++ u "});" ++ after)) = false.
Proof.
  unfold payload, re_search.
  destruct (search_from true playlist_pattern html 0) as [m|] eqn:Hs; [|discriminate].
  intros H; injection H as <-.
  destruct (@search_from_attempt true playlist_pattern html html 0 m eq_refl Hs)
    as (pos & Hatt).
  apply playlist_attempt_inv in Hatt as (middle & after & Htext & Hcaps & Hfirst).
  exists (firstn pos html), middle, after.
  assert (Hrest : skipn (pos + 21) html = 123%N :: middle ++ u "});" ++ after).
  { replace (pos + 21) with (21 + pos) by lia.
    rewrite <- skipn_skipn, Htext. reflexivity. }
  assert (Hgroup : group_or_empty html m 1 = 123%N :: middle ++ [125%N]).
  { unfold group_or_empty, group. rewrite Hcaps. simpl assoc_nat. cbv iota beta.
    rewrite slice_skipn, Hrest.
    change (123%N :: middle ++ u "});" ++ after)
      with ((123%N :: middle) ++ [125%N] ++ u ");" ++ after).
    rewrite app_assoc.
    replace (List.length middle + 2) with (List.length ((123%N :: middle) ++ [125%N])).
    2:{ rewrite length_app. simpl. unfold char. lia. }
    apply firstn_exact. }
  split; [|split; [exact Hgroup|exact Hfirst]].
  rewrite Hgroup. rewrite <- (firstn_skipn pos html) at 1. f_equal.
  rewrite Htext. f_equal. simpl. f_equal. rewrite <- !app_assoc. reflexivity.
Qed.

(** X19.  Which block [get_playlist] extracts.  The text it hands to
    [json.loads] stands in the page right after the call
    window.vmAudioPlayer and its opening parenthesis, begins with a brace,
    and ends with the brace of the first occurrence, after the opening
    brace, of the three characters that end the pattern (closing brace,
    closing parenthesis, semicolon): the repetition is lazy, so the payload
    is cut at the first place where the pattern can end, whether or not the
    JSON text ends there. *)
Theorem get_playlist_block (html block : str) :
  payload html = Some block ->
  (exists before middle after,
      html = before ++ u "window.vmAudioPlayer(" ++ block ++ u ");" ++ after
      /\ block = 123%N :: middle ++ [125%N]
      /\ forall n, n < List.length middle ->
           startswith (u "});") (skipn n (middle ++ u "});" ++ after)) = false)
  /\ (forall E url w w1,
         get_page E url w = (Ret html, w1) ->
         get_playlist E url playlist_pattern w
         = match json_loads block with
           | Parsed data => getitem data (u "songs") w1
           | JSONDecodeError => (Ret (JArr []), said SayJsonError w1)
           | TooDeep => (Unmodelled, w1)
           end).
Proof.
  intros Hpay. split; [now apply payload_shape|].
  intros E url w w1 Hpage.
  rewrite (@get_playlist_unfold E url w w1 html Hpage), Hpay. reflexivity.
Qed.


(** X19 on the page whose song name holds the three characters: the block
    is cut inside the name. *)
Lemma get_playlist_block_witness :
  exists before middle after,
    page_end_inside
    = before ++ u "window.vmAudioPlayer(" ++ dq "{'songs':[{'name':'a}" ++ u ");" ++ after
    /\ dq "{'songs':[{'name':'a}" = 123%N :: middle ++ [125%N]
    /\ forall n, n < List.length middle ->
         startswith (u "});") (skipn n (middle ++ u "});" ++ after)) = false.
Proof.
  apply (proj1 (@get_playlist_block page_end_inside (dq "{'songs':[{'name':'a}")
                  ltac:(vm_compute; reflexivity))).
Defined.


(* ================================================================== *)
(** ** Further properties: the single-track branch on a playlist of tracks *)



(** A value equals itself. *)
Lemma json_eqb_refl : forall a : json, json_eqb a a = true.
Proof.
  fix IH 1. intros [|b|z|x|s|l|d]; simpl.
  - reflexivity.
  - now destruct b.
  - apply Z.eqb_refl.
  - apply str_eqb_refl.
  - apply str_eqb_refl.
  - revert l. fix IHl 1. intros [|v l]; [reflexivity|].
    rewrite (IH v). simpl. apply IHl.
  - revert d. fix IHd 1. intros [|[k v] d]; [reflexivity|].
    rewrite str_eqb_refl, (IH v). simpl. apply IHd.
Qed.

Lemma track_name_fields (song : json) (name url artist : str) :
  track_fields song = Some (name, url, artist) ->
  track_name song = name /\ track_url song = url.
Proof. unfold track_name, track_url. now intros ->. Qed.

Lemma is_track_fields (song : json) :
  is_track song ->
  exists artist, track_fields song = Some (track_name song, track_url song, artist).
Proof.
  unfold is_track, track_name, track_url.
  destruct (track_fields song) as [[[name url] artist]|]; [|contradiction].
  intros _. exists artist. reflexivity.
Qed.

(** The menu of the single-track branch, on a list of tracks. *)
Lemma song_urls_of_tracks (songs : list json) :
  Forall is_track songs ->
  forall acc w,
    song_urls_of songs acc w
    = (Ret (fold_left (fun d kv => dict_set d (fst kv) (snd kv))
              (map (fun song => (track_name song, JStr (track_url song))) songs) acc),
       w).
Proof.
  induction 1 as [|song songs Hs _ IH]; intros acc w; [reflexivity|].
  apply is_track_fields in Hs as (artist & Hf).
  apply track_fields_inv in Hf as (d & -> & Hn & Hu & _).
  simpl song_urls_of. unfold bind, getitem, as_str, ret. rewrite Hn, Hu.
  cbv beta iota. rewrite IH. reflexivity.
Qed.

Lemma song_urls_of_menu (songs : list json) (w : World) :
  Forall is_track songs ->
  song_urls_of songs [] w = (Ret (song_menu songs), w).
Proof. intros H. now rewrite (@song_urls_of_tracks songs H). Qed.

(** [next] finds the first track of the name, when there is one. *)
Lemma next_named_tracks (songs : list json) (name : str) (w : World) :
  Forall is_track songs ->
  In name (map track_name songs) ->
  exists song_data,
    next_named songs name w = (Ret song_data, w) /\ In song_data songs.
Proof.
  induction 1 as [|song songs Hs _ IH]; [intros []|].
  intros Hin.
  apply is_track_fields in Hs as (artist & Hf).
  apply track_fields_inv in Hf as (d & Hd & Hn & _ & _).
  simpl next_named. unfold bind, getitem. rewrite Hd, Hn. unfold ret at 1.
  cbv beta iota.
  change (json_eqb (JStr (track_name song)) (JStr name))
    with (str_eqb (track_name song) name).
  destruct (str_eqb (track_name song) name) eqn:He.
  - exists song. split; [now rewrite Hd|now left].
  - destruct Hin as [Hin|Hin].
    + apply str_eqb_neq in He. contradiction.
    + destruct (IH Hin) as (song_data & Hrun & Hmem).
      exists song_data. split; [exact Hrun|now right].
Qed.

Lemma list_index_In (songs : list json) (song_data : json) :
  In song_data songs -> exists i, list_index songs song_data = Some i.
Proof.
  induction songs as [|song songs IH]; [intros []|].
  simpl. destruct (json_eqb song song_data) eqn:He; [eexists; reflexivity|].
  intros [->|Hin].
  - now rewrite json_eqb_refl in He.
  - destruct (IH Hin) as [i ->]. eexists; reflexivity.
Qed.

Lemma song_menu_keys (songs : list json) (name : str) :
  In name (dict_keys (song_menu songs)) -> In name (map track_name songs).
Proof.
  unfold song_menu. rewrite dict_keys_of_pairs, map_map. simpl.
  apply first_occurrences_In.
Qed.

Lemma song_menu_get (songs : list json) (name : str) :
  dict_get (song_menu songs) name
  = option_map (fun song => JStr (track_url song)) (last_named songs name).
Proof.
  unfold song_menu, dict_of_pairs, last_named.
  rewrite dict_get_fold, <- map_rev, find_map. simpl.
  destruct (find (fun song => str_eqb (track_name song) name) (rev songs)); reflexivity.
Qed.

(** X20.  What the single-track branch does when its download succeeds.
    On a playlist of tracks its menu has one entry for each different name,
    bound to the URL of the last track of that name.  When the user's line
    selects an entry, the folder can be made, the download of that URL
    succeeds and the file can be opened, the branch leaves the file at
    the track's path inside the album folder, holding the body and no tags, and
    then raises the TypeError of its call of [add_metadata]: the closing line
    is not printed. *)
Theorem download_one_crashes_after_download (E : Env) (songs : list json)
    (album line name url : str) (rest : list str) (i : nat) (w : World)
    (status : Z) (pieces : N -> list bytes) :
  let folder := path_join (u "downloads") album in
  let path := path_join folder (name ++ u ".mp3") in
  Forall is_track songs ->
  stdin w = line :: rest ->
  is_quit line = false ->
  picks E (List.length (song_menu songs)) line = Some i ->
  nth_error (song_menu songs) i = Some (name, JStr url) ->
  can_makedirs E folder = true ->
  net E (List.length (sent w)) (download_request url) = Reply status pieces None ->
  raises_for_status status = false ->
  can_open E path = true ->
  download_one E (JArr songs) album w
  = (Raise (TypeError (MissingArgument "add_metadata" "song_data")),
     with_file path (MkFile (concat (pieces 1024%N)) None)
       (sending (download_request url)
          (with_dir folder (reading rest (shown (song_menu songs)) w))))
  /\ exists song, last_named songs name = Some song /\ track_url song = url.
Proof.
  intros folder path Htracks Hin Hq Hp Hnth Hmk Hnet Hst Hopen.
  assert (Hnd : NoDup (dict_keys (song_menu songs))).
  { unfold song_menu. rewrite dict_keys_of_pairs. apply first_occurrences_nodup. }
  destruct (dict_get_nth _ _ Hnd Hnth) as [Hk Hv].
  split.
  - unfold download_one.
    unfold bind at 1. simpl py_iter. unfold ret at 1.
    unfold bind at 1. rewrite (@song_urls_of_menu songs w Htracks).
    unfold bind at 1.
    rewrite (@list_and_select_picks E json (song_menu songs) [] line rest i name
               (JStr url) w Hin eq_refl Hq Hp Hk Hv).
    change (passes E (song_menu songs) []) with (shown (song_menu songs)).
    fold folder. fold path.
    unfold bind at 1. unfold makedirs. rewrite Hmk.
    fold (with_dir folder (reading rest (shown (song_menu songs)) w)).
    unfold bind at 1. rewrite download_mp3_run. cbv zeta.
    change (List.length (sent (with_dir folder (reading rest (shown (song_menu songs)) w))))
      with (List.length (sent w)).
    rewrite Hnet, Hst, Hopen, concat_nonempty.
    unfold bind at 1. unfold bind at 1.
    destruct (@next_named_tracks songs name
                (with_file path (MkFile (concat (pieces 1024%N)) None)
                   (sending (download_request url)
                      (with_dir folder (reading rest (shown (song_menu songs)) w))))
                Htracks) as (song_data & Hnext & Hmem).
    { apply song_menu_keys. eapply nth_error_In; exact Hk. }
    rewrite Hnext.
    destruct (@list_index_In songs song_data Hmem) as [idx ->].
    rewrite call_add_metadata_three. reflexivity.
  - rewrite song_menu_get in Hv.
    destruct (last_named songs name) as [song|]; [|discriminate].
    injection Hv as Hv. exists song. split; [reflexivity|exact Hv].
Qed.



(** X20 on two tracks of one name: the URL requested is the second one. *)
Lemma download_one_crashes_after_download_witness :
  download_one env_audio (JArr twins) (u "A") (world_of [u "0"])
  = (Raise (TypeError (MissingArgument "add_metadata" "song_data")),
     MkWorld [] [MenuLine 0 (u "Song1"); AskSelection]
       [MkRequest (u "https://valaam.ru/b.mp3") None true]
       [(u "downloads/A/Song1.mp3", MkFile (encode_ascii (u "ID3audio")) None)]
       [u "downloads/A"] []).
Proof.
  apply (proj1 (@download_one_crashes_after_download env_audio twins (u "A") (u "0")
                  (u "Song1") (u "/b.mp3") [] 0 (world_of [u "0"]) 200
                  (fun _ => audio_pieces)
                  ltac:(repeat (constructor; [vm_compute; discriminate|]); constructor)
                  eq_refl eq_refl
                  ltac:(vm_compute; reflexivity) ltac:(vm_compute; reflexivity)
                  eq_refl eq_refl eq_refl eq_refl)).
Defined.



(* ================================================================== *)
(** ** Further properties: what the bulk download touches *)


Lemma bulk_step_refl (w : World) : bulk_step w w.
Proof.
  repeat split; exists []; (split; [now rewrite app_nil_r|reflexivity]).
Qed.

Lemma bulk_step_trans (w w1 w2 : World) :
  bulk_step w w1 -> bulk_step w1 w2 -> bulk_step w w2.
Proof.
  intros (Hi & Hd & (new & Hs & Hn) & (said & Ho & Hp))
         (Hi' & Hd' & (new' & Hs' & Hn') & (said' & Ho' & Hp')).
  split; [congruence|]. split; [congruence|]. split.
  - exists (new ++ new'). split.
    + rewrite Hs', Hs, app_assoc. reflexivity.
    + rewrite forallb_app, Hn, Hn'. reflexivity.
  - exists (said ++ said'). split.
    + rewrite Ho', Ho, app_assoc. reflexivity.
    + rewrite forallb_app, Hp, Hp'. reflexivity.
Qed.

(** [add_metadata] changes files and saved tags only, and never waits. *)
Lemma add_metadata_frame (E : Env) (path : str) (album_data song_data : json)
    (index : Z) (w w' : World) (r : result unit) :
  add_metadata E path album_data song_data index w = (r, w') ->
  r <> Await /\ stdin w' = stdin w /\ stdout w' = stdout w
  /\ sent w' = sent w /\ dirs w' = dirs w.
Proof.
  unfold add_metadata, bind.
  pose proof (open_tags_keeps E path w) as H0.
  assert (Hopen : fst (open_tags E path w) <> Await).
  { unfold open_tags, bind, get_files.
    destruct (dict_get (files w) path) as [f|]; [|discriminate].
    destruct (f_saved f); [discriminate|].
    destruct (mutagen_read E (f_body f)); discriminate. }
  destruct (open_tags E path w) as [[audio| | |] w0]; simpl in H0, Hopen; subst w0;
    try (intros H; injection H as <- <-; repeat split; discriminate);
    [|contradiction].
  pose proof (getitem_keeps song_data (u "name") w) as H1.
  assert (Hget : forall k, fst (getitem song_data k w) <> Await).
  { intros k. destruct song_data; try discriminate. simpl.
    destruct (dict_get d k); discriminate. }
  pose proof (Hget (u "name")) as Hg1.
  destruct (getitem song_data (u "name") w) as [[name| | |] w1]; simpl in H1, Hg1;
    subst w1; try (intros H; injection H as <- <-; repeat split; discriminate);
    [|contradiction].
  assert (Hstr : forall v, fst (as_str v w) <> Await) by (intros []; discriminate).
  pose proof (as_str_keeps name w) as H2. pose proof (Hstr name) as Hs2.
  destruct (as_str name w) as [[title| | |] w2]; simpl in H2, Hs2; subst w2;
    try (intros H; injection H as <- <-; repeat split; discriminate);
    [|contradiction].
  pose proof (as_str_keeps album_data w) as H3. pose proof (Hstr album_data) as Hs3.
  destruct (as_str album_data w) as [[album| | |] w3]; simpl in H3, Hs3; subst w3;
    try (intros H; injection H as <- <-; repeat split; discriminate);
    [|contradiction].
  pose proof (getitem_keeps song_data (u "artist") w) as H4.
  pose proof (Hget (u "artist")) as Hg4.
  destruct (getitem song_data (u "artist") w) as [[artist| | |] w4]; simpl in H4, Hg4;
    subst w4; try (intros H; injection H as <- <-; repeat split; discriminate);
    [|contradiction].
  pose proof (as_str_keeps artist w) as H5. pose proof (Hstr artist) as Hs5.
  destruct (as_str artist w) as [[artist'| | |] w5]; simpl in H5, Hs5; subst w5;
    try (intros H; injection H as <- <-; repeat split; discriminate);
    [|contradiction].
  unfold save_tags. destruct (dict_get (files w) path) as [f|];
    intros H; injection H as <- <-; repeat split; discriminate.
Qed.

(** One pass of the loop of [download_playlist], on any element. *)
Lemma download_song_frame (E : Env) (folder album : str) (index : Z) (song : json)
    (w : World) :
  fst (download_song E folder album index song w) <> Await
  /\ bulk_step w (snd (download_song E folder album index song w)).
Proof.
  unfold download_song, bind.
  pose proof (getitem_keeps song (u "name") w) as H1.
  assert (Hget : forall k, fst (getitem song k w) <> Await).
  { intros k. destruct song; try discriminate. simpl.
    destruct (dict_get d k); discriminate. }
  pose proof (Hget (u "name")) as Hg1.
  destruct (getitem song (u "name") w) as [[vn| | |] w1]; simpl in H1, Hg1; subst w1;
    try (split; [discriminate|apply bulk_step_refl]); [|contradiction].
  pose proof (getitem_keeps song (u "url") w) as H2.
  pose proof (Hget (u "url")) as Hg2.
  destruct (getitem song (u "url") w) as [[vu| | |] w2]; simpl in H2, Hg2; subst w2;
    try (split; [discriminate|apply bulk_step_refl]); [|contradiction].
  pose proof (as_str_keeps vn w) as H3.
  assert (Hs3 : fst (as_str vn w) <> Await) by (destruct vn; discriminate).
  destruct (as_str vn w) as [[name| | |] w3]; simpl in H3, Hs3; subst w3;
    try (split; [discriminate|apply bulk_step_refl]); [|contradiction].
  set (path := path_join folder (name ++ u ".mp3")).
  destruct vu as [|b|z|x|url|l|d];
    try (split; [discriminate|apply bulk_step_refl]).
  destruct (download_mp3_ends E url path w) as ((Hs & Hi & Hd & _) & _ & Hr).
  assert (Hstep : bulk_step w (snd (download_mp3 E (JStr url) path w))).
  { split; [exact Hi|]. split; [exact Hd|]. split.
    - exists [download_request url]. split; [exact Hs|reflexivity].
    - destruct Hr as [(_ & Ho)|[(e & _ & Ho)|(_ & _ & Ho & _)]].
      + exists []. split; [now rewrite app_nil_r|reflexivity].
      + exists [SayDownloadError path e]. split; [exact Ho|reflexivity].
      + exists []. split; [now rewrite app_nil_r|reflexivity]. }
  assert (Hnw : fst (download_mp3 E (JStr url) path w) <> Await).
  { destruct Hr as [(-> & _)|[(e & -> & _)|(-> & _)]]; discriminate. }
  destruct (download_mp3 E (JStr url) path w) as [[[|]| | |] w4]; simpl in Hstep, Hnw;
    try (split; [discriminate|exact Hstep]); [|contradiction].
  rewrite call_add_metadata_four.
  destruct (add_metadata E path (JStr album) song index w4) as [r5 w5] eqn:Ha.
  destruct (@add_metadata_frame E path (JStr album) song index w4 w5 r5 Ha)
    as (Hr5 & Hi5 & Ho5 & Hs5 & Hd5).
  simpl. split; [exact Hr5|].
  apply (@bulk_step_trans w w4 w5 Hstep).
  split; [exact Hi5|]. split; [exact Hd5|]. split.
  - exists []. split; [now rewrite app_nil_r|reflexivity].
  - exists []. split; [now rewrite app_nil_r|reflexivity].
Qed.

Lemma download_loop_frame (E : Env) (folder album : str) (l : list (Z * json)) :
  forall w,
    fst (for_each l (fun '(index, song) => download_song E folder album index song) w)
    <> Await
    /\ bulk_step w
         (snd (for_each l (fun '(index, song) => download_song E folder album index song)
                 w)).
Proof.
  induction l as [|[index song] l IH]; intros w.
  - simpl. split; [discriminate|apply bulk_step_refl].
  - simpl for_each. unfold bind.
    destruct (download_song_frame E folder album index song w) as [Hr Hstep].
    destruct (download_song E folder album index song w) as [[[]| | |] w1];
      simpl in Hr, Hstep; try (split; [discriminate|exact Hstep]); [|contradiction].
    destruct (IH w1) as [Hr' Hstep'].
    split; [exact Hr'|]. eapply bulk_step_trans; eassumption.
Qed.


Lemma path_join_absolute (a b : str) :
  startswith (u "/") b = true -> path_join a b = b.
Proof. unfold path_join. now intros ->. Qed.

(** X23.  Names are used as paths as they are.  The script joins the album
    label and the track name into the destination with [os.path.join] and
    checks neither: when the track's name begins with a slash, a successful
    pass of the loop of [download_playlist] writes and tags the file at that
    absolute path with the extension mp3, outside the album folder; and when
    the album label begins with a slash, the folder made is the label
    itself, not a folder inside downloads. *)
Theorem download_song_outside_folder (E : Env) (folder album name url artist : str)
    (song : json) (index : Z) (w : World) (status : Z) (pieces : N -> list bytes)
    (base : tags) :
  track_fields song = Some (name, url, artist) ->
  startswith (u "/") name = true ->
  net E (List.length (sent w)) (download_request url) = Reply status pieces None ->
  raises_for_status status = false ->
  can_open E (name ++ u ".mp3") = true ->
  existing_tags E (MkFile (concat (pieces 1024%N)) None) = Some base ->
  files (snd (download_song E folder album index song w))
  = dict_set (files w) (name ++ u ".mp3")
      (MkFile (concat (pieces 1024%N)) (Some (four_tags base name album artist index)))
  /\ (forall w0 songs,
         startswith (u "/") album = true ->
         can_makedirs E album = true ->
         dirs (snd (download_playlist E (JArr songs) album w0)) = dirs w0 ++ [album]).
Proof.
  intros Htf Hname Hnet Hst Hopen Hbase.
  assert (Hpath : path_join folder (name ++ u ".mp3") = name ++ u ".mp3").
  { apply path_join_absolute. destruct name as [|c name]; [discriminate|exact Hname]. }
  split.
  - apply track_fields_inv in Htf as (d & -> & Hn & Hu & Ha).
    rewrite <- Hpath in Hopen.
    rewrite (@download_song_success E folder album name url artist d index w status
               pieces base Hn Hu Ha Hnet Hst Hopen Hbase).
    simpl. now rewrite Hpath.
  - intros w0 songs Halbum Hmk.
    assert (Hfolder : path_join (u "downloads") album = album)
      by now apply path_join_absolute.
    unfold download_playlist. rewrite Hfolder.
    unfold bind at 1. unfold makedirs. rewrite Hmk.
    fold (with_dir album w0).
    unfold bind at 1. simpl py_iter. unfold ret at 1.
    destruct (download_loop_frame E album album (enumerate 1 songs) (with_dir album w0))
      as (_ & _ & Hd & _).
    exact Hd.
Qed.

(** X23 on a track named /tmp/x: the file is written at /tmp/x.mp3. *)
Lemma download_song_outside_folder_witness :
  map fst (files (snd (download_song env_audio (u "downloads/A") (u "A") 1 song_absolute
                         (world_of []))))
  = [u "/tmp/x.mp3"].
Proof.
  rewrite (proj1 (@download_song_outside_folder env_audio (u "downloads/A") (u "A")
                    (u "/tmp/x") (u "/s1.mp3") (u "X") song_absolute 1 (world_of [])
                    200 (fun _ => audio_pieces) []
                    eq_refl eq_refl eq_refl eq_refl eq_refl eq_refl)).
  reflexivity.
Defined.

(* ================================================================== *)
(** ** Further properties: elements that are not tracks *)


Lemma enumerate_app {A} (l1 l2 : list A) (n : Z) :
  enumerate n (l1 ++ l2)
  = enumerate n l1 ++ enumerate (n + Z.of_nat (List.length l1)) l2.
Proof.
  revert n; induction l1 as [|x l1 IH]; intros n.
  - simpl. now rewrite Z.add_0_r.
  - cbn [app enumerate List.length]. rewrite IH. do 3 f_equal. lia.
Qed.

Lemma for_each_app {A} (l1 l2 : list A) (body : A -> M unit) (w : World) :
  for_each (l1 ++ l2) body w
  = match for_each l1 body w with
    | (Ret _, w1) => for_each l2 body w1
    | (Raise e, w1) => (Raise e, w1)
    | (Await, w1) => (Await, w1)
    | (Unmodelled, w1) => (Unmodelled, w1)
    end.
Proof.
  revert w; induction l1 as [|x l1 IH]; intros w; [reflexivity|].
  simpl. unfold bind. destruct (body x w) as [[[]| | |] w1]; try reflexivity.
  apply IH.
Qed.

Lemma download_song_malformed (E : Env) (folder album : str) (index : Z) (song : json)
    (e : exn) (w : World) :
  malformed song = Some e ->
  download_song E folder album index song w = (Raise e, w).
Proof.
  unfold malformed, download_song, bind, getitem.
  destruct song as [|b|z|x|s|l|d]; try (intros H; injection H as <-; reflexivity).
  destruct (dict_get d (u "name")) as [vn|]; [|intros H; injection H as <-; reflexivity].
  destruct (dict_get d (u "url")) as [vu|]; [discriminate|].
  intros H; injection H as <-. reflexivity.
Qed.

(** X21.  An element of the playlist that is not a track stops the bulk
    download.  When the elements before it are tracks (and the folder can be
    made, files opened and downloaded audio read by the tag library),
    [download_playlist] goes through those, one request each, and then
    raises on the element that is not an object or lacks its name or its
    URL: a TypeError or the KeyError of the missing key.  Nothing is
    requested for that element nor for any element after it. *)
Theorem download_playlist_stops_at_malformed (E : Env) (good : list json) (bad : json)
    (rest : list json) (album : str) (e : exn) (w : World) :
  Forall is_track good ->
  malformed bad = Some e ->
  can_makedirs E (path_join (u "downloads") album) = true ->
  (forall p, can_open E p = true) ->
  (forall b, mutagen_read E b <> Unreadable) ->
  let run := download_playlist E (JArr (good ++ bad :: rest)) album w in
  fst run = Raise e
  /\ List.length (sent (snd run)) = List.length (sent w) + List.length good
  /\ dirs (snd run) = dirs w ++ [path_join (u "downloads") album].
Proof.
  intros Hgood Hbad Hmk Hopen Hread run. subst run.
  set (folder := path_join (u "downloads") album) in *.
  destruct (@download_loop_spec E folder album good Hopen Hread Hgood 0
              (List.length (sent w)) (with_dir folder w))
    as (w' & Hloop & Hlen & new & Htag & _).
  { simpl; lia. }
  assert (Hrun : download_playlist E (JArr (good ++ bad :: rest)) album w = (Raise e, w')).
  { unfold download_playlist. fold folder.
    unfold bind at 1. unfold makedirs. rewrite Hmk. fold (with_dir folder w).
    unfold bind at 1. simpl py_iter. unfold ret at 1.
    rewrite enumerate_app, for_each_app.
    change 1%Z with (Z.of_nat 0 + 1)%Z at 1. rewrite Hloop.
    cbn [enumerate for_each]. unfold bind at 1.
    now rewrite (@download_song_malformed E folder album _ bad e w' Hbad). }
  rewrite Hrun. cbn [fst snd]. split; [reflexivity|]. split; [lia|].
  destruct (download_loop_frame E folder album (enumerate (Z.of_nat 0 + 1) good)
              (with_dir folder w)) as (_ & _ & Hd & _).
  rewrite Hloop in Hd. exact Hd.
Qed.


(** X21 on three elements of which the second has no URL: one request, then
    KeyError. *)
Lemma download_playlist_stops_at_malformed_witness :
  let run := download_playlist env_audio (JArr songs_second_malformed) (u "A")
               (world_of []) in
  fst run = Raise (KeyError (u "url"))
  /\ List.length (sent (snd run)) = 1
  /\ dirs (snd run) = [u "downloads/A"].
Proof.
  apply (@download_playlist_stops_at_malformed env_audio [song "Song1" "/s1.mp3" "X"]
           (JObj [(u "name", JStr (u "Song2"))]) [song "Song3" "/s3.mp3" "Z"] (u "A")
           (KeyError (u "url")) (world_of [])).
  - repeat constructor. vm_compute; discriminate.
  - reflexivity.
  - reflexivity.
  - reflexivity.
  - discriminate.
Defined.

(* ================================================================== *)
(** ** Further properties: pages in UTF-8 *)



Lemma to_N_byte_of (n : N) : (n < 256)%N -> Byte.to_N (byte_of n) = n.
Proof.
  intros Hn. unfold byte_of.
  destruct (Byte.of_N n) as [b|] eqn:Hb.
  - now apply Byte.to_of_N.
  - apply Byte.of_N_None_iff in Hb. lia.
Qed.

Lemma utf8_decode_one (b0 : byte) (r : bytes) :
  (Byte.to_N b0 < 128)%N ->
  utf8_decode (b0 :: r) = option_map (cons (Byte.to_N b0)) (utf8_decode r).
Proof.
  intros H. cbn [utf8_decode]. apply N.ltb_lt in H. rewrite H.
  destruct (utf8_decode r); reflexivity.
Qed.

Lemma utf8_decode_two (b0 b1 : byte) (r : bytes) :
  (194 <= Byte.to_N b0 <= 223)%N ->
  (128 <= Byte.to_N b1 <= 191)%N ->
  utf8_decode (b0 :: b1 :: r)
  = option_map (cons ((Byte.to_N b0 - 192) * 64 + (Byte.to_N b1 - 128))%N)
      (utf8_decode r).
Proof.
  intros H0 H1. cbn [utf8_decode]. unfold cont_byte.
  destruct (N.ltb_spec (Byte.to_N b0) 128); [lia|].
  destruct (N.leb_spec 194 (Byte.to_N b0)); [|lia].
  destruct (N.leb_spec (Byte.to_N b0) 223); [|lia].
  destruct (N.leb_spec 128 (Byte.to_N b1)); [|lia].
  destruct (N.leb_spec (Byte.to_N b1) 191); [|lia].
  cbn [andb]. destruct (utf8_decode r); reflexivity.
Qed.

Lemma utf8_decode_three (b0 b1 b2 : byte) (r : bytes) :
  (224 <= Byte.to_N b0 <= 239)%N ->
  (128 <= Byte.to_N b1 <= 191)%N ->
  (128 <= Byte.to_N b2 <= 191)%N ->
  (Byte.to_N b0 = 224 -> 160 <= Byte.to_N b1)%N ->
  (Byte.to_N b0 = 237 -> Byte.to_N b1 < 160)%N ->
  utf8_decode (b0 :: b1 :: b2 :: r)
  = option_map
      (cons (((Byte.to_N b0 - 224) * 64 + (Byte.to_N b1 - 128)) * 64
             + (Byte.to_N b2 - 128))%N)
      (utf8_decode r).
Proof.
  intros H0 H1 H2 Hlow Hsur. cbn [utf8_decode]. unfold cont_byte.
  destruct (N.ltb_spec (Byte.to_N b0) 128); [lia|].
  destruct (N.leb_spec 194 (Byte.to_N b0)); [|lia].
  destruct (N.leb_spec (Byte.to_N b0) 223); [lia|].
  destruct (N.leb_spec 224 (Byte.to_N b0)); [|lia].
  destruct (N.leb_spec (Byte.to_N b0) 239); [|lia].
  destruct (N.leb_spec 128 (Byte.to_N b1)); [|lia].
  destruct (N.leb_spec (Byte.to_N b1) 191); [|lia].
  destruct (N.leb_spec 128 (Byte.to_N b2)); [|lia].
  destruct (N.leb_spec (Byte.to_N b2) 191); [|lia].
  cbn [andb].
  assert (Ha : ((Byte.to_N b0 =? 224) && (Byte.to_N b1 <? 160))%N = false).
  { destruct (N.eqb_spec (Byte.to_N b0) 224); [|reflexivity].
    destruct (N.ltb_spec (Byte.to_N b1) 160); [|reflexivity]. specialize (Hlow e). lia. }
  assert (Hb : ((Byte.to_N b0 =? 237) && (160 <=? Byte.to_N b1))%N = false).
  { destruct (N.eqb_spec (Byte.to_N b0) 237); [|reflexivity].
    destruct (N.leb_spec 160 (Byte.to_N b1)); [|reflexivity]. specialize (Hsur e). lia. }
  rewrite Ha, Hb. cbn [negb andb]. destruct (utf8_decode r); reflexivity.
Qed.

Lemma utf8_decode_four (b0 b1 b2 b3 : byte) (r : bytes) :
  (240 <= Byte.to_N b0 <= 244)%N ->
  (128 <= Byte.to_N b1 <= 191)%N ->
  (128 <= Byte.to_N b2 <= 191)%N ->
  (128 <= Byte.to_N b3 <= 191)%N ->
  (Byte.to_N b0 = 240 -> 144 <= Byte.to_N b1)%N ->
  (Byte.to_N b0 = 244 -> Byte.to_N b1 < 144)%N ->
  utf8_decode (b0 :: b1 :: b2 :: b3 :: r)
  = option_map
      (cons ((((Byte.to_N b0 - 240) * 64 + (Byte.to_N b1 - 128)) * 64
              + (Byte.to_N b2 - 128)) * 64 + (Byte.to_N b3 - 128))%N)
      (utf8_decode r).
Proof.
  intros H0 H1 H2 H3 Hlow Hhigh. cbn [utf8_decode]. unfold cont_byte.
  destruct (N.ltb_spec (Byte.to_N b0) 128); [lia|].
  destruct (N.leb_spec 194 (Byte.to_N b0)); [|lia].
  destruct (N.leb_spec (Byte.to_N b0) 223); [lia|].
  destruct (N.leb_spec 224 (Byte.to_N b0)); [|lia].
  destruct (N.leb_spec (Byte.to_N b0) 239); [lia|].
  destruct (N.leb_spec 240 (Byte.to_N b0)); [|lia].
  destruct (N.leb_spec (Byte.to_N b0) 244); [|lia].
  destruct (N.leb_spec 128 (Byte.to_N b1)); [|lia].
  destruct (N.leb_spec (Byte.to_N b1) 191); [|lia].
  destruct (N.leb_spec 128 (Byte.to_N b2)); [|lia].
  destruct (N.leb_spec (Byte.to_N b2) 191); [|lia].
  destruct (N.leb_spec 128 (Byte.to_N b3)); [|lia].
  destruct (N.leb_spec (Byte.to_N b3) 191); [|lia].
  cbn [andb].
  assert (Ha : ((Byte.to_N b0 =? 240) && (Byte.to_N b1 <? 144))%N = false).
  { destruct (N.eqb_spec (Byte.to_N b0) 240); [|reflexivity].
    destruct (N.ltb_spec (Byte.to_N b1) 144); [|reflexivity]. specialize (Hlow e). lia. }
  assert (Hb : ((Byte.to_N b0 =? 244) && (144 <=? Byte.to_N b1))%N = false).
  { destruct (N.eqb_spec (Byte.to_N b0) 244); [|reflexivity].
    destruct (N.leb_spec 144 (Byte.to_N b1)); [|reflexivity]. specialize (Hhigh e). lia. }
  rewrite Ha, Hb. cbn [negb andb]. destruct (utf8_decode r); reflexivity.
Qed.

(** Decoding the encoding of one scalar value gives it back. *)
Lemma utf8_decode_encode_char (c : char) (r : bytes) :
  scalar c = true ->
  utf8_decode (utf8_encode_char c ++ r) = option_map (cons c) (utf8_decode r).
Proof.
  unfold scalar, utf8_encode_char. intros Hc.
  assert (Hrange : (c < 55296 \/ 57343 < c <= 1114111)%N).
  { apply orb_prop in Hc as [H|H].
    - apply N.ltb_lt in H. now left.
    - apply andb_prop in H as [H1 H2]. apply N.ltb_lt in H1. apply N.leb_le in H2.
      right; split; assumption. }
  clear Hc.
  pose proof (N.div_mod c 64 ltac:(discriminate)) as E1.
  pose proof (N.mod_lt c 64 ltac:(discriminate)) as L1.
  pose proof (N.div_mod (c / 64) 64 ltac:(discriminate)) as E2.
  pose proof (N.mod_lt (c / 64) 64 ltac:(discriminate)) as L2.
  pose proof (N.div_mod (c / 64 / 64) 64 ltac:(discriminate)) as E3.
  pose proof (N.mod_lt (c / 64 / 64) 64 ltac:(discriminate)) as L3.
  cbv zeta.
  set (q1 := (c / 64)%N) in *. set (r1 := (c mod 64)%N) in *.
  set (q2 := (q1 / 64)%N) in *. set (r2 := (q1 mod 64)%N) in *.
  set (q3 := (q2 / 64)%N) in *. set (r3 := (q2 mod 64)%N) in *.
  destruct (N.ltb_spec c 128) as [H1|H1].
  { cbn [app]. rewrite utf8_decode_one by (rewrite to_N_byte_of; lia).
    rewrite to_N_byte_of by lia. reflexivity. }
  destruct (N.ltb_spec c 2048) as [H2|H2].
  { cbn [app]. rewrite utf8_decode_two by (rewrite to_N_byte_of; lia).
    rewrite !to_N_byte_of by lia. f_equal. f_equal. lia. }
  destruct (N.ltb_spec c 65536) as [H3|H3].
  { cbn [app]. rewrite utf8_decode_three by (rewrite ?to_N_byte_of; lia).
    rewrite !to_N_byte_of by lia. f_equal. f_equal. lia. }
  cbn [app]. rewrite utf8_decode_four by (rewrite ?to_N_byte_of; lia).
  rewrite !to_N_byte_of by lia. f_equal. f_equal. lia.
Qed.

(** Decoding the UTF-8 encoding of a text gives the text back. *)
Lemma utf8_decode_encode (s : str) :
  forallb scalar s = true -> utf8_decode (utf8_encode s) = Some s.
Proof.
  induction s as [|c s IH]; [reflexivity|].
  simpl forallb. intros H; apply andb_prop in H as [Hc Hs].
  unfold utf8_encode. cbn [flat_map]. fold (utf8_encode s).
  rewrite (@utf8_decode_encode_char c (utf8_encode s) Hc), (IH Hs). reflexivity.
Qed.


(** X22.  [get_page] returns the text of a page served in UTF-8, whatever
    its characters.  When the answer has a status that [raise_for_status]
    accepts and its body is the UTF-8 encoding of a text (of any Unicode
    scalar values: one to four bytes each), [get_page] returns exactly that
    text: decoding the encoding of a text gives the text back. *)
Theorem get_page_utf8 (E : Env) (url : str) (w : World) (status : Z)
    (pieces : N -> list bytes) (text : str) :
  net E (List.length (sent w)) (page_request url) = Reply status pieces None ->
  raises_for_status status = false ->
  forallb scalar text = true ->
  concat (pieces CONTENT_CHUNK_SIZE) = utf8_encode text ->
  utf8_decode (utf8_encode text) = Some text
  /\ get_page E url w = (Ret text, sending (page_request url) w).
Proof.
  intros Hnet Hst Htext Hbody.
  pose proof (@utf8_decode_encode text Htext) as Hdec.
  split; [exact Hdec|].
  rewrite get_page_run, Hnet, Hst, Hbody, Hdec. reflexivity.
Qed.

(** X22 on a text in Cyrillic with a character of four bytes. *)
Lemma get_page_utf8_witness :
  get_page (env_of (fun _ => page 200 (utf8_encode cyrillic_sample))) chants_url
    (world_of [])
  = (Ret cyrillic_sample, sending (page_request chants_url) (world_of [])).
Proof.
  apply (proj2 (@get_page_utf8 (env_of (fun _ => page 200 (utf8_encode cyrillic_sample)))
                  chants_url (world_of []) 200
                  (fun _ => [utf8_encode cyrillic_sample]) cyrillic_sample
                  eq_refl eq_refl eq_refl ltac:(vm_compute; reflexivity))).
Defined.

(** The greedy repetition succeeds whenever some count of matching
    characters lets the rest of the pattern match. *)
Lemma rep_greedy_complete {R} dotall k (cont : str -> nat -> option R) :
  forall s min pos n,
    min <= n -> n <= List.length s ->
    forallb (cls_match dotall k) (firstn n s) = true ->
    cont (skipn n s) (pos + n) <> None ->
    rep_greedy dotall k min s pos cont <> None.
Proof.
  induction s as [|c s IH]; intros min pos n Hmin Hlen Hall Hcont.
  - simpl in Hlen. assert (n = 0) by lia. subst n. assert (min = 0) by lia. subst min.
    simpl. simpl in Hcont. now rewrite Nat.add_0_r in Hcont.
  - simpl. destruct n as [|n].
    + assert (min = 0) by lia. subst min. simpl in Hcont.
      rewrite Nat.add_0_r in Hcont.
      destruct (cls_match dotall k c); [|exact Hcont].
      destruct (rep_greedy dotall k (Nat.pred 0) s (S pos) cont); [discriminate|].
      exact Hcont.
    + simpl in Hall, Hlen. apply andb_prop in Hall as [Hc Hall]. rewrite Hc.
      assert (Hrec : rep_greedy dotall k (Nat.pred min) s (S pos) cont <> None).
      { apply (IH (Nat.pred min) (S pos) n); try lia; [exact Hall|].
        simpl in Hcont. now rewrite Nat.add_succ_r in Hcont. }
      destruct (rep_greedy dotall k (Nat.pred min) s (S pos) cont);
        [discriminate|contradiction].
Qed.

Lemma rep_lazy_complete {R} dotall k (cont : str -> nat -> option R) :
  forall s min pos n,
    min <= n -> n <= List.length s ->
    forallb (cls_match dotall k) (firstn n s) = true ->
    cont (skipn n s) (pos + n) <> None ->
    rep_lazy dotall k min s pos cont <> None.
Proof.
  induction s as [|c s IH]; intros min pos n Hmin Hlen Hall Hcont.
  - simpl in Hlen. assert (n = 0) by lia. subst n. assert (min = 0) by lia. subst min.
    simpl. simpl in Hcont. rewrite Nat.add_0_r in Hcont.
    destruct (cont [] pos); [discriminate|contradiction].
  - simpl. destruct n as [|n].
    + assert (min = 0) by lia. subst min. simpl in Hcont.
      rewrite Nat.add_0_r in Hcont.
      destruct (cont (c :: s) pos); [discriminate|contradiction].
    + simpl in Hall, Hlen. apply andb_prop in Hall as [Hc Hall]. rewrite Hc.
      assert (Hrec : rep_lazy dotall k (Nat.pred min) s (S pos) cont <> None).
      { apply (IH (Nat.pred min) (S pos) n); try lia; [exact Hall|].
        simpl in Hcont. now rewrite Nat.add_succ_r in Hcont. }
      destruct min; [|exact Hrec].
      destruct (cont (c :: s) pos); [discriminate|exact Hrec].
Qed.

(** The matcher finds a match wherever one is accepted. *)
Lemma match_here_complete dotall start p :
  forall s st st' s',
    accepted dotall p s st st' s' ->
    match_here dotall false start p s st <> None.
Proof.
  induction p as [|[k|k min greedy|g|g] p IH]; intros s st st' s'; simpl.
  - intros _. discriminate.
  - destruct s as [|c s]; [contradiction|]. intros [Hc H]. rewrite Hc.
    eapply IH; exact H.
  - intros (n & Hmin & Hlen & Hall & H).
    destruct greedy.
    + apply (@rep_greedy_complete _ dotall k _ s min (m_pos st) n Hmin Hlen Hall).
      eapply IH; exact H.
    + apply (@rep_lazy_complete _ dotall k _ s min (m_pos st) n Hmin Hlen Hall).
      eapply IH; exact H.
  - apply IH.
  - destruct (assoc_nat (m_open st) g); [apply IH|contradiction].
Qed.

Lemma accepted_app_intro dotall p1 p2 :
  forall s st st1 s1 st' s',
    accepted dotall p1 s st st1 s1 ->
    accepted dotall p2 s1 st1 st' s' ->
    accepted dotall (p1 ++ p2) s st st' s'.
Proof.
  induction p1 as [|[k|k min greedy|g|g] p1 IH]; intros s st st1 s1 st' s'; simpl.
  - intros [-> ->] H. exact H.
  - destruct s as [|c s]; [contradiction|]. intros [Hc H1] H2.
    split; [exact Hc|]. eapply IH; eassumption.
  - intros (n & Hmin & Hlen & Hall & H1) H2.
    exists n. repeat split; try assumption. eapply IH; eassumption.
  - intros H1 H2. eapply IH; eassumption.
  - destruct (assoc_nat (m_open st) g); [|contradiction].
    intros H1 H2. eapply IH; eassumption.
Qed.

(** A literal accepts itself. *)
Lemma accepted_literal dotall (l : list char) (s : str) (st : mstate) :
  accepted dotall (map (fun c => One (CChar c)) l) (l ++ s) st
    (MState (m_pos st + List.length l) (m_open st) (m_caps st)) s.
Proof.
  revert st; induction l as [|x l IH]; intros st; simpl.
  - rewrite Nat.add_0_r. now destruct st.
  - rewrite N.eqb_refl. split; [reflexivity|].
    rewrite Nat.add_succ_r. apply (IH (MState (S (m_pos st)) (m_open st) (m_caps st))).
Qed.

(** A repetition accepts a run of characters of its class. *)
Lemma accepted_run dotall k min greedy (l s : str) (st : mstate) :
  min <= List.length l ->
  forallb (cls_match dotall k) l = true ->
  accepted dotall [Rep k min greedy] (l ++ s) st
    (MState (m_pos st + List.length l) (m_open st) (m_caps st)) s.
Proof.
  intros Hmin Hall. simpl. exists (List.length l).
  split; [exact Hmin|]. split; [rewrite length_app; lia|].
  rewrite firstn_app, Nat.sub_diag, firstn_all. simpl. rewrite app_nil_r.
  split; [exact Hall|].
  rewrite skipn_app, Nat.sub_diag, skipn_all. simpl. split; reflexivity.
Qed.

Lemma plain_unquoted dotall (l : str) :
  plain l ->
  1 <= List.length l /\ forallb (cls_match dotall (CNot [dquote])) l = true.
Proof.
  intros [Hne Hq]. split.
  - destruct l; [contradiction|simpl; lia].
  - apply forallb_forall. intros c Hc. simpl. rewrite orb_false_r.
    destruct (N.eqb_spec c dquote) as [->|]; [contradiction|reflexivity].
Qed.

(** A plain anchor is accepted by the option pattern. *)
Lemma anchor_accepted (href title after : str) (pos : nat) :
  plain href -> plain title ->
  exists st' s',
    accepted false chant_pattern (anchor_text href title ++ after) (MState pos [] [])
      st' s'.
Proof.
  intros Hh Ht.
  destruct (@plain_unquoted false href Hh) as [Hh1 Hh2].
  destruct (@plain_unquoted false title Ht) as [Ht1 Ht2].
  rewrite chant_pattern_pieces. unfold anchor_text.
  do 2 eexists.
  (* the head: the tag, white space, the attribute and its quote *)
  eapply accepted_app_intro.
  { change chant_head
      with (map (fun c => One (CChar c)) (u "<a") ++ [Rep CSpace 1 true]
            ++ map (fun c => One (CChar c)) (u "href=" ++ [dquote])).
    change ((u "<a href=" ++ dquote :: href ++ dquote :: u " class=" ++ dquote
              :: u "chants-title" ++ dquote :: u " title=" ++ dquote :: title
              ++ dquote :: u ">") ++ after)
      with (u "<a" ++ u " " ++ (u "href=" ++ [dquote])
            ++ (href ++ dquote :: u " class=" ++ dquote
              :: u "chants-title" ++ dquote :: u " title=" ++ dquote :: title
              ++ dquote :: u ">") ++ after).
    eapply accepted_app_intro; [apply accepted_literal|].
    eapply accepted_app_intro; [apply accepted_run; [simpl; lia|reflexivity]|].
    apply accepted_literal. }
  cbn [m_pos m_open m_caps].
  (* the first group *)
  cbn [accepted].
  rewrite <- app_assoc.
  change (unquoted ++ Close 1 :: chant_middle ++ Open 2 :: unquoted ++ Close 2 :: chant_tail)
    with (unquoted ++ (Close 1 :: chant_middle ++ Open 2 :: unquoted ++ Close 2 :: chant_tail)).
  eapply accepted_app_intro; [apply accepted_run; [exact Hh1|exact Hh2]|].
  cbn [accepted m_pos m_open m_caps assoc_nat Nat.eqb].
  (* the middle: quote, white space, the class attribute, white space, title= *)
  eapply accepted_app_intro.
  { change chant_middle
      with (map (fun c => One (CChar c)) [dquote] ++ [Rep (CNot (u ">")) 0 true]
            ++ [Rep CSpace 1 true]
            ++ map (fun c => One (CChar c)) (u "class=" ++ dquote :: u "chants-title")
            ++ [Rep (CNot [dquote]) 0 true]
            ++ map (fun c => One (CChar c)) [dquote]
            ++ [Rep CSpace 1 true]
            ++ map (fun c => One (CChar c)) (u "title=" ++ [dquote])).
    change ((dquote :: u " class=" ++ dquote :: u "chants-title" ++ dquote
              :: u " title=" ++ dquote :: title ++ dquote :: u ">") ++ after)
      with ([dquote] ++ [] ++ u " " ++ (u "class=" ++ dquote :: u "chants-title")
            ++ [] ++ [dquote] ++ u " " ++ (u "title=" ++ [dquote])
            ++ (title ++ dquote :: u ">") ++ after).
    eapply accepted_app_intro; [apply accepted_literal|].
    eapply accepted_app_intro; [apply accepted_run; [simpl; lia|reflexivity]|].
    eapply accepted_app_intro; [apply accepted_run; [simpl; lia|reflexivity]|].
    eapply accepted_app_intro; [apply accepted_literal|].
    eapply accepted_app_intro; [apply accepted_run; [simpl; lia|reflexivity]|].
    eapply accepted_app_intro; [apply accepted_literal|].
    eapply accepted_app_intro; [apply accepted_run; [simpl; lia|reflexivity]|].
    apply accepted_literal. }
  cbn [m_pos m_open m_caps].
  (* the second group and the tail *)
  cbn [accepted].
  rewrite <- app_assoc.
  change (unquoted ++ Close 2 :: chant_tail) with (unquoted ++ (Close 2 :: chant_tail)).
  eapply accepted_app_intro; [apply accepted_run; [exact Ht1|exact Ht2]|].
  cbn [accepted m_pos m_open m_caps assoc_nat Nat.eqb].
  change chant_tail with (map (fun c => One (CChar c)) (dquote :: u ">")).
  apply accepted_literal.
Qed.

Lemma attempt_complete dotall p (s : str) (pos : nat) st' s' :
  accepted dotall p s (MState pos [] []) st' s' ->
  attempt dotall false p s pos <> None.
Proof.
  intros H. unfold attempt.
  pose proof (@match_here_complete dotall pos p s _ st' s' H) as Hm.
  destruct (match_here dotall false pos p s (MState pos [] [])); [discriminate|].
  now elim Hm.
Qed.

(** The scan of [re.findall] returns a match as soon as an attempt succeeds
    somewhere in the text. *)
Lemma scan_complete dotall p (before rest : str) :
  attempt dotall false p rest (List.length before) <> None ->
  forall pre s pos,
    before = pre ++ s -> pos = List.length pre ->
    scan dotall p (s ++ rest) pos 0 <> [].
Proof.
  intros Hatt pre s; revert pre.
  induction s as [|c s IH]; intros pre pos Hb Hpos.
  - rewrite app_nil_r in Hb. subst pre pos. rewrite app_nil_l.
    destruct rest as [|c rest]; simpl.
    + destruct (attempt dotall false p [] (List.length before)) as [m|];
        [|now elim Hatt].
      destruct (Nat.eqb (r_end m) (List.length before)); discriminate.
    + destruct (attempt dotall false p (c :: rest) (List.length before)) as [m|];
        [|now elim Hatt].
      destruct (Nat.eqb (r_end m) (List.length before)); discriminate.
  - change ((c :: s) ++ rest) with (c :: s ++ rest). simpl.
    destruct (attempt dotall false p (c :: s ++ rest) pos) as [m|].
    + destruct (Nat.eqb (r_end m) pos); discriminate.
    + apply (IH (pre ++ [c])).
      * rewrite <- app_assoc. exact Hb.
      * rewrite length_app. simpl. lia.
Qed.

(** [re.search] finds a match as soon as an attempt succeeds somewhere in
    the text. *)
Lemma search_from_complete dotall p (before rest : str) :
  attempt dotall false p rest (List.length before) <> None ->
  forall pre s pos,
    before = pre ++ s -> pos = List.length pre ->
    search_from dotall p (s ++ rest) pos <> None.
Proof.
  intros Hatt pre s; revert pre.
  induction s as [|c s IH]; intros pre pos Hb Hpos.
  - rewrite app_nil_r in Hb. subst pre pos. rewrite app_nil_l.
    destruct rest as [|c rest]; simpl.
    + destruct (attempt dotall false p [] (List.length before)) as [m|];
        [discriminate|now elim Hatt].
    + destruct (attempt dotall false p (c :: rest) (List.length before)) as [m|];
        [discriminate|now elim Hatt].
  - change ((c :: s) ++ rest) with (c :: s ++ rest). simpl.
    destruct (attempt dotall false p (c :: s ++ rest) pos) as [m|]; [discriminate|].
    apply (IH (pre ++ [c])).
    + rewrite <- app_assoc. exact Hb.
    + rewrite length_app. simpl. lia.
Qed.

(** X25.  A page with a plain anchor always gives a menu.  When the fetched
    page holds, anywhere, an anchor written as the option pattern expects
    (the href attribute, the class chants-title and the title attribute in
    this order, one space between them, a link and a title that are not
    empty and hold no double quote), [get_options] returns a mapping with at
    least one entry; it cannot raise the error of a page without results. *)
Theorem get_options_finds_anchor (E : Env) (url : str) (w w1 : World)
    (html before href title after : str) :
  get_page E url w = (Ret html, w1) ->
  html = before ++ anchor_text href title ++ after ->
  plain href -> plain title ->
  get_options E url chant_pattern w = (Ret (options_of html), w1)
  /\ options_of html <> [].
Proof.
  intros Hpage -> Hh Ht.
  destruct (@anchor_accepted href title after (List.length before) Hh Ht)
    as (st' & s' & Hacc).
  apply attempt_complete in Hacc.
  pose proof (@scan_complete false chant_pattern before
                (anchor_text href title ++ after) Hacc [] before 0 eq_refl eq_refl)
    as Hscan.
  rewrite get_options_run, Hpage. unfold options_of, anchors.
  destruct (scan false chant_pattern (before ++ anchor_text href title ++ after) 0 0)
    as [|m l] eqn:Hs; [now elim Hscan|].
  split; [reflexivity|]. apply dict_of_pairs_not_nil.
Qed.

(** X25 on the page that is one such anchor. *)
Lemma get_options_finds_anchor_witness :
  get_options (serving page_chant) chants_url chant_pattern (world_of [])
  = (Ret (options_of page_chant), sending (page_request chants_url) (world_of []))
  /\ options_of page_chant <> [].
Proof.
  apply (@get_options_finds_anchor (serving page_chant) chants_url (world_of [])
           (sending (page_request chants_url) (world_of []))
           page_chant [] (u "/c1") (u "Chant1") []).
  - vm_compute; reflexivity.
  - vm_compute; reflexivity.
  - split; [discriminate|]. vm_compute. intuition discriminate.
  - split; [discriminate|]. vm_compute. intuition discriminate.
Defined.

(** A call of the player is accepted by the playlist pattern. *)
Lemma player_call_accepted (middle after : str) (pos : nat) :
  exists st' s',
    accepted true playlist_pattern (player_call middle ++ after) (MState pos [] [])
      st' s'.
Proof.
  do 2 eexists.
  change playlist_pattern
    with (map (fun c => One (CChar c)) (u "window.vmAudioPlayer(")
          ++ Open 1 :: map (fun c => One (CChar c)) [123%N]
          ++ [Rep CDot 0 false]
          ++ (map (fun c => One (CChar c)) [125%N]
              ++ Close 1 :: map (fun c => One (CChar c)) (u ");"))).
  unfold player_call.
  replace ((u "window.vmAudioPlayer(" ++ 123%N :: middle ++ u "});") ++ after)
    with (u "window.vmAudioPlayer(" ++ [123%N] ++ middle ++ [125%N] ++ u ");" ++ after).
  2:{ rewrite <- !app_assoc. simpl. rewrite <- app_assoc. reflexivity. }
  eapply accepted_app_intro; [apply accepted_literal|].
  cbn [accepted m_pos m_open m_caps].
  eapply accepted_app_intro; [apply accepted_literal|].
  eapply accepted_app_intro.
  { apply accepted_run; [lia|]. apply forallb_forall. intros c _. reflexivity. }
  eapply accepted_app_intro; [apply accepted_literal|].
  cbn [accepted m_pos m_open m_caps assoc_nat Nat.eqb].
  apply accepted_literal.
Qed.

Lemma payload_complete (before middle after : str) :
  payload (before ++ player_call middle ++ after) <> None.
Proof.
  destruct (@player_call_accepted middle after (List.length before)) as (st' & s' & Hacc).
  apply attempt_complete in Hacc.
  pose proof (@search_from_complete true playlist_pattern before
                (player_call middle ++ after) Hacc [] before 0 eq_refl eq_refl)
    as Hs.
  unfold payload, re_search.
  destruct (search_from true playlist_pattern (before ++ player_call middle ++ after) 0);
    [discriminate|now elim Hs].
Qed.

Lemma said_differs (o : out) (w : World) : said o w <> w.
Proof.
  intros H. apply (f_equal (fun w => List.length (stdout w))) in H.
  simpl in H. rewrite length_app in H. simpl in H. lia.
Qed.



